(** * Sentin-L: the monitoring loop of [main.c], embedded and verified

    The program simulates the temperature and vibration sensors of a motor,
    appends every reading to [machine_logs.csv], redraws a console dashboard,
    extrapolates the time to failure from the last two readings, and stops
    at the first CRITICAL reading.

    The embedding follows the C text function by function.

    - [float] is IEEE-754 binary32 and [double] is binary64, both with
      round-to-nearest-even and no excess precision (FLT_EVAL_METHOD 0).
      Values are [spec_float]s of the standard library, and every operator
      is the library's reference implementation at the precision the C
      typing rules select for it.
    - [int] values are in [Z]; the only [int] that is ever incremented is
      [time_step], which is shown to stay below 22.
    - [rand] and [fopen] are the two sources of non-determinism.  An
      environment fixes the value of the k-th call of [rand] and whether the
      k-th call of [fopen] succeeds.
    - The console and the log file are sequences of [printf] / [fprintf]
      calls, each kept as its format string together with its arguments. *)

From Stdlib Require Import ZArith Bool List String Lia.
From Stdlib Require Import Floats.SpecFloat.
Import ListNotations.

Local Open Scope string_scope.
Local Open Scope Z_scope.

(** ** IEEE-754 arithmetic as used by the C code *)

Module IEEE.

Definition float := spec_float.
Definition double := spec_float.

Definition prec32 := 24.
Definition emax32 := 128.
Definition prec64 := 53.
Definition emax64 := 1024.

(** Rounding of a value of either format into the other one. *)
Definition round_to (prec emax : Z) (x : spec_float) : spec_float :=
  match x with
  | S754_finite s m e => binary_round prec emax s m e
  | _ => x
  end.

(** Implicit conversion performed when a [double] is stored in a
    [float] object. *)
Definition float_of_double (x : double) : float := round_to prec32 emax32 x.

(** Promotion of a [float] operand to [double]; it is exact. *)
Definition double_of_float (x : float) : double := round_to prec64 emax64 x.

(** Conversions from [int]. *)
Definition float_of_int (z : Z) : float := binary_normalize prec32 emax32 z 0 false.
Definition double_of_int (z : Z) : double := binary_normalize prec64 emax64 z 0 false.

(** A decimal literal [n/d] of type [double]: the correctly rounded
    quotient of two exactly represented integers. *)
Definition double_lit (n d : Z) : double :=
  SFdiv prec64 emax64 (double_of_int n) (double_of_int d).

Definition fadd : float -> float -> float := SFadd prec32 emax32.
Definition fsub : float -> float -> float := SFsub prec32 emax32.
Definition fdiv : float -> float -> float := SFdiv prec32 emax32.
Definition dadd : double -> double -> double := SFadd prec64 emax64.
Definition dsub : double -> double -> double := SFsub prec64 emax64.
Definition dmul : double -> double -> double := SFmul prec64 emax64.

(** Relational operators; a comparison with a NaN operand is false. *)
Definition lt (x y : spec_float) : bool := SFltb x y.
Definition le (x y : spec_float) : bool := SFleb x y.
Definition gt (x y : spec_float) : bool := SFltb y x.

Definition is_nan (x : spec_float) : bool :=
  match x with S754_nan => true | _ => false end.
Definition is_zero (x : spec_float) : bool :=
  match x with S754_zero _ => true | _ => false end.
Definition is_finite (x : spec_float) : bool :=
  match x with S754_zero _ | S754_finite _ _ _ => true | _ => false end.

End IEEE.
Import IEEE.

(** ** Configuration *)

Definition DATA_FILE : string := "machine_logs.csv".
Definition CRITICAL_TEMP : double := double_of_int 100.
Definition CRITICAL_VIBRATION : double := double_of_int 50.

(** [RAND_MAX] of the C library the program is built against (glibc). *)
Definition RAND_MAX : Z := 2147483647.

(** The largest value of an [int]. *)
Definition INT_MAX : Z := 2147483647.

(** ** Data structures *)

Record SensorData := mkSensorData {
  timestamp : Z;
  temperature : float;
  vibration : float;
  status : Z  (* 0=OK, 1=WARNING, 2=CRITICAL *)
}.

(** ** The outside world *)

(** An argument of a [printf] / [fprintf] call.  A [float] argument is
    promoted to [double] by the call. *)
Inductive Arg :=
| AInt (z : Z)
| ADouble (x : double)
| AStr (s : string).

(** What reaches the console. *)
Inductive Output :=
| Printf (format : string) (args : list Arg)
| System (command : string).

(** One [fprintf] on the log file: the format and its arguments. *)
Record Line := mkLine { line_format : string; line_args : list Arg }.

(** The choices the program does not control. *)
Record Env := mkEnv {
  rand_value : nat -> Z;   (* result of the k-th call of rand() *)
  fopen_ok : nat -> bool   (* does the k-th call of fopen() succeed? *)
}.

Record World := mkWorld {
  log_file : list Line;    (* content of DATA_FILE, oldest line first *)
  console : list Output;   (* oldest output first *)
  rand_calls : nat;
  fopen_calls : nat;
  slept : Z                (* seconds spent in sleep() *)
}.

(** The newline character that ends the C format strings. *)
Definition NL : string := String (Ascii.ascii_of_nat 10) EmptyString.

Definition printf (format : string) (args : list Arg) (w : World) : World :=
  mkWorld (log_file w) (console w ++ [Printf format args])
          (rand_calls w) (fopen_calls w) (slept w).

Definition system (command : string) (w : World) : World :=
  mkWorld (log_file w) (console w ++ [System command])
          (rand_calls w) (fopen_calls w) (slept w).

Definition sleep (seconds : Z) (w : World) : World :=
  mkWorld (log_file w) (console w) (rand_calls w) (fopen_calls w)
          (slept w + seconds).

Section Program.

Variable env : Env.

Definition rand (w : World) : Z * World :=
  (rand_value env (rand_calls w),
   mkWorld (log_file w) (console w) (S (rand_calls w)) (fopen_calls w) (slept w)).

Inductive Mode := ModeW | ModeA.

(** [fopen(DATA_FILE, mode)]: [None] is the null pointer.  Opening with
    "w" truncates the file; opening with "a" keeps it. *)
Definition fopen (mode : Mode) (w : World) : option Mode * World :=
  if fopen_ok env (fopen_calls w) then
    (Some mode,
     mkWorld (match mode with ModeW => [] | ModeA => log_file w end)
             (console w) (rand_calls w) (S (fopen_calls w)) (slept w))
  else
    (None,
     mkWorld (log_file w) (console w) (rand_calls w) (S (fopen_calls w)) (slept w)).

(** [fprintf] and [fclose] on an open stream.  The one call that can be
    handed the null pointer is the [fprintf] of [main]; its null case is
    written out there. *)
Definition fprintf (format : string) (args : list Arg) (w : World) : World :=
  mkWorld (log_file w ++ [mkLine format args]) (console w)
          (rand_calls w) (fopen_calls w) (slept w).

Definition fclose (w : World) : World := w.

(** *** Module 1: hardware simulation *)

(** [((float)rand() / RAND_MAX) * scale], stored in a [float]. *)
Definition random_noise (r : Z) (scale : double) : float :=
  float_of_double
    (dmul (double_of_float (fdiv (float_of_int r) (float_of_int RAND_MAX))) scale).

(** [base + (time_step * rate)], the part of a reading that does not
    depend on [rand]. *)
Definition trend (base rate : double) (time_step : Z) : double :=
  dadd base (dmul (double_of_int time_step) rate).

(** The status assigned at the end of [read_sensors]. *)
Definition classify (temperature vibration : float) : Z :=
  if gt (double_of_float temperature) CRITICAL_TEMP
     || gt (double_of_float vibration) CRITICAL_VIBRATION
  then 2
  else if gt (double_of_float temperature) (dmul CRITICAL_TEMP (double_lit 8 10))
  then 1
  else 0.

Definition read_sensors (time_step : Z) (w : World) : SensorData * World :=
  let '(r1, w) := rand w in
  let random_noise_temp := random_noise r1 (double_of_int 2) in
  let '(r2, w) := rand w in
  let random_noise_vib := random_noise r2 (double_of_int 1) in
  let temperature :=
    float_of_double
      (dadd (trend (double_of_int 40) (double_of_int 3) time_step)
            (double_of_float random_noise_temp)) in
  let vibration :=
    float_of_double
      (dadd (trend (double_of_int 10) (double_lit 15 10) time_step)
            (double_of_float random_noise_vib)) in
  (mkSensorData time_step temperature vibration (classify temperature vibration), w).

(** *** Module 2: database management *)

Definition row_format : string := "%d,%.2f,%.2f,%d" ++ NL.

Definition row_args (data : SensorData) : list Arg :=
  [AInt (timestamp data); ADouble (double_of_float (temperature data));
   ADouble (double_of_float (vibration data)); AInt (status data)].

Definition log_to_database (data : SensorData) (w : World) : World :=
  let '(fp, w) := fopen ModeA w in
  match fp with
  | None => printf ("ERROR: Could not access database file!" ++ NL) [] w
  | Some _ => fclose (fprintf row_format (row_args data) w)
  end.

(** *** Module 3: prediction engine *)

Definition predict_failure (current previous : SensorData) (w : World) : World :=
  let w := printf (NL ++ "   [ AI ANALYTICS ENGINE ]" ++ NL) [] w in
  let temp_rate := fsub (temperature current) (temperature previous) in
  if le temp_rate (float_of_int 0) then
    printf ("   >> Status: Stable. No immediate risk detected." ++ NL) [] w
  else
    let temp_diff :=
      float_of_double (dsub CRITICAL_TEMP (double_of_float (temperature current))) in
    let steps_to_failure := fdiv temp_diff temp_rate in
    let steps_to_failure :=
      if lt steps_to_failure (float_of_int 0) then float_of_int 0
      else steps_to_failure in
    let w := printf ("   >> Trend Detected: Temperature rising by %.2f C/sec" ++ NL)
                    [ADouble (double_of_float temp_rate)] w in
    if lt steps_to_failure (float_of_int 10) then
      let w := printf ("   >> ALERT: PREDICTED FAILURE IN %.0f SECONDS!" ++ NL)
                      [ADouble (double_of_float steps_to_failure)] w in
      printf ("   >> ACTION: RECOMMENDING EMERGENCY SHUTDOWN." ++ NL) [] w
    else
      printf ("   >> PREDICTION: Safe operation for next %.0f seconds." ++ NL)
             [ADouble (double_of_float steps_to_failure)] w.

(** *** Module 4: user interface *)

Definition print_dashboard (data : SensorData) (w : World) : World :=
  let w := system "clear" w in
  let w := printf ("====================================================" ++ NL) [] w in
  let w := printf ("  SENTIN-L | INDUSTRIAL MONITORING SYSTEM (IoT)" ++ NL) [] w in
  let w := printf ("====================================================" ++ NL) [] w in
  let w := printf ("  SENSOR READINGS:" ++ NL) [] w in
  let w := printf "  [+] Temperature : %.2f C  "
                  [ADouble (double_of_float (temperature data))] w in
  let w :=
    if lt (temperature data) (float_of_int 60) then printf ("[====      ]" ++ NL) [] w
    else if lt (temperature data) (float_of_int 90) then printf ("[========  ]" ++ NL) [] w
    else printf ("[==========] !!!" ++ NL) [] w in
  let w := printf ("  [+] Vibration   : %.2f Hz " ++ NL)
                  [ADouble (double_of_float (vibration data))] w in
  let w := printf ("----------------------------------------------------" ++ NL) [] w in
  let w := printf "  SYSTEM STATUS   : " [] w in
  let w := if status data =? 0 then printf ("NORMAL [ OK ]" ++ NL) [] w else w in
  let w := if status data =? 1 then printf ("WARNING [ ! ]" ++ NL) [] w else w in
  let w := if status data =? 2 then printf ("CRITICAL [ X ]" ++ NL) [] w else w in
  printf ("====================================================" ++ NL) [] w.

(** *** The monitoring loop *)

(** The variables of [main] that live across iterations. *)
Record LoopState := mkLoopState {
  time_step : Z;
  prev_data : SensorData
}.

Definition initial_state : LoopState :=
  mkLoopState 0 (mkSensorData 0 (float_of_double (double_of_int 0))
                              (float_of_double (double_of_int 0)) 0).

Inductive Control := Break | Continue.

(** One pass through the body of [while (1)]. *)
Definition loop_body (st : LoopState) (w : World) : Control * LoopState * World :=
  let time_step := time_step st + 1 in
  let '(current_data, w) := read_sensors time_step w in
  let w := log_to_database current_data w in
  let w := print_dashboard current_data w in
  let w := if 1 <? time_step then predict_failure current_data (prev_data st) w else w in
  if status current_data =? 2 then
    let w := printf (NL ++ "*** CRITICAL FAILURE DETECTED ***" ++ NL) [] w in
    let w := printf ("*** SYSTEM HALTED TO PREVENT EXPLOSION ***" ++ NL) [] w in
    (Break, mkLoopState time_step (prev_data st), w)
  else
    (Continue, mkLoopState time_step current_data, sleep 1 w).

(** [while (1) { ... }], unrolled at most [fuel] times; [None] when the
    loop is still running after [fuel] iterations. *)
Fixpoint main_loop (fuel : nat) (st : LoopState) (w : World) : option (LoopState * World) :=
  match fuel with
  | O => None
  | S fuel' =>
      match loop_body st w with
      | (Break, st', w') => Some (st', w')
      | (Continue, st', w') => main_loop fuel' st' w'
      end
  end.

Definition header_format : string := "Timestamp,Temperature,Vibration,Status" ++ NL.

(** How a run of [main] ends. *)
Inductive Outcome :=
| Exit (code : Z) (w : World)
| NullStream (w : World).  (* fprintf was handed a null FILE pointer *)

(** [srand(time(0))] only chooses the sequence [rand] will return, which
    is the environment's; the result of the first [fopen] goes to [fprintf]
    unchecked. *)
Definition main (fuel : nat) (w : World) : option Outcome :=
  let '(fp, w) := fopen ModeW w in
  match fp with
  | None => Some (NullStream w)
  | Some _ =>
      let w := fclose (fprintf header_format [] w) in
      let w := printf ("Booting Sentin-L System..." ++ NL) [] w in
      let w := printf ("Connecting to IoT Sensors..." ++ NL) [] w in
      let w := sleep 1 w in
      match main_loop fuel initial_state w with
      | None => None
      | Some (_, w) =>
          Some (Exit 0 (printf (NL ++ "Session Data saved to '%s'." ++ NL) [AStr DATA_FILE] w))
      end
  end.

End Program.

(** ** Sample runs *)

Definition empty_world : World := mkWorld [] [] 0 0 0.
Definition quiet_env : Env := mkEnv (fun _ => 0) (fun _ => true).

(** ** Pure views of the program *)

Section Views.

Variable env : Env.

(** The reading [read_sensors] returns for [time_step] when [r] calls of
    [rand] have been made before. *)
Definition sense (time_step : Z) (r : nat) : SensorData :=
  let random_noise_temp := random_noise (rand_value env r) (double_of_int 2) in
  let random_noise_vib := random_noise (rand_value env (S r)) (double_of_int 1) in
  let temperature :=
    float_of_double
      (dadd (trend (double_of_int 40) (double_of_int 3) time_step)
            (double_of_float random_noise_temp)) in
  let vibration :=
    float_of_double
      (dadd (trend (double_of_int 10) (double_lit 15 10) time_step)
            (double_of_float random_noise_vib)) in
  mkSensorData time_step temperature vibration (classify temperature vibration).

(** What one call of a printing function adds to the console. *)
Definition dashboard_output (data : SensorData) : list Output :=
  console (print_dashboard data (mkWorld [] [] 0 0 0)).

Definition predict_output (current previous : SensorData) : list Output :=
  console (predict_failure current previous (mkWorld [] [] 0 0 0)).

Definition add_console (out : list Output) (w : World) : World :=
  mkWorld (log_file w) (console w ++ out) (rand_calls w) (fopen_calls w) (slept w).

Definition error_output : list Output :=
  [Printf ("ERROR: Could not access database file!" ++ NL) []].

Definition halt_output : list Output :=
  [Printf (NL ++ "*** CRITICAL FAILURE DETECTED ***" ++ NL) [];
   Printf ("*** SYSTEM HALTED TO PREVENT EXPLOSION ***" ++ NL) []].

(** The line [log_to_database] appends for a reading. *)
Definition row (data : SensorData) : Line := mkLine row_format (row_args data).

(** Everything one iteration prints, in order. *)
Definition tick_console (t : Z) (opened : bool) (cur prev : SensorData) : list Output :=
  (if opened then [] else error_output)
  ++ dashboard_output cur
  ++ (if 1 <? t then predict_output cur prev else [])
  ++ (if status cur =? 2 then halt_output else []).

(** The rows written and the output printed by [n] consecutive
    iterations that start with time step [t], after [r] calls of [rand]
    and [f] calls of [fopen]. *)
Fixpoint run_rows (n : nat) (t : Z) (r f : nat) : list Line :=
  match n with
  | O => []
  | S n' =>
      (if fopen_ok env f then [row (sense (t + 1) r)] else [])
      ++ run_rows n' (t + 1) (S (S r)) (S f)
  end.

Fixpoint run_console (n : nat) (t : Z) (r f : nat) (prev : SensorData) : list Output :=
  match n with
  | O => []
  | S n' =>
      tick_console (t + 1) (fopen_ok env f) (sense (t + 1) r) prev
      ++ run_console n' (t + 1) (S (S r)) (S f) (sense (t + 1) r)
  end.

(** The reading of the [j]-th of these iterations, [j >= 1]. *)
Definition reading_at (t : Z) (r : nat) (j : nat) : SensorData :=
  sense (t + Z.of_nat j) (r + 2 * (j - 1)).

End Views.

(** ** Vocabulary for reasoning about rounding *)

(** The value [binary_round_aux] builds from the rounded mantissa [m] and
    its exponent [e]: a mantissa that has reached [2^prec] is renormalised,
    and an exponent above the largest one overflows. *)
Definition pack (prec emax : Z) (s : bool) (m e : Z) : spec_float :=
  match m with
  | Z0 => S754_zero s
  | Zpos p =>
      if m =? 2 ^ prec then
        if e + 1 <=? emax - prec
        then S754_finite s (Z.to_pos (2 ^ (prec - 1))) (e + 1)
        else S754_infinity s
      else if e <=? emax - prec then S754_finite s p e else S754_infinity s
  | Zneg _ => S754_nan
  end.

(** [x] is not a NaN and its sign bit is [s]. *)
Definition sign_class (s : bool) (x : spec_float) : bool :=
  match x with
  | S754_zero s' | S754_infinity s' | S754_finite s' _ _ => Bool.eqb s s'
  | S754_nan => false
  end.

(** The double whose value is [k * 2^e], when that number is representable. *)
Definition dyadic (k e : Z) : double := binary_normalize prec64 emax64 k e false.

Definition scale (e : Z) : Z := 2 ^ Z.max 0 e.

(** [B <= m * 2^e] for integers [B], [m] and a possibly negative [e]. *)
Definition ge_int (B m e : Z) : Prop := B * scale (- e) <= m * scale e.

(** [x] is a positive number of precision [prec], or +infinity, and is at
    least the integer [B]. *)
Definition at_least (prec B : Z) (x : spec_float) : Prop :=
  match x with
  | S754_infinity false => True
  | S754_finite false m e => Zpos m < 2 ^ prec /\ ge_int B (Zpos m) e
  | _ => False
  end.

(** ** Runs *)

(** [rand] keeps its contract: every value lies in [0, RAND_MAX]. *)
Definition rand_in_range (env : Env) : Prop :=
  forall k, 0 <= rand_value env k <= RAND_MAX.

Definition opens_succeed (env : Env) : Prop :=
  forall k, fopen_ok env k = true.

(** The state and the world when [k] iterations have been completed and
    the loop has not stopped; [None] if it stopped earlier. *)
Fixpoint iterations (env : Env) (k : nat) (st : LoopState) (w : World)
  : option (LoopState * World) :=
  match k with
  | O => Some (st, w)
  | S k' =>
      match iterations env k' st w with
      | Some (st', w') =>
          match loop_body env st' w' with
          | (Continue, st'', w'') => Some (st'', w'')
          | (Break, _, _) => None
          end
      | None => None
      end
  end.

(** How many of the [n] calls of [fopen] that follow the first [f] succeed. *)
Definition opened_count (env : Env) (f n : nat) : nat :=
  List.length (filter (fopen_ok env) (seq f n)).

Definition header_line : Line := mkLine header_format [].

(** The world in which the loop starts when the header has been written. *)
Definition startup_world (w : World) : World :=
  mkWorld [header_line]
          (console w ++ [Printf ("Booting Sentin-L System..." ++ NL) [];
                         Printf ("Connecting to IoT Sensors..." ++ NL) []])
          (rand_calls w) (S (fopen_calls w)) (slept w + 1).

(** The environment that differs from [env] only in that every [fopen]
    succeeds. *)
Definition with_open_files (env : Env) : Env := mkEnv (rand_value env) (fun _ => true).

(** The lines of the log file that are data rows. *)
Definition data_rows (l : list Line) : list Line :=
  filter (fun ln => String.eqb (line_format ln) row_format) l.

(** ** The predictor as the specification words it *)

Inductive Verdict :=
| Stable
| Urgent (rate steps : float)
| SafeFor (rate steps : float).

(** [(critical_temp - current.temperature) / rate], clamped to be
    non-negative. *)
Definition projected_steps (current : SensorData) (rate : float) : float :=
  let steps :=
    fdiv (float_of_double (dsub CRITICAL_TEMP (double_of_float (temperature current))))
         rate in
  if lt steps (float_of_int 0) then float_of_int 0 else steps.

Definition predictor_verdict (current previous : SensorData) : Verdict :=
  let rate := fsub (temperature current) (temperature previous) in
  if le rate (float_of_int 0) then Stable
  else
    let steps := projected_steps current rate in
    if lt steps (float_of_int 10) then Urgent rate steps else SafeFor rate steps.

Definition banner_output : Output :=
  Printf (NL ++ "   [ AI ANALYTICS ENGINE ]" ++ NL) [].

Definition trend_output (rate : float) : Output :=
  Printf ("   >> Trend Detected: Temperature rising by %.2f C/sec" ++ NL)
         [ADouble (double_of_float rate)].

Definition verdict_output (v : Verdict) : list Output :=
  banner_output ::
  match v with
  | Stable =>
      [Printf ("   >> Status: Stable. No immediate risk detected." ++ NL) []]
  | Urgent rate steps =>
      [trend_output rate;
       Printf ("   >> ALERT: PREDICTED FAILURE IN %.0f SECONDS!" ++ NL)
              [ADouble (double_of_float steps)];
       Printf ("   >> ACTION: RECOMMENDING EMERGENCY SHUTDOWN." ++ NL) []]
  | SafeFor rate steps =>
      [trend_output rate;
       Printf ("   >> PREDICTION: Safe operation for next %.0f seconds." ++ NL)
              [ADouble (double_of_float steps)]]
  end.

(** A reading with the given temperature, for the examples. *)
Definition reading_with_temperature (t : float) : SensorData :=
  mkSensorData 0 t (float_of_int 10) (classify t (float_of_int 10)).

(** ** Sample environments *)

(** [rand] always returns [RAND_MAX]; every [fopen] succeeds. *)
Definition noisy_env : Env := mkEnv (fun _ => RAND_MAX) (fun _ => true).

(** No [fopen] ever succeeds. *)
Definition closed_env : Env := mkEnv (fun _ => 0) (fun _ => false).

(** Only the first [fopen], the one of the header, succeeds. *)
Definition header_only_env : Env := mkEnv (fun _ => 0) (fun k => Nat.eqb k 0).

(** The loop of a run without noise after its first iteration. *)
Definition after_first_tick : option (LoopState * World) :=
  Eval vm_compute in iterations quiet_env 1 initial_state empty_world.

(** Is this output the first line the predictor prints? *)
Definition is_banner (o : Output) : bool :=
  match o with
  | Printf f _ => String.eqb f (NL ++ "   [ AI ANALYTICS ENGINE ]" ++ NL)
  | System _ => false
  end.

(** ** Two-sided bounds *)

(** [m * 2^e <= B] for integers [m], [B] and a possibly negative [e]. *)
Definition le_int (m e B : Z) : Prop := m * scale e <= B * scale (- e).

(** [x] is a positive number of precision [prec] with a normal mantissa
    whose value lies between the integers [A] and [B]. *)
Definition between (prec A B : Z) (x : spec_float) : Prop :=
  match x with
  | S754_finite false m e =>
      2 ^ (prec - 1) <= Zpos m < 2 ^ prec /\ ge_int A (Zpos m) e /\ le_int (Zpos m) e B
  | _ => False
  end.

(** [x] is +0 or a positive finite number that is at most the integer [B]. *)
Definition upto (B : Z) (x : spec_float) : Prop :=
  match x with
  | S754_zero false => True
  | S754_finite false m e => le_int (Zpos m) e B
  | _ => False
  end.

(** ** Counting console events *)

Definition is_clear (o : Output) : bool :=
  match o with
  | System c => String.eqb c "clear"
  | Printf _ _ => false
  end.

Definition is_halt (o : Output) : bool :=
  match o with
  | Printf f _ => String.eqb f (NL ++ "*** CRITICAL FAILURE DETECTED ***" ++ NL)
  | System _ => false
  end.

Definition is_error (o : Output) : bool :=
  match o with
  | Printf f _ => String.eqb f ("ERROR: Could not access database file!" ++ NL)
  | System _ => false
  end.

(** How many of the outputs satisfy [p]. *)
Definition count (p : Output -> bool) (l : list Output) : nat :=
  List.length (filter p l).

(** How many of the [n] calls of [fopen] that follow the first [f] fail. *)
Definition failed_count (env : Env) (f n : nat) : nat :=
  List.length (filter (fun k => negb (fopen_ok env k)) (seq f n)).

(** ** More sample runs *)

(** [rand] returns [RAND_MAX] once, then 0. *)
Definition spike_env : Env :=
  mkEnv (fun k => if Nat.eqb k 0 then RAND_MAX else 0) (fun _ => true).

(** The loop of a run in which [rand] always returns [RAND_MAX]. *)
Definition noisy_run : option (LoopState * World) :=
  Eval vm_compute in main_loop noisy_env 21 initial_state empty_world.

(** The run of [main] without noise. *)
Definition quiet_main : option Outcome :=
  Eval vm_compute in main quiet_env 21 empty_world.

(** A reading whose temperature is not a number. *)
Definition nan_reading : SensorData := mkSensorData 2 S754_nan (float_of_int 13) 0.

(** * Properties *)

(** ** Rounding in [binary_round] and [binary_round_aux] *)

Lemma digits2_pos_bounds (p : positive) :
  2 ^ (Zpos (digits2_pos p) - 1) <= Zpos p < 2 ^ Zpos (digits2_pos p).
Proof.
  induction p as [p IH|p IH|]; cbn [digits2_pos].
  - rewrite Pos2Z.inj_succ, Z.pow_succ_r by lia.
    replace (Z.succ (Zpos (digits2_pos p)) - 1) with (Z.succ (Zpos (digits2_pos p) - 1)) by lia.
    rewrite Z.pow_succ_r by lia. lia.
  - rewrite Pos2Z.inj_succ, Z.pow_succ_r by lia.
    replace (Z.succ (Zpos (digits2_pos p)) - 1) with (Z.succ (Zpos (digits2_pos p) - 1)) by lia.
    rewrite Z.pow_succ_r by lia. lia.
  - simpl. lia.
Qed.

Lemma Zdigits2_bounds (m : Z) :
  0 < m -> 2 ^ (Zdigits2 m - 1) <= m < 2 ^ Zdigits2 m.
Proof. destruct m as [|p|p]; try lia. intros _. apply digits2_pos_bounds. Qed.

Lemma Zdigits2_pos (m : Z) : 0 < m -> 0 < Zdigits2 m.
Proof. destruct m; simpl; lia. Qed.

Lemma Zdigits2_unique (m d : Z) :
  2 ^ (d - 1) <= m < 2 ^ d -> 0 < m -> Zdigits2 m = d.
Proof.
  intros [Hl Hu] Hm.
  pose proof (Zdigits2_bounds m Hm) as [Hl' Hu'].
  pose proof (Zdigits2_pos m Hm) as Hd.
  assert (0 < d).
  { destruct (Z.lt_trichotomy d 0) as [H|[H|H]]; auto.
    - rewrite Z.pow_neg_r in Hu by lia. lia.
    - subst d. simpl in Hu. lia. }
  destruct (Z.lt_trichotomy (Zdigits2 m) d) as [H1|[H1|H1]]; auto.
  - assert (2 ^ Zdigits2 m <= 2 ^ (d - 1)) by (apply Z.pow_le_mono_r; lia). lia.
  - assert (2 ^ d <= 2 ^ (Zdigits2 m - 1)) by (apply Z.pow_le_mono_r; lia). lia.
Qed.

Lemma iter_pos_nat {A : Type} (f : A -> A) (p : positive) :
  forall x, iter_pos f p x = Nat.iter (Pos.to_nat p) f x.
Proof.
  induction p as [p IH|p IH|]; intro x; cbn [iter_pos].
  - rewrite !IH, Pos2Nat.inj_xI.
    replace (S (2 * Pos.to_nat p)) with (Pos.to_nat p + (Pos.to_nat p + 1))%nat by lia.
    rewrite !Nat.iter_add. reflexivity.
  - rewrite !IH, Pos2Nat.inj_xO.
    replace (2 * Pos.to_nat p)%nat with (Pos.to_nat p + Pos.to_nat p)%nat by lia.
    rewrite Nat.iter_add. reflexivity.
  - reflexivity.
Qed.

Lemma shr_1_m (mrs : shr_record) :
  0 <= shr_m mrs -> shr_m (shr_1 mrs) = shr_m mrs / 2.
Proof.
  destruct mrs as [m r s]; cbn [shr_m shr_1]. intros Hm.
  destruct m as [|[p|p|]|p]; cbn [shr_m]; try lia.
  - reflexivity.
  - rewrite Pos2Z.inj_xI. apply Z.div_unique with 1; lia.
  - rewrite Pos2Z.inj_xO. apply Z.div_unique with 0; lia.
  - reflexivity.
Qed.

Lemma shr_iter_m (n : nat) (mrs : shr_record) :
  0 <= shr_m mrs ->
  shr_m (Nat.iter n shr_1 mrs) = shr_m mrs / 2 ^ Z.of_nat n.
Proof.
  intros Hm. induction n as [|n IH].
  - simpl. now rewrite Z.div_1_r.
  - rewrite Nat.iter_succ, shr_1_m.
    + rewrite IH, Nat2Z.inj_succ, Z.pow_succ_r by lia.
      rewrite Z.div_div by lia. f_equal. lia.
    + rewrite IH. apply Z.div_pos; lia.
Qed.

Lemma shr_iter_exact (n : nat) (m : Z) :
  0 <= m -> m mod 2 ^ Z.of_nat n = 0 ->
  Nat.iter n shr_1 (Build_shr_record m false false)
  = Build_shr_record (m / 2 ^ Z.of_nat n) false false.
Proof.
  intros Hm. induction n as [|n IH]; intros Hmod.
  - simpl. now rewrite Z.div_1_r.
  - rewrite Nat2Z.inj_succ, Z.pow_succ_r in Hmod by lia.
    assert (H2 : 0 < 2 ^ Z.of_nat n) by (apply Z.pow_pos_nonneg; lia).
    apply Z.mod_divide in Hmod; [|lia]. destruct Hmod as [q Hq].
    rewrite Nat.iter_succ, IH.
    2:{ apply Z.mod_divide; [lia|]. exists (q * 2). lia. }
    replace (m / 2 ^ Z.of_nat n) with (2 * q).
    2:{ subst m. replace (q * (2 * 2 ^ Z.of_nat n)) with ((2 * q) * 2 ^ Z.of_nat n) by lia.
        now rewrite Z.div_mul by lia. }
    rewrite Nat2Z.inj_succ, Z.pow_succ_r by lia.
    replace (m / (2 * 2 ^ Z.of_nat n)) with q.
    2:{ subst m. now rewrite Z.div_mul by lia. }
    assert (0 <= q) by nia.
    destruct q as [|q|q]; try lia; reflexivity.
Qed.

Lemma shr_m_spec (mrs : shr_record) (e n : Z) :
  0 <= shr_m mrs ->
  shr_m (fst (shr mrs e n)) = shr_m mrs / 2 ^ Z.max 0 n /\
  snd (shr mrs e n) = e + Z.max 0 n.
Proof.
  intros Hm. destruct n as [|p|p]; cbn [shr fst snd].
  - simpl. rewrite Z.div_1_r. lia.
  - rewrite iter_pos_nat, shr_iter_m, positive_nat_Z by assumption.
    rewrite Z.max_r by lia. split; reflexivity.
  - rewrite Z.max_l by lia. simpl. rewrite Z.div_1_r. lia.
Qed.

Lemma shr_exact (m e n : Z) :
  0 <= m -> m mod 2 ^ Z.max 0 n = 0 ->
  fst (shr (Build_shr_record m false false) e n)
  = Build_shr_record (m / 2 ^ Z.max 0 n) false false.
Proof.
  intros Hm Hmod. destruct n as [|p|p]; cbn [shr fst].
  - simpl. now rewrite Z.div_1_r.
  - rewrite Z.max_r in * by lia.
    rewrite iter_pos_nat. rewrite <- (positive_nat_Z p) in *.
    now apply shr_iter_exact.
  - rewrite Z.max_l by lia. simpl. now rewrite Z.div_1_r.
Qed.

Lemma round_nearest_even_cases (m : Z) (l : location) :
  round_nearest_even m l = m \/ round_nearest_even m l = m + 1.
Proof.
  destruct l as [|[| |]]; cbn [round_nearest_even]; auto.
  destruct (Z.even m); auto.
Qed.

Lemma shr_record_of_loc_m (m : Z) (l : location) : shr_m (shr_record_of_loc m l) = m.
Proof. destruct l as [|[| |]]; reflexivity. Qed.

Lemma shr_nonpos (mrs : shr_record) (e n : Z) : n <= 0 -> shr mrs e n = (mrs, e).
Proof. destruct n; try reflexivity. lia. Qed.

Lemma pos_iter_xO (p d : positive) : Zpos (Pos.iter xO p d) = Zpos p * 2 ^ Zpos d.
Proof.
  induction d as [|d IH] using Pos.peano_ind.
  - simpl. lia.
  - rewrite Pos.iter_succ, Pos2Z.inj_xO, IH, Pos2Z.inj_succ, Z.pow_succ_r by lia. lia.
Qed.

Lemma shl_align_spec (mx : positive) (ex ex' : Z) :
  snd (shl_align mx ex ex') = Z.min ex ex' /\
  Zpos (fst (shl_align mx ex ex')) = Zpos mx * 2 ^ (ex - snd (shl_align mx ex ex')).
Proof.
  unfold shl_align. destruct (ex' - ex) as [|d|d] eqn:Hd; cbn [fst snd].
  - split; [lia|]. replace (ex - ex) with 0 by lia. simpl. lia.
  - split; [lia|]. replace (ex - ex) with 0 by lia. simpl. lia.
  - split; [lia|]. rewrite pos_iter_xO. f_equal. f_equal. lia.
Qed.

Lemma Zdigits2_mul_pow2 (m j : Z) :
  0 < m -> 0 <= j -> Zdigits2 (m * 2 ^ j) = Zdigits2 m + j.
Proof.
  intros Hm Hj. pose proof (Zdigits2_bounds m Hm) as [Hl Hu].
  pose proof (Zdigits2_pos m Hm) as Hd.
  assert (H2j : 0 < 2 ^ j) by (apply Z.pow_pos_nonneg; lia).
  apply Zdigits2_unique; [|nia].
  replace (Zdigits2 m + j - 1) with (Zdigits2 m - 1 + j) by lia.
  rewrite !Z.pow_add_r by lia. nia.
Qed.

Section Round.

Variables prec emax : Z.
Hypothesis Hprec : 0 < prec.

Lemma Zdigits2_le_prec (m : Z) : 0 < m -> m < 2 ^ prec -> Zdigits2 m <= prec.
Proof.
  intros Hm Hlt. pose proof (Zdigits2_bounds m Hm) as [Hl _].
  destruct (Z_le_gt_dec (Zdigits2 m) prec) as [|Hgt]; [assumption|].
  assert (2 ^ prec <= 2 ^ (Zdigits2 m - 1)) by (apply Z.pow_le_mono_r; lia). lia.
Qed.

Lemma shifted_lt_prec (m e : Z) :
  0 <= m ->
  m / 2 ^ Z.max 0 (fexp prec emax (Zdigits2 m + e) - e) < 2 ^ prec.
Proof.
  intros Hm. set (k := Z.max 0 _).
  assert (Hk : 0 <= k) by (unfold k; lia).
  assert (H2k : 0 < 2 ^ k) by (apply Z.pow_pos_nonneg; lia).
  assert (H2p : 0 < 2 ^ prec) by (apply Z.pow_pos_nonneg; lia).
  destruct (Z.eq_dec m 0) as [->|Hne].
  - rewrite Z.div_0_l by lia. lia.
  - assert (Hpos : 0 < m) by lia.
    pose proof (Zdigits2_bounds m Hpos) as [_ Hu].
    apply Z.div_lt_upper_bound; [lia|].
    rewrite <- Z.pow_add_r by lia.
    eapply Z.lt_le_trans; [exact Hu|].
    apply Z.pow_le_mono_r; [lia|]. unfold k, fexp. lia.
Qed.

Lemma binary_round_aux_spec (s : bool) (m e : Z) (l : location) :
  0 <= m ->
  let k := Z.max 0 (fexp prec emax (Zdigits2 m + e) - e) in
  exists m_r,
    (m_r = m / 2 ^ k \/ m_r = m / 2 ^ k + 1) /\
    (l = loc_Exact -> m mod 2 ^ k = 0 -> m_r = m / 2 ^ k) /\
    0 <= m_r <= 2 ^ prec /\
    binary_round_aux prec emax s m e l = pack prec emax s m_r (e + k).
Proof.
  intros Hm k.
  assert (Hk : 0 <= k) by (unfold k; lia).
  assert (H2k : 0 < 2 ^ k) by (apply Z.pow_pos_nonneg; lia).
  assert (H2p : 0 < 2 ^ prec) by (apply Z.pow_pos_nonneg; lia).
  pose proof (shifted_lt_prec m e Hm) as Hlt. fold k in Hlt.
  assert (Hm' : 0 <= m / 2 ^ k) by (apply Z.div_pos; lia).
  unfold binary_round_aux, shr_fexp.
  set (n := fexp prec emax (Zdigits2 m + e) - e).
  destruct (shr (shr_record_of_loc m l) e n) as [mrs' e'] eqn:Hshr.
  destruct (shr_m_spec (shr_record_of_loc m l) e n) as [Hsm Hse].
  { now rewrite shr_record_of_loc_m. }
  rewrite Hshr in Hsm, Hse. cbn [fst snd] in Hsm, Hse.
  rewrite shr_record_of_loc_m in Hsm.
  assert (Hkn : Z.max 0 n = k) by reflexivity.
  rewrite Hkn in Hsm, Hse.
  set (m_r := round_nearest_even (shr_m mrs') (loc_of_shr_record mrs')).
  assert (Hcases : m_r = m / 2 ^ k \/ m_r = m / 2 ^ k + 1).
  { unfold m_r. rewrite <- Hsm. apply round_nearest_even_cases. }
  assert (Hemin : emin prec emax <= e').
  { subst e'. unfold k, fexp. lia. }
  exists m_r. split; [exact Hcases|]. split; [|split; [lia|]].
  { intros -> Hmod. rewrite <- Hkn in Hmod.
    pose proof (shr_exact m e n Hm Hmod) as Hex. rewrite Hkn in Hex.
    cbn [shr_record_of_loc] in Hshr. rewrite Hshr in Hex. cbn [fst] in Hex.
    unfold m_r. rewrite Hex. reflexivity. }
  subst e'.
  clearbody m_r. clear Hshr Hsm mrs'.
  set (e' := e + k) in *.
  set (n2 := fexp prec emax (Zdigits2 m_r + e') - e').
  destruct (Z.eq_dec m_r 0) as [Hz|Hnz]; [|destruct (Z.eq_dec m_r (2 ^ prec)) as [Hc|Hnc]].
  - subst m_r. rewrite shr_nonpos.
    + reflexivity.
    + unfold n2, fexp. cbn [Zdigits2]. lia.
  - assert (Hd : Zdigits2 m_r = prec + 1).
    { apply Zdigits2_unique; [|lia]. rewrite Hc.
      replace (prec + 1 - 1) with prec by lia. split; [lia|].
      apply Z.pow_lt_mono_r; lia. }
    assert (Hn2 : n2 = 1) by (unfold n2, fexp; rewrite Hd; lia).
    rewrite Hn2.
    destruct (shr (shr_record_of_loc m_r loc_Exact) e' 1) as [mrs'' e''] eqn:Hshr2.
    assert (Hmod : m_r mod 2 ^ Z.max 0 1 = 0).
    { rewrite Hc. change (Z.max 0 1) with 1. rewrite Z.pow_1_r.
      replace prec with (Z.succ (prec - 1)) by lia. rewrite Z.pow_succ_r by lia.
      rewrite Z.mul_comm. apply Z.mod_mul. lia. }
    pose proof (shr_exact m_r e' 1 ltac:(lia) Hmod) as Hex.
    destruct (shr_m_spec (shr_record_of_loc m_r loc_Exact) e' 1) as [_ Hse2].
    { rewrite shr_record_of_loc_m. lia. }
    cbn [shr_record_of_loc] in Hshr2, Hse2.
    rewrite Hshr2 in Hex, Hse2. cbn [fst snd] in Hex, Hse2.
    subst mrs'' e''. cbn [shr_m]. change (Z.max 0 1) with 1.
    assert (Hhalf : m_r / 2 ^ 1 = 2 ^ (prec - 1)).
    { rewrite Hc, Z.pow_1_r.
      replace prec with (Z.succ (prec - 1)) at 1 by lia. rewrite Z.pow_succ_r by lia.
      rewrite Z.mul_comm. apply Z.div_mul. lia. }
    rewrite Hhalf.
    assert (Hpp : 0 < 2 ^ (prec - 1)) by (apply Z.pow_pos_nonneg; lia).
    unfold pack. destruct m_r as [|q|q]; try lia.
    rewrite (proj2 (Z.eqb_eq _ _) Hc).
    destruct (2 ^ (prec - 1)) as [|h|h]; try lia. reflexivity.
  - assert (Hpos : 0 < m_r) by lia.
    assert (Hd : Zdigits2 m_r <= prec) by (apply Zdigits2_le_prec; lia).
    rewrite shr_nonpos.
    + cbn [shr_record_of_loc shr_m]. unfold pack.
      destruct m_r as [|q|q]; try lia.
      rewrite (proj2 (Z.eqb_neq _ _) Hnc). reflexivity.
    + unfold n2, fexp. lia.
Qed.


Lemma binary_round_spec (s : bool) (p : positive) (e : Z) :
  let E := fexp prec emax (Zdigits2 (Zpos p) + e) in
  exists m_r,
    binary_round prec emax s p e = pack prec emax s m_r E /\
    0 <= m_r <= 2 ^ prec /\
    (E <= e -> m_r = Zpos p * 2 ^ (e - E)) /\
    (e < E ->
     (m_r = Zpos p / 2 ^ (E - e) \/ m_r = Zpos p / 2 ^ (E - e) + 1) /\
     (Zpos p mod 2 ^ (E - e) = 0 -> m_r = Zpos p / 2 ^ (E - e))).
Proof.
  intros E. unfold binary_round. cbn [Zdigits2] in E. fold E.
  destruct (shl_align p e E) as [mz ez] eqn:Hal.
  pose proof (shl_align_spec p e E) as Hsp. rewrite Hal in Hsp.
  cbn [fst snd] in Hsp. destruct Hsp as [Hez Hmz].
  assert (Hdig : Zdigits2 (Zpos mz) + ez = Zpos (digits2_pos p) + e).
  { rewrite Hmz. rewrite Zdigits2_mul_pow2 by lia. cbn [Zdigits2]. lia. }
  destruct (binary_round_aux_spec s (Zpos mz) ez loc_Exact ltac:(lia))
    as (m_r & Hcases & Hexact & Hle & Hres).
  rewrite Hdig in Hres, Hcases, Hexact. fold E in Hres, Hcases, Hexact.
  exists m_r.
  destruct (Z_le_gt_dec E e) as [HEe|HEe].
  - assert (Hez' : ez = E) by lia. clear Hez. subst ez.
    replace (Z.max 0 (E - E)) with 0 in * by lia.
    rewrite Z.add_0_r in Hres. rewrite Z.pow_0_r, Z.div_1_r, Z.mod_1_r in *.
    repeat split; try lia; auto.
    intros _. rewrite <- Hmz. now apply Hexact.
  - assert (Hez' : ez = e) by lia. clear Hez. subst ez.
    replace (e - e) with 0 in Hmz by lia. rewrite Z.pow_0_r, Z.mul_1_r in Hmz.
    injection Hmz as ->.
    replace (Z.max 0 (E - e)) with (E - e) in * by lia.
    replace (e + (E - e)) with E in Hres by lia.
    repeat split; try lia; auto.
Qed.


Lemma pack_sign_class (s : bool) (m e : Z) : 0 <= m -> sign_class s (pack prec emax s m e) = true.
Proof.
  intros Hm. unfold pack. destruct m as [|q|q]; try lia.
  - apply eqb_reflx.
  - destruct (_ =? _); destruct (_ <=? _); apply eqb_reflx.
Qed.

Lemma binary_round_aux_sign (s : bool) (m e : Z) (l : location) :
  0 <= m -> sign_class s (binary_round_aux prec emax s m e l) = true.
Proof.
  intros Hm. destruct (binary_round_aux_spec s m e l Hm) as (m_r & _ & _ & Hr & ->).
  apply pack_sign_class. lia.
Qed.

Lemma binary_round_sign (s : bool) (p : positive) (e : Z) :
  sign_class s (binary_round prec emax s p e) = true.
Proof.
  destruct (binary_round_spec s p e) as (m_r & -> & Hr & _).
  apply pack_sign_class. lia.
Qed.

End Round.

Lemma ge_int_offset (B m e N : Z) :
  0 <= N -> 0 <= N + e -> (ge_int B m e <-> B * 2 ^ N <= m * 2 ^ (N + e)).
Proof.
  intros HN HNe. unfold ge_int, scale.
  destruct (Z_le_gt_dec 0 e) as [He|He].
  - rewrite (Z.max_l 0 (- e)), (Z.max_r 0 e) by lia.
    rewrite Z.pow_0_r, Z.mul_1_r, Z.pow_add_r by lia.
    assert (0 < 2 ^ N) by (apply Z.pow_pos_nonneg; lia).
    assert (0 < 2 ^ e) by (apply Z.pow_pos_nonneg; lia).
    split; intro; nia.
  - rewrite (Z.max_r 0 (- e)), (Z.max_l 0 e) by lia.
    rewrite Z.pow_0_r, Z.mul_1_r.
    replace N with ((N + e) + - e) at 1 by lia.
    rewrite Z.pow_add_r by lia.
    assert (0 < 2 ^ (N + e)) by (apply Z.pow_pos_nonneg; lia).
    assert (0 < 2 ^ (- e)) by (apply Z.pow_pos_nonneg; lia).
    split; intro; nia.
Qed.

Section RoundGe.

Variables prec emax : Z.
Hypothesis Hprec : 0 < prec.
Hypothesis Hemin : emin prec emax <= 0.

Lemma pack_at_least (B m_r E : Z) :
  0 < B -> 0 <= m_r <= 2 ^ prec -> ge_int B m_r E ->
  at_least prec B (pack prec emax false m_r E).
Proof.
  intros HB Hr Hge.
  assert (H2p : 0 < 2 ^ prec) by (apply Z.pow_pos_nonneg; lia).
  assert (Hpos : 0 < m_r).
  { unfold ge_int, scale in Hge.
    assert (0 < 2 ^ Z.max 0 (- E)) by (apply Z.pow_pos_nonneg; lia).
    assert (0 < 2 ^ Z.max 0 E) by (apply Z.pow_pos_nonneg; lia). nia. }
  unfold pack. destruct m_r as [|q|q]; try lia.
  destruct (Z.pos q =? 2 ^ prec) eqn:Hc.
  - apply Z.eqb_eq in Hc. destruct (_ <=? _); cbn [at_least]; [|exact I].
    assert (Hpp : 0 < 2 ^ (prec - 1)) by (apply Z.pow_pos_nonneg; lia).
    rewrite Z2Pos.id by lia. split.
    + apply Z.pow_lt_mono_r; lia.
    + set (N := Z.abs E + 1).
      apply (ge_int_offset B _ _ N); [lia|lia|].
      apply (ge_int_offset B _ _ N) in Hge; [|lia|lia].
      rewrite Hc in Hge.
      replace (N + (E + 1)) with (N + E + 1) by lia.
      rewrite (Z.pow_add_r 2 (N + E) 1) by lia.
      replace prec with (prec - 1 + 1) in Hge at 1 by lia.
      rewrite (Z.pow_add_r 2 (prec - 1) 1) in Hge by lia. lia.
  - apply Z.eqb_neq in Hc. destruct (_ <=? _); cbn [at_least]; [|exact I].
    split; [lia|assumption].
Qed.

Lemma binary_round_at_least (B : Z) (p : positive) (e : Z) :
  0 < B < 2 ^ prec -> ge_int B (Zpos p) e ->
  at_least prec B (binary_round prec emax false p e).
Proof.
  intros HB Hge.
  destruct (binary_round_spec prec emax Hprec false p e) as (m_r & -> & Hr & Hshl & Hshr).
  pose proof (Zdigits2_bounds (Z.pos p) ltac:(lia)) as [Hl _].
  assert (HEd : 0 < fexp prec emax (Zdigits2 (Z.pos p) + e) ->
                fexp prec emax (Zdigits2 (Z.pos p) + e) = Zdigits2 (Z.pos p) + e - prec)
    by (unfold fexp; lia).
  set (d := Zdigits2 (Z.pos p)) in *. clearbody d.
  set (E := fexp prec emax (d + e)) in *. clearbody E.
  apply pack_at_least; [lia|assumption|].
  set (N := Z.abs E + Z.abs e + 1).
  assert (HN0 : 0 <= N) by lia.
  assert (HNe : 0 <= N + e) by lia.
  assert (HNE : 0 <= N + E) by lia.
  clearbody N.
  apply (ge_int_offset B _ _ N); [assumption|assumption|].
  apply (ge_int_offset B _ _ N) in Hge; [|assumption|assumption].
  assert (H2N : 0 < 2 ^ N) by (apply Z.pow_pos_nonneg; lia).
  assert (H2Ne : 0 < 2 ^ (N + e)) by (apply Z.pow_pos_nonneg; lia).
  assert (H2NE : 0 < 2 ^ (N + E)) by (apply Z.pow_pos_nonneg; lia).
  destruct (Z_le_gt_dec E e) as [HEe|HEe].
  - rewrite (Hshl HEe).
    replace (N + e) with (e - E + (N + E)) in Hge by lia.
    rewrite Z.pow_add_r in Hge by lia.
    rewrite <- Z.mul_assoc. exact Hge.
  - destruct (Hshr ltac:(lia)) as [Hcases _].
    set (k := E - e) in *.
    assert (Hk : 0 < k) by (unfold k; lia).
    assert (HkE : E = e + k) by (unfold k; lia).
    clearbody k.
    assert (H2k : 0 < 2 ^ k) by (apply Z.pow_pos_nonneg; lia).
    assert (Hfloor : Z.pos p / 2 ^ k <= m_r) by lia.
    clear Hcases Hshl Hshr.
    destruct (Z_le_gt_dec E 0) as [HE0|HE0].
    + (* the bound lies on the grid of the result *)
      assert (H2mE : 0 < 2 ^ (- E)) by (apply Z.pow_pos_nonneg; lia).
      assert (Hp : B * 2 ^ (- E) * 2 ^ k <= Z.pos p).
      { rewrite <- Z.mul_assoc, <- Z.pow_add_r by lia.
        replace (- E + k) with (- e) by lia.
        replace N with (- e + (N + e)) in Hge at 1 by lia.
        rewrite Z.pow_add_r in Hge by lia.
        rewrite Z.mul_assoc in Hge.
        apply Z.mul_le_mono_pos_r in Hge; assumption. }
      assert (Hq : B * 2 ^ (- E) <= Z.pos p / 2 ^ k).
      { apply Z.div_le_lower_bound; [assumption|].
        rewrite Z.mul_comm. exact Hp. }
      replace N with (- E + (N + E)) at 1 by lia.
      rewrite Z.pow_add_r by lia. rewrite Z.mul_assoc.
      apply Z.mul_le_mono_nonneg_r; lia.
    + (* the result is at least 2^prec *)
      specialize (HEd ltac:(lia)).
      assert (Hq : 2 ^ (prec - 1) <= Z.pos p / 2 ^ k).
      { apply Z.div_le_lower_bound; [assumption|].
        rewrite <- Z.pow_add_r by lia.
        replace (k + (prec - 1)) with (d - 1) by lia. exact Hl. }
      assert (H2p1 : 0 < 2 ^ (prec - 1)) by (apply Z.pow_pos_nonneg; lia).
      assert (Hpp : 2 ^ prec = 2 * 2 ^ (prec - 1)).
      { replace prec with (1 + (prec - 1)) at 1 by lia. now rewrite Z.pow_add_r by lia. }
      assert (HNE1 : 2 ^ (N + E) = 2 ^ (E - 1) * (2 * 2 ^ N)).
      { replace (N + E) with ((E - 1) + (1 + N)) by lia.
        rewrite (Z.pow_add_r 2 (E - 1)), (Z.pow_add_r 2 1 N) by lia. reflexivity. }
      assert (H2E1 : 1 <= 2 ^ (E - 1)).
      { assert (0 < 2 ^ (E - 1)) by (apply Z.pow_pos_nonneg; lia). lia. }
      (* B 2^N < 2^prec 2^N = 2 2^(prec-1) 2^N <= 2 m_r 2^N <= m_r 2^(E-1) 2 2^N *)
      assert (K1 : B * 2 ^ N <= 2 ^ prec * 2 ^ N)
        by (apply Z.mul_le_mono_nonneg_r; lia).
      assert (K2 : 2 ^ (prec - 1) * (2 * 2 ^ N) <= m_r * (2 * 2 ^ N))
        by (apply Z.mul_le_mono_nonneg_r; lia).
      assert (K3 : m_r * (2 * 2 ^ N) * 1 <= m_r * (2 * 2 ^ N) * 2 ^ (E - 1)).
      { apply Z.mul_le_mono_nonneg_l; [|assumption].
        apply Z.mul_nonneg_nonneg; lia. }
      rewrite HNE1.
      replace (m_r * (2 ^ (E - 1) * (2 * 2 ^ N)))
        with (m_r * (2 * 2 ^ N) * 2 ^ (E - 1)) by ring.
      rewrite Hpp in K1.
      replace (2 * 2 ^ (prec - 1) * 2 ^ N) with (2 ^ (prec - 1) * (2 * 2 ^ N)) in K1 by ring.
      lia.
Qed.

End RoundGe.

(** ** The program, function by function *)

Section ProgramFacts.

Variable env : Env.

Lemma read_sensors_sense (t : Z) (w : World) :
  read_sensors env t w =
  (sense env t (rand_calls w),
   mkWorld (log_file w) (console w) (S (S (rand_calls w))) (fopen_calls w) (slept w)).
Proof. reflexivity. Qed.

Lemma add_console_printf (f : string) (a : list Arg) (out : list Output) (w : World) :
  printf f a (add_console out w) = add_console (out ++ [Printf f a]) w.
Proof. unfold printf, add_console; simpl. now rewrite <- app_assoc. Qed.

Lemma add_console_nil (w : World) : add_console [] w = w.
Proof. destruct w; unfold add_console; simpl. now rewrite app_nil_r. Qed.

Lemma printf_add_console (f : string) (a : list Arg) (w : World) :
  printf f a w = add_console [Printf f a] w.
Proof. reflexivity. Qed.

Lemma system_add_console (c : string) (w : World) :
  system c w = add_console [System c] w.
Proof. reflexivity. Qed.

Lemma add_console_twice (o1 o2 : list Output) (w : World) :
  add_console o2 (add_console o1 w) = add_console (o1 ++ o2) w.
Proof. unfold add_console; simpl. now rewrite <- app_assoc. Qed.

Ltac console_norm :=
  rewrite ?printf_add_console, ?system_add_console;
  rewrite ?add_console_twice;
  unfold add_console, sleep;
  cbn [log_file console rand_calls fopen_calls slept app].

Lemma add_console_if (b : bool) (o1 o2 : list Output) (w : World) :
  (if b then add_console o1 w else add_console o2 w)
  = add_console (if b then o1 else o2) w.
Proof. now destruct b. Qed.

Lemma add_console_if_skip (b : bool) (o : list Output) (w : World) :
  (if b then add_console o w else w) = add_console (if b then o else []) w.
Proof. destruct b; [reflexivity|]. now rewrite add_console_nil. Qed.

Lemma console_add_console (o : list Output) (l : list Line) (r f : nat) (z : Z) :
  console (add_console o (mkWorld l [] r f z)) = o.
Proof. reflexivity. Qed.

Lemma print_dashboard_shape (data : SensorData) :
  exists out, forall w, print_dashboard data w = add_console out w.
Proof.
  eexists. intro w. unfold print_dashboard. cbv zeta.
  rewrite ?printf_add_console, ?system_add_console.
  rewrite ?add_console_twice, ?add_console_if, ?add_console_if_skip.
  rewrite ?add_console_twice, ?add_console_if_skip.
  rewrite ?add_console_twice, ?add_console_if_skip.
  rewrite ?add_console_twice.
  reflexivity.
Qed.

Lemma print_dashboard_console (data : SensorData) (w : World) :
  print_dashboard data w = add_console (dashboard_output data) w.
Proof.
  destruct (print_dashboard_shape data) as [out Hout].
  unfold dashboard_output. rewrite (Hout w), Hout. reflexivity.
Qed.

Lemma predict_failure_console (current previous : SensorData) (w : World) :
  predict_failure current previous w = add_console (predict_output current previous) w.
Proof.
  unfold predict_output, predict_failure.
  destruct (le _ _); [console_norm; reflexivity|].
  destruct (lt _ (float_of_int 10)); console_norm; reflexivity.
Qed.

Lemma log_to_database_spec (data : SensorData) (w : World) :
  log_to_database env data w =
  if fopen_ok env (fopen_calls w) then
    mkWorld (log_file w ++ [row data]) (console w)
            (rand_calls w) (S (fopen_calls w)) (slept w)
  else
    mkWorld (log_file w) (console w ++ error_output)
            (rand_calls w) (S (fopen_calls w)) (slept w).
Proof.
  unfold log_to_database, fopen.
  destruct (fopen_ok env (fopen_calls w)); reflexivity.
Qed.

Lemma loop_body_spec (st : LoopState) (w : World) :
  let t := time_step st + 1 in
  let cur := sense env t (rand_calls w) in
  let opened := fopen_ok env (fopen_calls w) in
  loop_body env st w =
  (if status cur =? 2 then Break else Continue,
   mkLoopState t (if status cur =? 2 then prev_data st else cur),
   mkWorld (log_file w ++ (if opened then [row cur] else []))
           (console w ++ tick_console t opened cur (prev_data st))
           (S (S (rand_calls w))) (S (fopen_calls w))
           (slept w + (if status cur =? 2 then 0 else 1))).
Proof.
  intros t cur opened.
  unfold loop_body. rewrite read_sensors_sense. fold t. fold cur.
  rewrite log_to_database_spec. cbn [fopen_calls]. fold opened.
  rewrite print_dashboard_console.
  unfold tick_console.
  destruct opened; destruct (1 <? t); rewrite ?predict_failure_console;
    destruct (status cur =? 2); console_norm;
    rewrite ?app_nil_r, ?Z.add_0_r, <- ?app_assoc; reflexivity.
Qed.

Lemma main_loop_inv (fuel : nat) :
  forall (st st' : LoopState) (w w' : World),
    main_loop env fuel st w = Some (st', w') ->
    exists n : nat,
      (1 <= n <= fuel)%nat /\
      time_step st' = time_step st + Z.of_nat n /\
      (forall j, (1 <= j < n)%nat ->
                 status (reading_at env (time_step st) (rand_calls w) j) <> 2) /\
      status (reading_at env (time_step st) (rand_calls w) n) = 2 /\
      log_file w' =
        (log_file w ++ run_rows env n (time_step st) (rand_calls w) (fopen_calls w))%list /\
      console w' =
        (console w
         ++ run_console env n (time_step st) (rand_calls w) (fopen_calls w) (prev_data st))%list /\
      rand_calls w' = (rand_calls w + 2 * n)%nat /\
      fopen_calls w' = (fopen_calls w + n)%nat /\
      slept w' = slept w + Z.of_nat n - 1.
Proof.
  induction fuel as [|fuel IH]; intros st st' w w' H; [discriminate|].
  cbn [main_loop] in H. rewrite loop_body_spec in H.
  destruct (status (sense env (time_step st + 1) (rand_calls w)) =? 2) eqn:Hs.
  - inversion H; subst; clear H. exists 1%nat. cbn [time_step log_file console rand_calls fopen_calls slept run_rows run_console].
    unfold reading_at. cbn [Nat.sub Nat.mul Z.of_nat Pos.of_succ_nat].
    rewrite Nat.add_0_r, !app_nil_r.
    repeat split; try lia.
  - apply IH in H. destruct H as (n & Hn & Ht & Hbefore & Hat & Hf & Hc & Hr & Ho & Hsl).
    cbn [time_step log_file console rand_calls fopen_calls slept prev_data] in *.
    exists (S n). cbn [run_rows run_console].
    rewrite Hf, Hc, <- !app_assoc.
    assert (Hshift : forall j, (1 <= j)%nat ->
              reading_at env (time_step st) (rand_calls w) (S j)
              = reading_at env (time_step st + 1) (S (S (rand_calls w))) j).
    { intros j Hj. unfold reading_at. f_equal; lia. }
    repeat split; try lia.
    + intros j Hj. destruct j as [|[|j]]; [lia| |].
      * unfold reading_at. cbn [Nat.sub Nat.mul Z.of_nat Pos.of_succ_nat].
        rewrite Nat.add_0_r. now apply Z.eqb_neq.
      * rewrite Hshift by lia. apply Hbefore. lia.
    + rewrite Hshift by lia. exact Hat.
Qed.

End ProgramFacts.

(** ** The two formats of the program *)

Lemma prec32_pos : 0 < prec32. Proof. reflexivity. Qed.
Lemma prec64_pos : 0 < prec64. Proof. reflexivity. Qed.
Lemma emin32_nonpos : emin prec32 emax32 <= 0. Proof. discriminate. Qed.
Lemma emin64_nonpos : emin prec64 emax64 <= 0. Proof. discriminate. Qed.

Lemma sign_class_eq (s : bool) (x : spec_float) :
  sign_class s x = true ->
  x = S754_zero s \/ x = S754_infinity s \/ exists m e, x = S754_finite s m e.
Proof.
  destruct x as [s'|s'| |s' m e]; cbn [sign_class]; intros H;
    try discriminate; apply eqb_prop in H; subst; eauto.
Qed.

Lemma round_to_sign (prec emax : Z) (s : bool) (x : spec_float) :
  0 < prec -> sign_class s x = true -> sign_class s (round_to prec emax x) = true.
Proof.
  intros Hp H. destruct x as [s'|s'| |s' m e]; cbn [round_to sign_class] in *; auto.
  apply eqb_prop in H. subst s'. now apply binary_round_sign.
Qed.

Lemma round_to_at_least (prec emax p1 B : Z) (x : spec_float) :
  0 < prec -> emin prec emax <= 0 -> 0 < B < 2 ^ prec ->
  at_least p1 B x -> at_least prec B (round_to prec emax x).
Proof.
  intros Hp He HB H.
  destruct x as [s|s| |s m e]; try destruct s; cbn [round_to at_least] in *;
    try contradiction; auto.
  destruct H as [_ H]. now apply binary_round_at_least.
Qed.

Lemma ge_int_shl (B m e j : Z) :
  0 <= j -> ge_int B m e -> ge_int B (m * 2 ^ j) (e - j).
Proof.
  intros Hj H. set (N := Z.abs e + j + 1).
  apply (ge_int_offset B _ _ N); [lia|lia|].
  apply (ge_int_offset B _ _ N) in H; [|lia|lia].
  replace (N + e) with (j + (N + (e - j))) in H by lia.
  rewrite Z.pow_add_r in H by lia. lia.
Qed.

Lemma ge_int_add (B m m' e : Z) : 0 <= m' -> ge_int B m e -> ge_int B (m + m') e.
Proof.
  unfold ge_int, scale. intros Hm H.
  assert (0 < 2 ^ Z.max 0 e) by (apply Z.pow_pos_nonneg; lia). nia.
Qed.

(** Adding a non-negative number to a positive one keeps every integer
    lower bound of the latter. *)
Lemma SFadd_at_least (prec emax B : Z) (mc : positive) (ec : Z) (x : spec_float) :
  0 < prec -> emin prec emax <= 0 -> 0 < B < 2 ^ prec ->
  at_least prec B (S754_finite false mc ec) ->
  sign_class false x = true ->
  at_least prec B (SFadd prec emax (S754_finite false mc ec) x).
Proof.
  intros Hp He HB Hc Hx.
  destruct (sign_class_eq _ _ Hx) as [->|[->|(m & e & ->)]]; cbn [SFadd]; auto.
  - exact I.
  - destruct (shl_align_spec mc ec (Z.min ec e)) as [Hs1 Hm1].
    destruct (shl_align_spec m e (Z.min ec e)) as [Hs2 Hm2].
    cbn [cond_Zopp]. cbn [Z.add binary_normalize].
    apply binary_round_at_least; auto.
    rewrite Pos2Z.inj_add. apply ge_int_add; [lia|].
    rewrite Hm1, Hs1. replace (Z.min ec (Z.min ec e)) with (Z.min ec e) by lia.
    replace (Z.min ec e) with (ec - (ec - Z.min ec e)) at 2 by lia.
    apply ge_int_shl; [lia|]. apply Hc.
Qed.

Lemma binary_normalize_sign (prec emax m e : Z) :
  0 < prec -> 0 <= m -> sign_class false (binary_normalize prec emax m e false) = true.
Proof.
  intros Hp Hm. destruct m as [|p|p]; cbn [binary_normalize]; try lia.
  - reflexivity.
  - now apply binary_round_sign.
Qed.

Lemma SFdiv_core_binary_nonneg (prec emax : Z) (m1 m2 : positive) (e1 e2 : Z) :
  0 <= fst (fst (SFdiv_core_binary prec emax (Zpos m1) e1 (Zpos m2) e2)).
Proof.
  unfold SFdiv_core_binary.
  set (s := _ - _ - _).
  set (m' := match s with Z0 => Zpos m1 | Zpos _ => Z.shiftl (Zpos m1) s | Zneg _ => 0 end).
  assert (Hm' : 0 <= m').
  { unfold m'. destruct s; try lia. apply Z.shiftl_nonneg. lia. }
  pose proof (Z_div_mod m' (Zpos m2) ltac:(lia)) as Hdm.
  destruct (Z.div_eucl m' (Zpos m2)) as [q r]. cbn [fst].
  destruct Hdm as [Heq Hr]. nia.
Qed.

Lemma SFdiv_sign (prec emax : Z) (x : spec_float) (my : positive) (ey : Z) :
  0 < prec -> sign_class false x = true ->
  sign_class false (SFdiv prec emax x (S754_finite false my ey)) = true.
Proof.
  intros Hp Hx.
  destruct (sign_class_eq _ _ Hx) as [->|[->|(m & e & ->)]]; cbn [SFdiv xorb]; auto.
  pose proof (SFdiv_core_binary_nonneg prec emax m my e ey) as Hq.
  destruct (SFdiv_core_binary prec emax (Zpos m) e (Zpos my) ey) as [[mz ez] lz].
  cbn [fst] in Hq. now apply binary_round_aux_sign.
Qed.

Lemma SFmul_sign (prec emax : Z) (x : spec_float) (my : positive) (ey : Z) :
  0 < prec -> sign_class false x = true ->
  sign_class false (SFmul prec emax x (S754_finite false my ey)) = true.
Proof.
  intros Hp Hx.
  destruct (sign_class_eq _ _ Hx) as [->|[->|(m & e & ->)]]; cbn [SFmul xorb]; auto.
  apply binary_round_aux_sign; [assumption|lia].
Qed.

(** The noise terms are never negative and never NaN. *)
Lemma random_noise_sign (r : Z) (ms : positive) (es : Z) :
  0 <= r -> sign_class false (random_noise r (S754_finite false ms es)) = true.
Proof.
  intros Hr. unfold random_noise, float_of_double, double_of_float, dmul, fdiv.
  apply round_to_sign; [reflexivity|].
  apply SFmul_sign; [reflexivity|].
  apply round_to_sign; [reflexivity|].
  change (float_of_int RAND_MAX) with (S754_finite false 8388608 8).
  apply SFdiv_sign; [reflexivity|].
  apply binary_normalize_sign; [reflexivity|assumption].
Qed.

Lemma gt_critical_temp (x : spec_float) :
  at_least prec64 103 x -> gt x CRITICAL_TEMP = true.
Proof.
  change CRITICAL_TEMP with (S754_finite false 7036874417766400 (-46)).
  destruct x as [s|s| |s m e]; try destruct s; cbn [at_least]; try contradiction.
  - reflexivity.
  - intros [Hm Hge]. unfold gt, SFltb, SFcompare.
    unfold ge_int, scale in Hge. unfold prec64 in Hm.
    destruct (Z.compare_spec (-46) e) as [He|He|He]; try reflexivity.
    + subst e. change (Z.max 0 (- -46)) with 46 in Hge.
      change (Z.max 0 (-46)) with 0 in Hge.
      rewrite Pos.compare_cont_spec.
      replace (7036874417766400 ?= m)%positive with Lt; [reflexivity|].
      symmetry. apply Pos.compare_lt_iff. lia.
    + exfalso. rewrite (Z.max_r 0 (- e)), (Z.max_l 0 e) in Hge by lia.
      assert (2 ^ 47 <= 2 ^ (- e)) by (apply Z.pow_le_mono_r; lia). lia.
Qed.

Lemma temperature_critical_at_21 (env : Env) (r : nat) :
  0 <= rand_value env r ->
  gt (double_of_float (temperature (sense env 21 r))) CRITICAL_TEMP = true.
Proof.
  intros Hr. unfold sense. cbn [temperature].
  apply gt_critical_temp.
  unfold double_of_float at 1. unfold float_of_double.
  apply (round_to_at_least _ _ prec32); [reflexivity|discriminate|split; reflexivity|].
  apply (round_to_at_least _ _ prec64); [reflexivity|discriminate|split; reflexivity|].
  change (trend (double_of_int 40) (double_of_int 3) 21)
    with (S754_finite false 7247980650299392 (-46)).
  apply SFadd_at_least; [reflexivity|discriminate|split; reflexivity| |].
  - split; [reflexivity|]. unfold ge_int, scale. simpl. lia.
  - apply round_to_sign; [reflexivity|].
    change (double_of_int 2) with (S754_finite false 4503599627370496 (-51)).
    now apply random_noise_sign.
Qed.

Lemma sense_critical_at_21 (env : Env) (r : nat) :
  0 <= rand_value env r ->
  status (sense env 21 r) = 2.
Proof.
  intros Hr. pose proof (temperature_critical_at_21 env r Hr) as Ht.
  unfold sense in *. cbn [status temperature] in *. unfold classify.
  now rewrite Ht.
Qed.

(** ** Roundings that are exact *)

Lemma pack_finite (prec emax : Z) (s : bool) (q : positive) (e : Z) :
  Zpos q < 2 ^ prec -> e <= emax - prec ->
  pack prec emax s (Zpos q) e = S754_finite s q e.
Proof.
  intros Hq He. unfold pack.
  rewrite (proj2 (Z.eqb_neq _ _)) by lia.
  now rewrite (proj2 (Z.leb_le _ _)) by lia.
Qed.

Lemma binary_round_aux_exact (prec emax : Z) (s : bool) (M q : positive) (e k : Z) :
  0 < prec ->
  k = fexp prec emax (Zdigits2 (Zpos M) + e) - e -> 0 <= k ->
  Zpos M = Zpos q * 2 ^ k -> e + k <= emax - prec ->
  binary_round_aux prec emax s (Zpos M) e loc_Exact = S754_finite s q (e + k).
Proof.
  intros Hp Hk Hk0 HM He.
  destruct (binary_round_aux_spec prec emax Hp s (Zpos M) e loc_Exact ltac:(lia))
    as (m_r & _ & Hexact & _ & ->).
  pose proof (shifted_lt_prec prec emax Hp (Zpos M) e ltac:(lia)) as Hlt.
  rewrite <- Hk in *. rewrite Z.max_r in * by lia.
  assert (H2k : 0 < 2 ^ k) by (apply Z.pow_pos_nonneg; lia).
  assert (Hdiv : Zpos M / 2 ^ k = Zpos q) by (rewrite HM; apply Z.div_mul; lia).
  rewrite Hexact; [|reflexivity|rewrite HM; apply Z.mod_mul; lia].
  rewrite Hdiv in *. now apply pack_finite.
Qed.

Lemma binary_round_exact (prec emax : Z) (s : bool) (p q : positive) (e E : Z) :
  0 < prec ->
  E = fexp prec emax (Zdigits2 (Zpos p) + e) ->
  (E <= e /\ Zpos q = Zpos p * 2 ^ (e - E)) \/ (e <= E /\ Zpos p = Zpos q * 2 ^ (E - e)) ->
  E <= emax - prec ->
  binary_round prec emax s p e = S754_finite s q E.
Proof.
  intros Hp HE Hq Hmax.
  destruct (binary_round_spec prec emax Hp s p e) as (m_r & -> & _ & Hshl & Hshr).
  rewrite <- HE in *.
  pose proof (Zdigits2_bounds (Zpos p) ltac:(lia)) as [_ Hu].
  assert (Hmr : m_r = Zpos q /\ Zpos q < 2 ^ prec).
  { destruct Hq as [[Hle Hq]|[Hle Hq]].
    - split; [rewrite Hq; now apply Hshl|].
      rewrite Hq.
      apply Z.lt_le_trans with (2 ^ Zdigits2 (Zpos p) * 2 ^ (e - E)).
      + apply Z.mul_lt_mono_pos_r; [apply Z.pow_pos_nonneg; lia|exact Hu].
      + rewrite <- Z.pow_add_r by (cbn; lia).
        apply Z.pow_le_mono_r; [lia|]. subst E. unfold fexp. lia.
    - assert (H2k : 0 < 2 ^ (E - e)) by (apply Z.pow_pos_nonneg; lia).
      assert (Hdiv : Zpos p / 2 ^ (E - e) = Zpos q) by (rewrite Hq; apply Z.div_mul; lia).
      pose proof (shifted_lt_prec prec emax Hp (Zpos p) e ltac:(lia)) as Hlt.
      rewrite <- HE, Z.max_r, Hdiv in Hlt by lia.
      split; [|exact Hlt].
      destruct (Z.eq_dec e E) as [Heq|Hne].
      + rewrite Hshl by lia. rewrite Hq. subst e.
        replace (E - E) with 0 by lia. rewrite !Z.pow_0_r. lia.
      + destruct (Hshr ltac:(lia)) as [_ Hex]. rewrite Hex, Hdiv; [reflexivity|].
        rewrite Hq. apply Z.mod_mul. lia. }
  destruct Hmr as [-> Hlt]. now apply pack_finite.
Qed.

(** ** The noise terms in closed form *)

(** [(float)r] for a positive result of [rand]: a normal number that is at
    most [2^31]. *)
Lemma float_of_int_rand (r : Z) :
  0 < r <= RAND_MAX ->
  exists (m : positive) (e : Z),
    float_of_int r = S754_finite false m e /\
    2 ^ 23 <= Zpos m < 2 ^ 24 /\ -23 <= e <= 8 /\ (e = 8 -> Zpos m = 2 ^ 23).
Proof.
  intros [Hr0 Hr]. unfold RAND_MAX in Hr.
  destruct r as [|p|p]; try lia.
  unfold float_of_int. cbn [binary_normalize].
  destruct (binary_round_spec prec32 emax32 prec32_pos false p 0)
    as (m_r & -> & Hrange & Hshl & Hshr).
  pose proof (Zdigits2_bounds (Zpos p) ltac:(lia)) as [Hl Hu].
  pose proof (Zdigits2_pos (Zpos p) ltac:(lia)) as Hd0.
  assert (Hd31 : Zdigits2 (Zpos p) <= 31).
  { apply Zdigits2_le_prec; lia. }
  set (d := Zdigits2 (Zpos p)) in *. clearbody d.
  assert (HE : fexp prec32 emax32 (d + 0) = d - 24).
  { unfold fexp, emin, prec32, emax32. lia. }
  rewrite HE in *.
  destruct (Z_le_gt_dec d 24) as [Hd|Hd].
  - rewrite Hshl in * by lia. clear Hshl Hshr.
    replace (0 - (d - 24)) with (24 - d) in * by lia.
    assert (Hlo : 2 ^ 23 <= Zpos p * 2 ^ (24 - d)).
    { replace 23 with (d - 1 + (24 - d)) by lia. rewrite Z.pow_add_r by lia.
      apply Z.mul_le_mono_nonneg_r; [apply Z.pow_nonneg; lia|exact Hl]. }
    assert (Hhi : Zpos p * 2 ^ (24 - d) < 2 ^ 24).
    { replace 24 with (d + (24 - d)) at 2 by lia. rewrite Z.pow_add_r by lia.
      apply Z.mul_lt_mono_pos_r; [apply Z.pow_pos_nonneg; lia|exact Hu]. }
    destruct (Zpos p * 2 ^ (24 - d)) as [|q|q] eqn:Hq; try lia.
    exists q, (d - 24). rewrite pack_finite by (unfold prec32, emax32; lia).
    repeat split; lia.
  - destruct (Hshr ltac:(lia)) as [Hcases _]. clear Hshl Hshr.
    replace (d - 24 - 0) with (d - 24) in * by lia.
    assert (H2k : 0 < 2 ^ (d - 24)) by (apply Z.pow_pos_nonneg; lia).
    assert (Hlo : 2 ^ 23 <= Zpos p / 2 ^ (d - 24)).
    { apply Z.div_le_lower_bound; [lia|]. rewrite Z.mul_comm, <- Z.pow_add_r by lia.
      replace (23 + (d - 24)) with (d - 1) by lia. exact Hl. }
    assert (Hhi : Zpos p / 2 ^ (d - 24) < 2 ^ 24).
    { apply Z.div_lt_upper_bound; [lia|]. rewrite <- Z.pow_add_r by lia.
      replace (d - 24 + 24) with d by lia. exact Hu. }
    destruct (Z.eq_dec m_r (2 ^ 24)) as [Hc|Hnc].
    + exists (Z.to_pos (2 ^ 23)), (d - 24 + 1). split.
      * rewrite Hc. unfold pack, prec32, emax32.
        change (2 ^ 24) with 16777216. cbn [Z.eqb Pos.eqb].
        rewrite (proj2 (Z.leb_le _ _)) by lia. reflexivity.
      * repeat split; try lia; reflexivity.
    + destruct m_r as [|q|q] eqn:Hq; try lia.
      exists q, (d - 24). rewrite pack_finite by (unfold prec32, emax32; lia).
      repeat split; lia.
Qed.

Lemma Zdigits2_normal32 (m : positive) : 2 ^ 23 <= Zpos m < 2 ^ 24 -> Zdigits2 (Zpos m) = 24.
Proof. intros H. apply Zdigits2_unique; [exact H|lia]. Qed.

Lemma SFdiv_core_by_rand_max (m : positive) (e : Z) :
  2 ^ 23 <= Zpos m < 2 ^ 24 -> -23 <= e <= 8 ->
  SFdiv_core_binary prec32 emax32 (Zpos m) e 8388608 8 = (Zpos m~0, e - 32, loc_Exact).
Proof.
  intros Hm He. unfold SFdiv_core_binary.
  rewrite (Zdigits2_normal32 m Hm).
  change (Zdigits2 8388608) with 24.
  replace (Z.min (fexp prec32 emax32 (24 + e - (24 + 8))) (e - 8)) with (e - 32)
    by (unfold fexp, emin, prec32, emax32; lia).
  replace (e - 8 - (e - 32)) with 24 by lia.
  rewrite Z.shiftl_mul_pow2 by lia.
  pose proof (Z_div_mod (Zpos m * 2 ^ 24) 8388608 ltac:(lia)) as Hdm.
  destruct (Z.div_eucl (Zpos m * 2 ^ 24) 8388608) as [q r].
  destruct Hdm as [Heq Hr].
  assert (Hq : q = Zpos m~0 /\ r = 0).
  { rewrite Pos2Z.inj_xO. change (2 ^ 24) with (2 * 8388608) in Heq. lia. }
  destruct Hq as [-> ->]. reflexivity.
Qed.

Lemma fdiv_by_rand_max (m : positive) (e : Z) :
  2 ^ 23 <= Zpos m < 2 ^ 24 -> -23 <= e <= 8 ->
  fdiv (S754_finite false m e) (S754_finite false 8388608 8)
  = S754_finite false m (e - 31).
Proof.
  intros Hm He. unfold fdiv. cbn [SFdiv xorb].
  rewrite SFdiv_core_by_rand_max by assumption.
  replace (e - 31) with (e - 32 + 1) by lia.
  apply binary_round_aux_exact; try (unfold prec32, emax32; lia).
  rewrite Pos2Z.inj_xO, Z.mul_comm, (Zdigits2_mul_pow2 _ 1), (Zdigits2_normal32 m Hm) by lia.
  unfold fexp, emin, prec32, emax32. lia.
Qed.

Lemma random_noise_exact (r : Z) (es : Z) :
  0 < r <= RAND_MAX -> -52 <= es <= -51 ->
  exists (m : positive) (e : Z),
    float_of_int r = S754_finite false m e /\
    2 ^ 23 <= Zpos m < 2 ^ 24 /\ -23 <= e <= 8 /\ (e = 8 -> Zpos m = 2 ^ 23) /\
    random_noise r (S754_finite false 4503599627370496 es)
    = S754_finite false m (e + es + 21).
Proof.
  intros Hr Hes.
  destruct (float_of_int_rand r Hr) as (m & e & Hf & Hm & He & Hmax).
  exists m, e. repeat (split; [assumption|]).
  unfold random_noise. rewrite Hf.
  change (float_of_int RAND_MAX) with (S754_finite false 8388608 8).
  rewrite fdiv_by_rand_max by assumption.
  pose proof (Zdigits2_normal32 m Hm) as Hd.
  (* promotion to double *)
  assert (Hprom : double_of_float (S754_finite false m (e - 31))
                  = S754_finite false (m * 536870912) (e - 60)).
  { unfold double_of_float. cbn [round_to].
    apply binary_round_exact; try reflexivity.
    - rewrite Hd. unfold fexp, emin, prec64, emax64. lia.
    - left. split; [lia|]. rewrite Pos2Z.inj_mul. f_equal.
      replace (e - 31 - (e - 60)) with 29 by lia. reflexivity.
    - unfold prec64, emax64. lia. }
  rewrite Hprom.
  assert (Hd2 : Zdigits2 (Zpos (m * 536870912)) = 53).
  { rewrite Pos2Z.inj_mul. change (Zpos 536870912) with (2 ^ 29).
    rewrite Zdigits2_mul_pow2, Hd by lia. reflexivity. }
  (* multiplication by the scale *)
  assert (Hmul : dmul (S754_finite false (m * 536870912) (e - 60))
                      (S754_finite false 4503599627370496 es)
                 = S754_finite false (m * 536870912) (e + es - 8)).
  { unfold dmul. cbn [SFmul xorb].
    replace (e + es - 8) with (e - 60 + es + 52) by lia.
    apply binary_round_aux_exact; try (unfold prec64, emax64; lia).
    rewrite Pos2Z.inj_mul. change (Zpos 4503599627370496) with (2 ^ 52).
    rewrite Zdigits2_mul_pow2, Hd2 by lia.
    unfold fexp, emin, prec64, emax64. lia. }
  rewrite Hmul.
  (* conversion to float *)
  unfold float_of_double. cbn [round_to].
  apply binary_round_exact; try reflexivity.
  - rewrite Hd2. unfold fexp, emin, prec32, emax32. lia.
  - right. split; [lia|]. rewrite Pos2Z.inj_mul. f_equal.
    replace (e + es + 21 - (e + es - 8)) with 29 by lia. reflexivity.
  - unfold prec32, emax32. lia.
Qed.

(** The noise terms stay within their bounds. *)
Lemma random_noise_bounds (r : Z) :
  0 <= r <= RAND_MAX ->
  le (float_of_int 0) (random_noise r (double_of_int 2)) = true /\
  le (random_noise r (double_of_int 2)) (float_of_int 2) = true /\
  le (float_of_int 0) (random_noise r (double_of_int 1)) = true /\
  le (random_noise r (double_of_int 1)) (float_of_int 1) = true.
Proof.
  intros Hr. destruct (Z.eq_dec r 0) as [->|Hne].
  { vm_compute. auto. }
  change (double_of_int 2) with (S754_finite false 4503599627370496 (-51)).
  change (double_of_int 1) with (S754_finite false 4503599627370496 (-52)).
  destruct (random_noise_exact r (-51) ltac:(lia) ltac:(lia))
    as (m & e & Hf & Hm & He & Hmax & ->).
  destruct (random_noise_exact r (-52) ltac:(lia) ltac:(lia))
    as (m' & e' & Hf' & _ & _ & _ & ->).
  rewrite Hf in Hf'. injection Hf' as <- <-.
  change (float_of_int 0) with (S754_zero false).
  change (float_of_int 2) with (S754_finite false 8388608 (-22)).
  change (float_of_int 1) with (S754_finite false 8388608 (-23)).
  assert (Hcmp : forall en ec, en - ec = e - 8 ->
            le (S754_finite false m en) (S754_finite false 8388608 ec) = true).
  { intros en ec Hd. unfold le, SFleb, SFcompare.
    destruct (Z.compare_spec en ec) as [Heq|Hlt|Hgt]; try reflexivity; try lia.
    assert (He8 : e = 8) by lia. specialize (Hmax He8).
    assert (m = 8388608%positive) by (change (2 ^ 23) with (Zpos 8388608) in Hmax; congruence).
    subst m. reflexivity. }
  repeat split; try reflexivity; apply Hcmp; lia.
Qed.

(** ** Exact arithmetic on small dyadic numbers *)

Lemma Zdigits2_mono (a b : Z) : 0 < a <= b -> Zdigits2 a <= Zdigits2 b.
Proof.
  intros [Ha Hab].
  pose proof (Zdigits2_bounds a Ha) as [Hl _].
  pose proof (Zdigits2_bounds b ltac:(lia)) as [_ Hu].
  destruct (Z_le_gt_dec (Zdigits2 a) (Zdigits2 b)) as [|Hgt]; [assumption|].
  assert (2 ^ Zdigits2 b <= 2 ^ (Zdigits2 a - 1)) by (apply Z.pow_le_mono_r; lia). lia.
Qed.

Lemma Zdigits2_le (a n : Z) : 0 < a -> a < 2 ^ n -> Zdigits2 a <= n.
Proof.
  intros Ha Hn. pose proof (Zdigits2_bounds a Ha) as [Hl _].
  destruct (Z_le_gt_dec (Zdigits2 a) n) as [|Hgt]; [assumption|].
  destruct (Z_lt_le_dec n 0) as [Hneg|Hpos].
  - rewrite Z.pow_neg_r in Hn by assumption. lia.
  - assert (2 ^ n <= 2 ^ (Zdigits2 a - 1)) by (apply Z.pow_le_mono_r; lia). lia.
Qed.

(** The normal form of [dyadic k e]. *)
Lemma dyadic_normal_form (k : positive) (e : Z) :
  Zpos k < 2 ^ 53 -> -1000 <= e <= 900 ->
  exists q : positive,
    Zpos q = Zpos k * 2 ^ (53 - Zdigits2 (Zpos k)) /\
    dyadic (Zpos k) e = S754_finite false q (e + Zdigits2 (Zpos k) - 53).
Proof.
  intros Hk He.
  pose proof (Zdigits2_pos (Zpos k) ltac:(lia)) as Hd0.
  pose proof (Zdigits2_le (Zpos k) 53 ltac:(lia) Hk) as Hd.
  set (d := Zdigits2 (Zpos k)) in *.
  assert (Hq : 0 < Zpos k * 2 ^ (53 - d)).
  { apply Z.mul_pos_pos; [lia|apply Z.pow_pos_nonneg; lia]. }
  destruct (Zpos k * 2 ^ (53 - d)) as [|q|q] eqn:Heq; try lia.
  exists q. split; [reflexivity|].
  unfold dyadic. cbn [binary_normalize].
  apply binary_round_exact; try reflexivity.
  - fold d. unfold fexp, emin, prec64, emax64. lia.
  - left. split; [lia|]. rewrite <- Heq. do 2 f_equal. lia.
  - unfold prec64, emax64. lia.
Qed.

Lemma dmul_dyadic (a b : positive) (ea eb : Z) :
  Zpos a * Zpos b < 2 ^ 53 -> -400 <= ea <= 400 -> -400 <= eb <= 400 ->
  dmul (dyadic (Zpos a) ea) (dyadic (Zpos b) eb) = dyadic (Zpos (a * b)) (ea + eb).
Proof.
  intros Hab Hea Heb.
  assert (Ha : Zpos a < 2 ^ 53) by nia.
  assert (Hb : Zpos b < 2 ^ 53) by nia.
  destruct (dyadic_normal_form a ea Ha ltac:(lia)) as (qa & Hqa & ->).
  destruct (dyadic_normal_form b eb Hb ltac:(lia)) as (qb & Hqb & ->).
  destruct (dyadic_normal_form (a * b) (ea + eb) ltac:(lia) ltac:(lia)) as (qab & Hqab & ->).
  pose proof (Zdigits2_bounds (Zpos a) ltac:(lia)) as [Hla Hua].
  pose proof (Zdigits2_bounds (Zpos b) ltac:(lia)) as [Hlb Hub].
  pose proof (Zdigits2_bounds (Zpos (a * b)) ltac:(lia)) as [Hlab Huab].
  pose proof (Zdigits2_pos (Zpos a) ltac:(lia)) as Hda0.
  pose proof (Zdigits2_pos (Zpos b) ltac:(lia)) as Hdb0.
  pose proof (Zdigits2_le (Zpos a) 53 ltac:(lia) Ha) as Hda.
  pose proof (Zdigits2_le (Zpos b) 53 ltac:(lia) Hb) as Hdb.
  pose proof (Zdigits2_le (Zpos (a * b)) 53 ltac:(lia) ltac:(lia)) as Hdab.
  set (da := Zdigits2 (Zpos a)) in *. set (db := Zdigits2 (Zpos b)) in *.
  set (dab := Zdigits2 (Zpos (a * b))) in *.
  assert (Hlow : da + db - 1 <= dab).
  { destruct (Z_le_gt_dec (da + db - 1) dab) as [|Hgt]; [assumption|exfalso].
    assert (H1 : 2 ^ (da - 1) * 2 ^ (db - 1) <= Zpos a * Zpos b).
    { apply Z.mul_le_mono_nonneg; try assumption; apply Z.pow_nonneg; lia. }
    rewrite <- Z.pow_add_r in H1 by lia.
    assert (H2 : 2 ^ dab <= 2 ^ (da - 1 + (db - 1))) by (apply Z.pow_le_mono_r; lia).
    rewrite Pos2Z.inj_mul in Huab. lia. }
  assert (Hdig : Zdigits2 (Zpos (qa * qb)) = dab + (106 - da - db)).
  { rewrite Pos2Z.inj_mul, Hqa, Hqb.
    replace (Zpos a * 2 ^ (53 - da) * (Zpos b * 2 ^ (53 - db)))
      with (Zpos (a * b) * 2 ^ (106 - da - db)).
    - apply Zdigits2_mul_pow2; lia.
    - replace (106 - da - db) with (53 - da + (53 - db)) by lia.
      rewrite Z.pow_add_r, Pos2Z.inj_mul by lia. ring. }
  unfold dmul. cbn [SFmul xorb].
  replace (ea + eb + dab - 53)
    with (ea + da - 53 + (eb + db - 53) + (dab + 53 - da - db)) by lia.
  apply binary_round_aux_exact; try (unfold prec64, emax64; lia).
  - rewrite Hdig. unfold fexp, emin, prec64, emax64. lia.
  - rewrite Pos2Z.inj_mul, Hqa, Hqb, Hqab, Pos2Z.inj_mul.
    replace (53 - dab) with (53 - dab + 0) by lia.
    rewrite <- !Z.mul_assoc.
    replace (2 ^ (53 - dab + 0) * 2 ^ (dab + 53 - da - db))
      with (2 ^ (53 - da) * 2 ^ (53 - db)); [ring|].
    rewrite <- !Z.pow_add_r by lia. f_equal. lia.
Qed.

Lemma dadd_dyadic (a b : positive) (ea eb : Z) :
  let z := Z.min ea eb in
  let S := Zpos a * 2 ^ (ea - z) + Zpos b * 2 ^ (eb - z) in
  S < 2 ^ 53 -> -400 <= ea <= 400 -> -400 <= eb <= 400 ->
  dadd (dyadic (Zpos a) ea) (dyadic (Zpos b) eb) = dyadic S z.
Proof.
  intros z S HS Hea Heb.
  assert (H2a : 0 < 2 ^ (ea - z)) by (apply Z.pow_pos_nonneg; lia).
  assert (H2b : 0 < 2 ^ (eb - z)) by (apply Z.pow_pos_nonneg; lia).
  assert (Ha : Zpos a < 2 ^ 53) by (unfold S in HS; nia).
  assert (Hb : Zpos b < 2 ^ 53) by (unfold S in HS; nia).
  assert (HS0 : 0 < S) by (unfold S; nia).
  destruct (dyadic_normal_form a ea Ha ltac:(lia)) as (qa & Hqa & ->).
  destruct (dyadic_normal_form b eb Hb ltac:(lia)) as (qb & Hqb & ->).
  assert (Hs : exists s, S = Zpos s) by (destruct S; try lia; eauto).
  destruct Hs as [s HeqS]. rewrite HeqS in *. unfold S in HeqS. clear S.
  destruct (dyadic_normal_form s z HS ltac:(lia)) as (qs & Hqs & ->).
  pose proof (Zdigits2_pos (Zpos a) ltac:(lia)) as Hda0.
  pose proof (Zdigits2_pos (Zpos b) ltac:(lia)) as Hdb0.
  pose proof (Zdigits2_pos (Zpos s) ltac:(lia)) as Hds0.
  pose proof (Zdigits2_le (Zpos a) 53 ltac:(lia) Ha) as Hda.
  pose proof (Zdigits2_le (Zpos b) 53 ltac:(lia) Hb) as Hdb.
  pose proof (Zdigits2_le (Zpos s) 53 ltac:(lia) HS) as Hds.
  set (da := Zdigits2 (Zpos a)) in *. set (db := Zdigits2 (Zpos b)) in *.
  set (ds := Zdigits2 (Zpos s)) in *.
  unfold dadd. cbn [SFadd cond_Zopp].
  set (ez := Z.min (ea + da - 53) (eb + db - 53)).
  destruct (shl_align_spec qa (ea + da - 53) ez) as [Hs1 Hm1].
  destruct (shl_align_spec qb (eb + db - 53) ez) as [Hs2 Hm2].
  rewrite Hs1 in Hm1. rewrite Hs2 in Hm2.
  replace (Z.min (ea + da - 53) ez) with ez in Hm1 by lia.
  replace (Z.min (eb + db - 53) ez) with ez in Hm2 by lia.
  set (A := fst (shl_align qa (ea + da - 53) ez)) in *.
  set (B := fst (shl_align qb (eb + db - 53) ez)) in *.
  change (Zpos A + Zpos B) with (Zpos (A + B)). cbn [binary_normalize].
  assert (HM : Zpos (A + B) = Zpos s * 2 ^ (z - ez)).
  { rewrite Pos2Z.inj_add, Hm1, Hm2, Hqa, Hqb, <- HeqS.
    rewrite Z.mul_add_distr_r, <- !Z.mul_assoc, <- !Z.pow_add_r by lia.
    f_equal; do 2 f_equal; lia. }
  assert (Hdig : Zdigits2 (Zpos (A + B)) = ds + (z - ez)).
  { rewrite HM. apply Zdigits2_mul_pow2; lia. }
  apply binary_round_exact; try reflexivity.
  - rewrite Hdig. unfold fexp, emin, prec64, emax64. lia.
  - destruct (Z_le_gt_dec (z + ds - 53) ez) as [Hle|Hgt]; [left|right]; (split; [lia|]).
    + rewrite HM, Hqs, <- Z.mul_assoc, <- Z.pow_add_r by lia. do 2 f_equal. lia.
    + rewrite HM, Hqs, <- Z.mul_assoc, <- Z.pow_add_r by lia. do 2 f_equal. lia.
  - unfold prec64, emax64. lia.
Qed.

Lemma dyadic_order (a b : positive) (e : Z) :
  Zpos a <= Zpos b -> Zpos b < 2 ^ 53 -> -1000 <= e <= 900 ->
  le (dyadic (Zpos a) e) (dyadic (Zpos b) e) = true /\
  (Zpos a < Zpos b -> lt (dyadic (Zpos a) e) (dyadic (Zpos b) e) = true).
Proof.
  intros Hab Hb He.
  destruct (dyadic_normal_form a e ltac:(lia) He) as (qa & Hqa & ->).
  destruct (dyadic_normal_form b e Hb He) as (qb & Hqb & ->).
  pose proof (Zdigits2_mono (Zpos a) (Zpos b) ltac:(lia)) as Hd.
  pose proof (Zdigits2_le (Zpos b) 53 ltac:(lia) Hb) as Hdb.
  set (da := Zdigits2 (Zpos a)) in *. set (db := Zdigits2 (Zpos b)) in *.
  clearbody da db.
  unfold le, lt, SFleb, SFltb, SFcompare.
  destruct (Z.compare_spec (e + da - 53) (e + db - 53)) as [Heq|Hlt|Hgt]; try lia.
  - assert (da = db) by lia. subst da.
    assert (H2 : 0 < 2 ^ (53 - db)) by (apply Z.pow_pos_nonneg; lia).
    rewrite Pos.compare_cont_spec. cbn [Pos.switch_Eq].
    destruct (Pos.compare_spec qa qb) as [Hq|Hq|Hq]; cbn.
    + split; [reflexivity|]. intros Hlt. exfalso.
      assert (Zpos qa = Zpos qb) by congruence. nia.
    + auto.
    + exfalso. assert (Zpos qb < Zpos qa) by lia. nia.
Qed.

(** ** The deterministic part of a reading *)

Lemma trend_temperature (t : Z) :
  0 <= t <= INT_MAX ->
  trend (double_of_int 40) (double_of_int 3) t = dyadic (40 + 3 * t) 0.
Proof.
  unfold INT_MAX. intros Ht. destruct t as [|p|p]; try lia.
  { vm_compute. reflexivity. }
  unfold trend.
  change (double_of_int (Zpos p)) with (dyadic (Zpos p) 0).
  change (double_of_int 3) with (dyadic 3 0).
  change (double_of_int 40) with (dyadic 40 0).
  rewrite dmul_dyadic by lia. change (0 + 0) with 0.
  rewrite dadd_dyadic; try lia.
  - f_equal. change (Z.min 0 0) with 0. change (0 - 0) with 0.
    rewrite Z.pow_0_r. lia.
  - change (Z.min 0 0) with 0. change (0 - 0) with 0. rewrite Z.pow_0_r. lia.
Qed.

Lemma trend_vibration (t : Z) :
  0 <= t <= INT_MAX ->
  trend (double_of_int 10) (double_lit 15 10) t = dyadic (20 + 3 * t) (-1).
Proof.
  unfold INT_MAX. intros Ht. destruct t as [|p|p]; try lia.
  { vm_compute. reflexivity. }
  unfold trend.
  change (double_of_int (Zpos p)) with (dyadic (Zpos p) 0).
  replace (double_lit 15 10) with (dyadic 3 (-1)) by (vm_compute; reflexivity).
  change (double_of_int 10) with (dyadic 10 0).
  rewrite dmul_dyadic by lia. change (0 + -1) with (-1).
  rewrite dadd_dyadic; try lia.
  - f_equal. change (Z.min 0 (-1)) with (-1). change (0 - -1) with 1.
    change (-1 - -1) with 0. rewrite Z.pow_0_r, Z.pow_1_r. lia.
  - change (Z.min 0 (-1)) with (-1). change (0 - -1) with 1.
    change (-1 - -1) with 0. rewrite Z.pow_0_r, Z.pow_1_r. lia.
Qed.

(** C5. In tick [t] the simulator stores, as temperature, the sum
    40.0 + 3.0*t + n_t and, as vibration, the sum 10.0 + 1.5*t + n_v, each
    computed in double precision and converted to [float]; the noise terms
    satisfy 0 <= n_t <= 2 and 0 <= n_v <= 1.  The parts that do not depend
    on the noise are exactly 40 + 3t and (20 + 3t)/2, so they never
    decrease, and in fact increase, as the tick number grows. *)
Theorem readings_follow_trend :
  forall (env : Env) (t : Z) (w : World),
    rand_in_range env -> 1 <= t <= INT_MAX ->
    let data := fst (read_sensors env t w) in
    let n_t := random_noise (rand_value env (rand_calls w)) (double_of_int 2) in
    let n_v := random_noise (rand_value env (S (rand_calls w))) (double_of_int 1) in
    let trend_t := dadd (double_of_int 40) (dmul (double_of_int t) (double_of_int 3)) in
    let trend_v := dadd (double_of_int 10) (dmul (double_of_int t) (double_lit 15 10)) in
    timestamp data = t /\
    temperature data = float_of_double (dadd trend_t (double_of_float n_t)) /\
    vibration data = float_of_double (dadd trend_v (double_of_float n_v)) /\
    le (float_of_int 0) n_t = true /\ le n_t (float_of_int 2) = true /\
    le (float_of_int 0) n_v = true /\ le n_v (float_of_int 1) = true /\
    trend_t = dyadic (40 + 3 * t) 0 /\
    trend_v = dyadic (20 + 3 * t) (-1) /\
    forall t' : Z,
      t <= t' <= INT_MAX ->
      le trend_t (trend (double_of_int 40) (double_of_int 3) t') = true /\
      le trend_v (trend (double_of_int 10) (double_lit 15 10) t') = true /\
      (t < t' ->
       lt trend_t (trend (double_of_int 40) (double_of_int 3) t') = true /\
       lt trend_v (trend (double_of_int 10) (double_lit 15 10) t') = true).
Proof.
  intros env t w Hrand Ht data n_t n_v trend_t trend_v.
  pose proof (random_noise_bounds _ (Hrand (rand_calls w))) as (H1 & H2 & _ & _).
  pose proof (random_noise_bounds _ (Hrand (S (rand_calls w)))) as (_ & _ & H3 & H4).
  fold n_t in H1, H2. fold n_v in H3, H4.
  assert (Htt : trend_t = dyadic (40 + 3 * t) 0) by (apply trend_temperature; lia).
  assert (Htv : trend_v = dyadic (20 + 3 * t) (-1)) by (apply trend_vibration; lia).
  repeat (split; [reflexivity || assumption|]).
  intros t' Ht'. rewrite Htt, Htv.
  rewrite trend_temperature, trend_vibration by lia.
  unfold INT_MAX in *.
  destruct (40 + 3 * t) as [|a|a] eqn:Ha; try lia.
  destruct (40 + 3 * t') as [|a'|a'] eqn:Ha'; try lia.
  destruct (20 + 3 * t) as [|b|b] eqn:Hb; try lia.
  destruct (20 + 3 * t') as [|b'|b'] eqn:Hb'; try lia.
  destruct (dyadic_order a a' 0) as [Hle1 Hlt1]; try lia.
  destruct (dyadic_order b b' (-1)) as [Hle2 Hlt2]; try lia.
  repeat split; auto.
  - apply Hlt1. lia.
  - apply Hlt2. lia.
Qed.

(** ** Runs of the loop *)

Lemma main_loop_more_fuel (env : Env) (fuel : nat) :
  forall st w r, main_loop env fuel st w = Some r ->
                 forall extra, main_loop env (fuel + extra) st w = Some r.
Proof.
  induction fuel as [|fuel IH]; intros st w r H extra; [discriminate|].
  cbn [main_loop Nat.add] in *.
  destruct (loop_body env st w) as [[[|] st'] w']; auto.
Qed.

Lemma main_loop_halts (env : Env) (fuel : nat) :
  (forall k, 0 <= rand_value env k) ->
  forall st w,
    0 <= time_step st <= 20 ->
    21 <= time_step st + Z.of_nat fuel ->
    exists st' w', main_loop env fuel st w = Some (st', w') /\ time_step st' <= 21.
Proof.
  intros Hrand. induction fuel as [|fuel IH]; intros st w Hst Hfuel; [simpl in Hfuel; lia|].
  cbn [main_loop]. rewrite loop_body_spec.
  destruct (status (sense env (time_step st + 1) (rand_calls w)) =? 2) eqn:Hs.
  - eexists _, _. split; [reflexivity|]. cbn [time_step]. lia.
  - assert (Hne : time_step st + 1 <> 21).
    { intros Heq. rewrite Heq, sense_critical_at_21 in Hs by apply Hrand. discriminate. }
    apply IH; cbn [time_step]; lia.
Qed.

Lemma iterations_inv (env : Env) (w0 : World) (k : nat) :
  forall st w,
    iterations env k initial_state w0 = Some (st, w) ->
    time_step st = Z.of_nat k /\
    (forall j, (1 <= j <= k)%nat -> status (reading_at env 0 (rand_calls w0) j) <> 2) /\
    ((1 <= k)%nat -> prev_data st = reading_at env 0 (rand_calls w0) k) /\
    rand_calls w = (rand_calls w0 + 2 * k)%nat /\
    fopen_calls w = (fopen_calls w0 + k)%nat.
Proof.
  induction k as [|k IH]; intros st w H.
  - cbn [iterations] in H. injection H as <- <-. cbn [time_step initial_state].
    repeat split; try lia.
  - cbn [iterations] in H.
    destruct (iterations env k initial_state w0) as [[st1 w1]|]; [|discriminate].
    destruct (IH st1 w1 eq_refl) as (Ht & Hbefore & Hprev & Hr & Hf).
    rewrite loop_body_spec in H.
    assert (Hcur : sense env (time_step st1 + 1) (rand_calls w1)
                   = reading_at env 0 (rand_calls w0) (S k)).
    { unfold reading_at. rewrite Ht, Hr. f_equal; lia. }
    rewrite Hcur in H.
    destruct (status (reading_at env 0 (rand_calls w0) (S k)) =? 2) eqn:Hs; [discriminate|].
    injection H as <- <-. cbn [time_step prev_data rand_calls fopen_calls].
    repeat split; try lia.
    intros j Hj. destruct (Nat.eq_dec j (S k)) as [->|Hne].
    + now apply Z.eqb_neq.
    + apply Hbefore. lia.
Qed.

Lemma run_rows_length (env : Env) (n : nat) :
  forall t r f, List.length (run_rows env n t r f) = opened_count env f n.
Proof.
  unfold opened_count.
  induction n as [|n IH]; intros t r f; [reflexivity|].
  cbn [run_rows seq filter]. rewrite length_app, IH.
  destruct (fopen_ok env f); reflexivity.
Qed.

Lemma opened_count_all (env : Env) (f n : nat) :
  opens_succeed env -> opened_count env f n = n.
Proof.
  intros H. unfold opened_count.
  rewrite forallb_filter_id; [apply length_seq|].
  apply forallb_forall. intros x _. apply H.
Qed.


Ltac console_flat :=
  rewrite ?printf_add_console, ?add_console_twice; reflexivity.

(** ** Comparisons and special values *)

Lemma warning_threshold : dmul CRITICAL_TEMP (double_lit 8 10) = double_of_int 80.
Proof. vm_compute. reflexivity. Qed.

Lemma le_zero_of_zero (x : spec_float) : is_zero x = true -> le x (float_of_int 0) = true.
Proof. destruct x as [s|s| |s m e]; try discriminate. intros _. now destruct s. Qed.

Lemma gt_zero_of_not_le (x : spec_float) :
  is_nan x = false -> le x (float_of_int 0) = false -> gt x (float_of_int 0) = true.
Proof. destruct x as [[|]|[|]| |[|] m e]; cbn; congruence. Qed.

Lemma le_zero_of_not_lt (x : spec_float) :
  is_nan x = false -> lt x (float_of_int 0) = false -> le (float_of_int 0) x = true.
Proof. destruct x as [[|]|[|]| |[|] m e]; cbn; congruence. Qed.

Lemma sign_class_not_nan (s : bool) (x : spec_float) :
  sign_class s x = true -> is_nan x = false.
Proof. destruct x; cbn; congruence. Qed.

Lemma binary_normalize_not_nan (prec emax m e : Z) (sz : bool) :
  0 < prec -> is_nan (binary_normalize prec emax m e sz) = false.
Proof.
  intros Hp. destruct m as [|p|p]; cbn [binary_normalize]; [reflexivity| |].
  - apply (sign_class_not_nan false). now apply binary_round_sign.
  - apply (sign_class_not_nan true). now apply binary_round_sign.
Qed.

Lemma fsub_finite_not_nan (x y : float) :
  is_finite x = true -> is_finite y = true -> is_nan (fsub x y) = false.
Proof.
  destruct x as [sx|sx| |sx mx ex]; try discriminate;
    destruct y as [sy|sy| |sy my ey]; try discriminate; intros _ _.
  - now destruct sx, sy.
  - reflexivity.
  - reflexivity.
  - unfold fsub. cbn [SFsub]. now apply binary_normalize_not_nan.
Qed.

(** ** The classifier *)

(** C1. The status is a function of temperature and vibration alone:
    CRITICAL (2) exactly when the temperature is above 100.0 or the vibration
    is above 50.0, otherwise WARNING (1) exactly when the temperature is
    above 80.0, otherwise OK (0).  The comparisons are strict: 100.0 with a
    low vibration is WARNING and 80.0 is OK, while 100.1 is CRITICAL, 85 is
    WARNING and 50 is OK. *)
Theorem classify_thresholds :
  (forall t v : float,
      let hot := gt (double_of_float t) (double_of_int 100) in
      let shaky := gt (double_of_float v) (double_of_int 50) in
      let warm := gt (double_of_float t) (double_of_int 80) in
      (classify t v = 2 <-> hot = true \/ shaky = true) /\
      (classify t v = 1 <-> hot = false /\ shaky = false /\ warm = true) /\
      (classify t v = 0 <-> hot = false /\ shaky = false /\ warm = false)) /\
  (forall (env : Env) (time_step : Z) (w : World),
      let data := fst (read_sensors env time_step w) in
      status data = classify (temperature data) (vibration data)) /\
  classify (float_of_int 100) (float_of_int 10) = 1 /\
  classify (float_of_int 80) (float_of_int 10) = 0 /\
  classify (float_of_int 50) (float_of_int 50) = 0 /\
  classify (float_of_double (double_lit 1001 10)) (float_of_int 10) = 2 /\
  classify (float_of_int 85) (float_of_int 10) = 1 /\
  classify (float_of_int 50) (float_of_int 10) = 0.
Proof.
  split; [|split; [reflexivity|]].
  - intros t v hot shaky warm. unfold classify. rewrite warning_threshold.
    change CRITICAL_TEMP with (double_of_int 100).
    change CRITICAL_VIBRATION with (double_of_int 50).
    fold hot shaky warm.
    destruct hot, shaky, warm; cbn [orb]; intuition congruence.
  - repeat split; vm_compute; reflexivity.
Qed.

(** ** The predictor *)

Lemma predict_failure_as_verdict (current previous : SensorData) (w : World) :
  predict_failure current previous w
  = add_console (verdict_output (predictor_verdict current previous)) w.
Proof.
  unfold predict_failure, predictor_verdict, projected_steps, verdict_output,
    banner_output, trend_output.
  destruct (le _ _); [console_flat|].
  cbv zeta.
  match goal with
  | |- context [lt ?a (float_of_int 10)] => destruct (lt a (float_of_int 10))
  end; console_flat.
Qed.

(** C2. The predictor takes the difference of the two temperatures as the
    rate; a rate that is not above zero gives the stable message without any
    number; otherwise the steps to the critical temperature are the
    quotient of the remaining margin by the rate, never negative, and the
    alert is raised exactly when they are below 10.  From 70 to 75 degrees
    the rate is 5, the projection is 5 steps, and the alert is raised. *)
Theorem predict_failure_verdict :
  (forall (current previous : SensorData) (w : World),
      predict_failure current previous w
      = add_console (verdict_output (predictor_verdict current previous)) w) /\
  (forall current previous : SensorData,
      let rate := fsub (temperature current) (temperature previous) in
      let steps := projected_steps current rate in
      predictor_verdict current previous
      = if le rate (float_of_int 0) then Stable
        else if lt steps (float_of_int 10) then Urgent rate steps
             else SafeFor rate steps) /\
  (forall (current : SensorData) (rate : float),
      lt (projected_steps current rate) (float_of_int 0) = false /\
      (is_nan (projected_steps current rate) = false ->
       le (float_of_int 0) (projected_steps current rate) = true)) /\
  (let previous := reading_with_temperature (float_of_int 70) in
   let current := reading_with_temperature (float_of_int 75) in
   fsub (temperature current) (temperature previous) = float_of_int 5 /\
   projected_steps current (float_of_int 5) = float_of_int 5 /\
   predictor_verdict current previous = Urgent (float_of_int 5) (float_of_int 5) /\
   predictor_verdict previous current = Stable /\
   predictor_verdict current current = Stable).
Proof.
  split; [|split; [|split]].
  - apply predict_failure_as_verdict.
  - reflexivity.
  - intros current rate. unfold projected_steps. cbv zeta.
    destruct (lt (fdiv _ _) _) eqn:Hlt; split; try reflexivity; auto.
    intros Hnan. now apply le_zero_of_not_lt.
  - vm_compute. repeat split; reflexivity.
Qed.

(** C8. The quotient of the predictor is taken only after the test
    [temp_rate <= 0] has failed: the function returns with the stable
    message when the test succeeds; when it fails the divisor is not zero,
    and it is positive unless it is a NaN, which the difference of two
    finite temperatures never is. *)
Theorem predictor_division_guarded :
  forall current previous : SensorData,
    let rate := fsub (temperature current) (temperature previous) in
    (le rate (float_of_int 0) = true /\
     predictor_verdict current previous = Stable /\
     forall w, predict_failure current previous w
               = add_console (verdict_output Stable) w)
    \/
    (le rate (float_of_int 0) = false /\
     is_zero rate = false /\
     (is_nan rate = false -> gt rate (float_of_int 0) = true) /\
     (is_finite (temperature current) = true ->
      is_finite (temperature previous) = true ->
      gt rate (float_of_int 0) = true) /\
     exists steps,
       steps = projected_steps current rate /\
       forall w, predict_failure current previous w
                 = add_console
                     (verdict_output (if lt steps (float_of_int 10)
                                      then Urgent rate steps
                                      else SafeFor rate steps)) w).
Proof.
  intros current previous rate.
  destruct (le rate (float_of_int 0)) eqn:Hle; [left|right].
  - split; [reflexivity|]. split.
    + unfold predictor_verdict. fold rate. now rewrite Hle.
    + intros w. unfold predict_failure, verdict_output, banner_output.
      fold rate. rewrite Hle. console_flat.
  - split; [reflexivity|]. split; [|split; [|split]].
    + destruct (is_zero rate) eqn:Hz; [|reflexivity].
      apply le_zero_of_zero in Hz. congruence.
    + intros Hnan. now apply gt_zero_of_not_le.
    + intros Hc Hp. apply gt_zero_of_not_le; [|assumption].
      now apply fsub_finite_not_nan.
    + eexists. split; [reflexivity|]. intros w.
      unfold predict_failure, projected_steps, verdict_output, banner_output, trend_output.
      fold rate. rewrite Hle. cbv zeta.
      match goal with
    | |- context [lt ?a (float_of_int 10)] => destruct (lt a (float_of_int 10))
    end; console_flat.
Qed.

(** ** The whole program *)

Lemma main_startup (env : Env) (fuel : nat) (w : World) :
  fopen_ok env (fopen_calls w) = true ->
  main env fuel w =
  match main_loop env fuel initial_state (startup_world w) with
  | None => None
  | Some (_, w') =>
      Some (Exit 0 (printf (NL ++ "Session Data saved to '%s'." ++ NL) [AStr DATA_FILE] w'))
  end.
Proof.
  intros Hok. unfold main, fopen. rewrite Hok. unfold startup_world, header_line.
  unfold fclose, fprintf, printf, sleep.
  cbn [log_file console rand_calls fopen_calls slept app].
  rewrite <- app_assoc. reflexivity.
Qed.

Lemma run_rows_last (env : Env) (n : nat) :
  forall t r f,
    run_rows env (S n) t r f
    = (run_rows env n t r f
       ++ (if fopen_ok env (f + n) then [row (reading_at env t r (S n))] else []))%list.
Proof.
  induction n as [|n IH]; intros t r f.
  - cbn [run_rows]. rewrite app_nil_r, Nat.add_0_r. cbn [app].
    unfold reading_at. cbn [Nat.sub Nat.mul Z.of_nat Pos.of_succ_nat].
    now rewrite Nat.add_0_r.
  - change (run_rows env (S (S n)) t r f)
      with ((if fopen_ok env f then [row (sense env (t + 1) r)] else [])
              ++ run_rows env (S n) (t + 1) (S (S r)) (S f))%list.
    rewrite IH. cbn [run_rows]. rewrite <- app_assoc.
    replace (S f + n)%nat with (f + S n)%nat by lia.
    replace (reading_at env (t + 1) (S (S r)) (S n)) with (reading_at env t r (S (S n)));
      [reflexivity|].
    unfold reading_at. f_equal; lia.
Qed.

Lemma classify_range (t v : float) : classify t v = 0 \/ classify t v = 1 \/ classify t v = 2.
Proof.
  unfold classify. destruct (_ || _); [auto|]. destruct (gt _ _); auto.
Qed.


Lemma rand_in_range_nonneg (env : Env) : rand_in_range env -> forall k, 0 <= rand_value env k.
Proof. intros H k. apply H. Qed.

(** How a run of the loop from the initial state ends. *)
Lemma main_loop_run (env : Env) (w : World) (fuel : nat) :
  rand_in_range env -> (21 <= fuel)%nat ->
  exists (st' : LoopState) (w' : World) (n : nat),
    main_loop env fuel initial_state w = Some (st', w') /\
    time_step st' = Z.of_nat n /\
    (1 <= n <= 21)%nat /\
    status (reading_at env 0 (rand_calls w) n) = 2 /\
    (forall j, (1 <= j < n)%nat -> status (reading_at env 0 (rand_calls w) j) <> 2) /\
    log_file w' = (log_file w ++ run_rows env n 0 (rand_calls w) (fopen_calls w))%list /\
    console w' = (console w ++ run_console env n 0 (rand_calls w) (fopen_calls w)
                                           (prev_data initial_state))%list.
Proof.
  intros Hrand Hfuel.
  destruct (main_loop_halts env fuel (rand_in_range_nonneg env Hrand) initial_state w)
    as (st' & w' & Hrun & Hle); [cbn; lia|cbn; lia|].
  destruct (main_loop_inv env fuel _ _ _ _ Hrun)
    as (n & Hn & Ht & Hbefore & Hat & Hfile & Hcons & _).
  cbn [time_step initial_state] in Ht, Hbefore, Hat, Hfile, Hcons.
  exists st', w', n. repeat split; auto; try lia.
Qed.

Lemma iterations_step (env : Env) (w : World) (k : nat) (st1 : LoopState) (w1 : World) :
  iterations env k initial_state w = Some (st1, w1) ->
  (status (reading_at env 0 (rand_calls w) (S k)) = 2 ->
   iterations env (S k) initial_state w = None) /\
  (status (reading_at env 0 (rand_calls w) (S k)) <> 2 ->
   exists st2 w2, iterations env (S k) initial_state w = Some (st2, w2)).
Proof.
  intros Hk. destruct (iterations_inv env w k st1 w1 Hk) as (Ht & _ & _ & Hr & _).
  cbn [iterations]. rewrite Hk, loop_body_spec.
  assert (Hcur : sense env (time_step st1 + 1) (rand_calls w1)
                 = reading_at env 0 (rand_calls w) (S k)).
  { unfold reading_at. rewrite Ht, Hr. f_equal; lia. }
  rewrite Hcur. split; intros Hs.
  - now rewrite Hs.
  - apply Z.eqb_neq in Hs. rewrite Hs. eauto.
Qed.

Lemma iterations_continue (env : Env) (w : World) (k : nat) :
  (forall j, (1 <= j <= k)%nat -> status (reading_at env 0 (rand_calls w) j) <> 2) ->
  exists st w1, iterations env k initial_state w = Some (st, w1).
Proof.
  induction k as [|k IH]; intros H.
  - cbn. eauto.
  - destruct IH as (st & w1 & Hk); [intros j Hj; apply H; lia|].
    apply (iterations_step env w k st w1 Hk). apply H. lia.
Qed.

(** C3, as the code has it.  Every run of the loop that ends has stopped
    at the first tick whose reading is CRITICAL, and at no other tick.  The
    logger is called in every tick, the last one included, and writes a row
    whenever it can open the file: the number of rows written is the number
    of ticks whose [fopen] succeeded, and so the number of ticks when all of
    them do.  With [rand] in range the run does end, within 21 ticks. *)
Theorem loop_halts_at_first_critical :
  forall (env : Env) (w : World) (fuel : nat),
    (forall (st' : LoopState) (w' : World),
        main_loop env fuel initial_state w = Some (st', w') ->
        exists n : nat,
          time_step st' = Z.of_nat n /\ (1 <= n <= fuel)%nat /\
          status (reading_at env 0 (rand_calls w) n) = 2 /\
          (forall j, (1 <= j < n)%nat ->
                     status (reading_at env 0 (rand_calls w) j) <> 2) /\
          (forall j, (1 <= j < n)%nat ->
                     exists st w1, iterations env j initial_state w = Some (st, w1)) /\
          iterations env n initial_state w = None /\
          exists rows,
            log_file w' = (log_file w ++ rows)%list /\
            List.length rows = opened_count env (fopen_calls w) n /\
            (fopen_ok env (fopen_calls w + (n - 1)) = true ->
             exists earlier,
               rows = (earlier ++ [row (reading_at env 0 (rand_calls w) n)])%list) /\
            (opens_succeed env -> List.length rows = n)) /\
    (rand_in_range env -> (21 <= fuel)%nat ->
     exists (st' : LoopState) (w' : World),
       main_loop env fuel initial_state w = Some (st', w') /\ 1 <= time_step st' <= 21).
Proof.
  intros env w fuel. split.
  - intros st' w' Hrun.
    destruct (main_loop_inv env fuel _ _ _ _ Hrun)
      as (n & Hn & Ht & Hbefore & Hat & Hfile & _).
    cbn [time_step initial_state] in Ht, Hbefore, Hat, Hfile.
    exists n. repeat (split; [assumption || lia|]).
    split; [|split].
    + intros j Hj. apply iterations_continue. intros i Hi. apply Hbefore. lia.
    + destruct n as [|n]; [lia|].
      destruct (iterations_continue env w n) as (st & w1 & Hk).
      { intros i Hi. apply Hbefore. lia. }
      now apply (iterations_step env w n st w1 Hk).
    + exists (run_rows env n 0 (rand_calls w) (fopen_calls w)).
      split; [assumption|]. split; [apply run_rows_length|]. split.
      * destruct n as [|n]; [lia|]. rewrite run_rows_last.
        replace (S n - 1)%nat with n by lia. intros ->. eauto.
      * intros Hok. rewrite run_rows_length. now apply opened_count_all.
  - intros Hrand Hfuel.
    destruct (main_loop_run env w fuel Hrand Hfuel)
      as (st' & w' & n & Hrun & Ht & Hn & _).
    exists st', w'. split; [assumption|lia].
Qed.

(** C3, counterexample to the count of rows.  When no [fopen] of the loop
    succeeds, 21 ticks are executed and no row is written; run from [main]
    with only the header opened, the file ends with the header alone. *)
Lemma rows_fewer_than_ticks :
  (exists st' w',
      main_loop closed_env 21 initial_state empty_world = Some (st', w') /\
      time_step st' = 21 /\
      List.length (data_rows (log_file w')) = 0%nat /\
      Z.of_nat (List.length (data_rows (log_file w'))) <> time_step st') /\
  (exists w',
      main header_only_env 21 empty_world = Some (Exit 0 w') /\
      log_file w' = [header_line] /\
      slept w' = 21).
Proof.
  split.
  - eexists _, _. split; [vm_compute; reflexivity|].
    repeat split; try reflexivity. discriminate.
  - eexists. split; [vm_compute; reflexivity|]. split; reflexivity.
Qed.

(** C6. A tick in which the log file cannot be opened for appending:
    the logger prints the error message and writes nothing; the rest of the
    tick is what it is when the file opens -- the same dashboard and
    prediction are printed, and the loop breaks or continues on the same
    condition and with the same state. *)
Theorem append_failure_is_not_fatal :
  forall (env : Env) (st : LoopState) (w : World),
    fopen_ok env (fopen_calls w) = false ->
    let cur := sense env (time_step st + 1) (rand_calls w) in
    (forall data : SensorData,
        log_to_database env data w
        = mkWorld (log_file w) (console w ++ error_output)
                  (rand_calls w) (S (fopen_calls w)) (slept w)) /\
    exists (ctl : Control) (st' : LoopState) (w' w_ok : World) (out : list Output),
      loop_body env st w = (ctl, st', w') /\
      loop_body (with_open_files env) st w = (ctl, st', w_ok) /\
      ctl = (if status cur =? 2 then Break else Continue) /\
      log_file w' = log_file w /\
      log_file w_ok = (log_file w ++ [row cur])%list /\
      console w_ok = (console w ++ out)%list /\
      console w' = (console w ++ error_output ++ out)%list /\
      out = (dashboard_output cur
             ++ (if 1 <? time_step st + 1 then predict_output cur (prev_data st) else [])
             ++ (if status cur =? 2 then halt_output else []))%list /\
      rand_calls w' = rand_calls w_ok /\ fopen_calls w' = fopen_calls w_ok /\
      slept w' = slept w_ok.
Proof.
  intros env st w Hfail cur. split.
  - intros data. now rewrite log_to_database_spec, Hfail.
  - rewrite !loop_body_spec. cbn [with_open_files fopen_ok]. rewrite Hfail.
    change (sense (with_open_files env)) with (sense env). fold cur.
    eexists _, _, _, _, _. split; [reflexivity|]. split; [reflexivity|].
    cbn [log_file console rand_calls fopen_calls slept].
    unfold tick_console. cbn [app]. rewrite app_nil_r.
    repeat split; reflexivity.
Qed.

(** C9. The [fopen] that creates the file at program start is not
    checked: when it fails, [fprintf] is handed the null pointer, before
    anything is printed and before the loop is entered.  The same failure
    inside the loop is handled by [log_to_database]. *)
Theorem header_open_is_unchecked :
  forall (env : Env) (fuel : nat) (w : World),
    fopen_ok env (fopen_calls w) = false ->
    main env fuel w
    = Some (NullStream (mkWorld (log_file w) (console w) (rand_calls w)
                                (S (fopen_calls w)) (slept w))) /\
    forall data : SensorData,
      log_to_database env data w
      = printf ("ERROR: Could not access database file!" ++ NL) []
               (mkWorld (log_file w) (console w) (rand_calls w)
                        (S (fopen_calls w)) (slept w)).
Proof.
  intros env fuel w Hfail. split.
  - unfold main, fopen. now rewrite Hfail.
  - intros data. unfold log_to_database, fopen. now rewrite Hfail.
Qed.

(** ** When the predictor runs *)

Lemma dashboard_without_banner (data : SensorData) :
  existsb is_banner (dashboard_output data) = false.
Proof.
  unfold dashboard_output, print_dashboard.
  destruct (lt (temperature data) (float_of_int 60));
    [|destruct (lt (temperature data) (float_of_int 90))];
    destruct (status data =? 0); destruct (status data =? 1);
    destruct (status data =? 2); vm_compute; reflexivity.
Qed.

Lemma predict_with_banner (current previous : SensorData) :
  existsb is_banner (predict_output current previous) = true.
Proof.
  unfold predict_output. rewrite predict_failure_as_verdict.
  reflexivity.
Qed.

(** C7. The predictor runs in a tick exactly when the tick number is
    above 1.  In tick [k+1] of a run, [k >= 1], it is given the reading of
    that tick and the reading of tick [k], which is what [prev_data] holds;
    the first tick prints no prediction. *)
Theorem prediction_from_second_tick :
  forall (env : Env) (w0 : World) (k : nat) (st : LoopState) (w : World),
    iterations env k initial_state w0 = Some (st, w) ->
    let t := Z.of_nat (S k) in
    let cur := reading_at env 0 (rand_calls w0) (S k) in
    let prev := reading_at env 0 (rand_calls w0) k in
    exists (ctl : Control) (st' : LoopState) (w' : World) (before after : list Output),
      loop_body env st w = (ctl, st', w') /\
      time_step st' = t /\
      fst (read_sensors env t w) = cur /\
      console w'
      = (console w ++ before
                   ++ (if 1 <? t then predict_output cur prev else [])
                   ++ after)%list /\
      existsb is_banner before = false /\
      existsb is_banner after = false /\
      existsb is_banner (if 1 <? t then predict_output cur prev else []) = (1 <? t) /\
      ((1 <= k)%nat -> prev_data st = prev) /\
      (ctl = Continue -> prev_data st' = cur).
Proof.
  intros env w0 k st w Hk t cur prev.
  destruct (iterations_inv env w0 k st w Hk) as (Ht & _ & Hprev & Hr & _).
  assert (Hcur : sense env (time_step st + 1) (rand_calls w) = cur).
  { unfold cur, reading_at. rewrite Ht, Hr. f_equal; lia. }
  assert (Htt : time_step st + 1 = t) by (unfold t; lia).
  rewrite loop_body_spec, Hcur, Htt.
  exists (if status cur =? 2 then Break else Continue).
  eexists _, _.
  exists ((if fopen_ok env (fopen_calls w) then [] else error_output)
            ++ dashboard_output cur)%list,
         (if status cur =? 2 then halt_output else []).
  split; [reflexivity|]. cbn [time_step console prev_data].
  split; [reflexivity|]. split.
  { rewrite read_sensors_sense. cbn [fst]. rewrite <- Htt. exact Hcur. }
  split.
  { unfold tick_console. rewrite <- !app_assoc.
    destruct (1 <? t) eqn:H1; [|reflexivity].
    destruct k as [|k]; [discriminate|].
    rewrite Hprev by lia. reflexivity. }
  split.
  { rewrite existsb_app, dashboard_without_banner.
    now destruct (fopen_ok env (fopen_calls w)). }
  split; [now destruct (status cur =? 2)|].
  split.
  { destruct (1 <? t); [apply predict_with_banner|reflexivity]. }
  split; [exact Hprev|].
  destruct (status cur =? 2); [discriminate|reflexivity].
Qed.

(** ** The theorems at work on sample runs *)

Lemma quiet_env_in_range : rand_in_range quiet_env.
Proof. intro k. cbn. unfold RAND_MAX. lia. Defined.


(** Tick 1 of a run without noise: 43 degrees, 11.5 Hz, noise within bounds. *)
Lemma readings_follow_trend_witness :
  rand_in_range quiet_env /\ 1 <= 1 <= INT_MAX /\
  timestamp (fst (read_sensors quiet_env 1 empty_world)) = 1 /\
  temperature (fst (read_sensors quiet_env 1 empty_world)) = float_of_int 43 /\
  le (random_noise 0 (double_of_int 2)) (float_of_int 2) = true.
Proof.
  split; [exact quiet_env_in_range|]. split; [unfold INT_MAX; lia|].
  destruct (readings_follow_trend quiet_env 1 empty_world)
    as (H1 & H2 & _ & _ & H5 & _).
  - exact quiet_env_in_range.
  - unfold INT_MAX. lia.
  - split; [exact H1|]. split; [|exact H5].
    rewrite H2. vm_compute. reflexivity.
Defined.

(** Without noise the loop stops in tick 21. *)
Lemma loop_halts_at_first_critical_witness :
  rand_in_range quiet_env /\ (21 <= 21)%nat /\
  exists st' w',
    main_loop quiet_env 21 initial_state empty_world = Some (st', w') /\
    exists n : nat,
      time_step st' = Z.of_nat n /\ (1 <= n <= 21)%nat /\
      status (reading_at quiet_env 0 0 n) = 2.
Proof.
  split; [exact quiet_env_in_range|]. split; [lia|].
  destruct (loop_halts_at_first_critical quiet_env empty_world 21) as [Hrun Hterm].
  destruct (Hterm quiet_env_in_range ltac:(lia)) as (st' & w' & H & _).
  destruct (Hrun st' w' H) as (n & H1 & H2 & H3 & _).
  exists st', w'. split; [exact H|]. exists n. auto.
Defined.

Lemma append_failure_is_not_fatal_witness :
  fopen_ok closed_env (fopen_calls empty_world) = false /\
  forall data : SensorData,
    log_to_database closed_env data empty_world
    = mkWorld [] error_output 0 1 0.
Proof.
  split; [reflexivity|].
  exact (proj1 (append_failure_is_not_fatal closed_env initial_state empty_world eq_refl)).
Defined.

Lemma header_open_is_unchecked_witness :
  fopen_ok closed_env (fopen_calls empty_world) = false /\
  main closed_env 21 empty_world = Some (NullStream (mkWorld [] [] 0 1 0)).
Proof.
  split; [reflexivity|].
  exact (proj1 (header_open_is_unchecked closed_env 21 empty_world eq_refl)).
Defined.

(** The second tick of a run without noise prints a prediction. *)
Lemma prediction_from_second_tick_witness :
  exists st w,
    iterations quiet_env 1 initial_state empty_world = Some (st, w) /\
    exists ctl st' w',
      loop_body quiet_env st w = (ctl, st', w') /\ time_step st' = 2 /\
      prev_data st = reading_at quiet_env 0 0 1.
Proof.
  assert (H : iterations quiet_env 1 initial_state empty_world = after_first_tick)
    by (vm_compute; reflexivity).
  unfold after_first_tick in H.
  eexists _, _. split; [exact H|].
  destruct (prediction_from_second_tick quiet_env empty_world 1 _ _ H)
    as (ctl & st' & w' & before & after & H1 & H2 & _ & _ & _ & _ & _ & H8 & _).
  exists ctl, st', w'. split; [exact H1|]. split; [exact H2|].
  apply H8. lia.
Defined.

(** ** Two-sided bounds through rounding *)

Lemma le_int_offset (m e B N : Z) :
  0 <= N -> 0 <= N + e -> (le_int m e B <-> m * 2 ^ (N + e) <= B * 2 ^ N).
Proof.
  intros HN HNe. unfold le_int, scale.
  destruct (Z_le_gt_dec 0 e) as [He|He].
  - rewrite (Z.max_l 0 (- e)), (Z.max_r 0 e) by lia.
    rewrite Z.pow_0_r, Z.mul_1_r, Z.pow_add_r by lia.
    assert (Hp : 0 < 2 ^ N) by (apply Z.pow_pos_nonneg; lia).
    rewrite (Z.mul_le_mono_pos_r _ _ (2 ^ N) Hp).
    replace (m * 2 ^ e * 2 ^ N) with (m * (2 ^ N * 2 ^ e)) by ring. reflexivity.
  - rewrite (Z.max_r 0 (- e)), (Z.max_l 0 e) by lia.
    rewrite Z.pow_0_r, Z.mul_1_r.
    replace N with ((N + e) + - e) at 2 by lia.
    rewrite (Z.pow_add_r 2 (N + e) (- e)) by lia.
    assert (Hp : 0 < 2 ^ (N + e)) by (apply Z.pow_pos_nonneg; lia).
    rewrite (Z.mul_le_mono_pos_r _ _ (2 ^ (N + e)) Hp).
    replace (B * 2 ^ (- e) * 2 ^ (N + e)) with (B * (2 ^ (N + e) * 2 ^ (- e))) by ring.
    reflexivity.
Qed.

Lemma pow2_lt_inv (a b : Z) : 0 <= b -> 2 ^ a < 2 ^ b -> a < b.
Proof.
  intros Hb H. destruct (Z_lt_le_dec a b) as [|Hle]; [assumption|].
  assert (2 ^ b <= 2 ^ a) by (apply Z.pow_le_mono_r; lia). lia.
Qed.

Section RoundBetween.

Variables prec emax : Z.
Hypothesis Hprec : 0 < prec.
Hypothesis Hemin : emin prec emax <= 1 - prec.
Hypothesis Hemax : 1 <= emax - prec.

(** The sum of the number of digits and the exponent of a number that is
    at least 1 and below [2^prec]. *)
Lemma magnitude_bounds (A B : Z) (p : positive) (e : Z) :
  1 <= A -> B < 2 ^ prec ->
  ge_int A (Zpos p) e -> le_int (Zpos p) e B ->
  1 <= Zdigits2 (Zpos p) + e <= prec.
Proof.
  intros HA HB Hge Hle.
  pose proof (Zdigits2_bounds (Zpos p) ltac:(lia)) as [Hl Hu].
  pose proof (Zdigits2_pos (Zpos p) ltac:(lia)) as Hd.
  set (d := Zdigits2 (Zpos p)) in *. clearbody d.
  set (N := Z.abs e + 1).
  apply (ge_int_offset A _ _ N) in Hge; [|lia|lia].
  apply (le_int_offset _ _ B N) in Hle; [|lia|lia].
  assert (HN : 0 < 2 ^ N) by (apply Z.pow_pos_nonneg; lia).
  assert (HNe : 0 < 2 ^ (N + e)) by (apply Z.pow_pos_nonneg; lia).
  split.
  - assert (H1 : 2 ^ N < 2 ^ (d + (N + e))).
    { rewrite Z.pow_add_r by lia.
      assert (Zpos p * 2 ^ (N + e) < 2 ^ d * 2 ^ (N + e))
        by (apply Z.mul_lt_mono_pos_r; assumption).
      assert (1 * 2 ^ N <= A * 2 ^ N) by (apply Z.mul_le_mono_nonneg_r; lia).
      lia. }
    apply pow2_lt_inv in H1; lia.
  - assert (H2 : 2 ^ (d - 1 + (N + e)) < 2 ^ (prec + N)).
    { rewrite (Z.pow_add_r 2 (d - 1) (N + e)), (Z.pow_add_r 2 prec N) by lia.
      assert (2 ^ (d - 1) * 2 ^ (N + e) <= Zpos p * 2 ^ (N + e))
        by (apply Z.mul_le_mono_nonneg_r; lia).
      assert (B * 2 ^ N < 2 ^ prec * 2 ^ N)
        by (apply Z.mul_lt_mono_pos_r; assumption).
      lia. }
    apply pow2_lt_inv in H2; lia.
Qed.

Lemma binary_round_between (A B : Z) (p : positive) (e : Z) :
  1 <= A -> B < 2 ^ prec ->
  ge_int A (Zpos p) e -> le_int (Zpos p) e B ->
  between prec A B (binary_round prec emax false p e).
Proof.
  intros HA HB Hge Hle.
  pose proof (magnitude_bounds A B p e HA HB Hge Hle) as Hmag.
  destruct (binary_round_spec prec emax Hprec false p e) as (m_r & -> & Hr & Hshl & Hshr).
  pose proof (Zdigits2_bounds (Zpos p) ltac:(lia)) as [Hl Hu].
  pose proof (Zdigits2_pos (Zpos p) ltac:(lia)) as Hd.
  set (d := Zdigits2 (Zpos p)) in *. clearbody d.
  assert (HE : fexp prec emax (d + e) = d + e - prec) by (unfold fexp; lia).
  rewrite HE in *. set (E := d + e - prec) in *.
  set (N := Z.abs e + prec + 1).
  assert (HN0 : 0 <= N) by lia.
  assert (HNe0 : 0 <= N + e) by lia.
  assert (HNE0 : 0 <= N + E) by (unfold E; lia).
  clearbody N.
  apply (ge_int_offset A _ _ N) in Hge; [|lia|lia].
  apply (le_int_offset _ _ B N) in Hle; [|lia|lia].
  assert (HN : 0 < 2 ^ N) by (apply Z.pow_pos_nonneg; lia).
  assert (HNe : 0 < 2 ^ (N + e)) by (apply Z.pow_pos_nonneg; lia).
  assert (HNE : 0 < 2 ^ (N + E)) by (apply Z.pow_pos_nonneg; lia).
  assert (H2p : 0 < 2 ^ (prec - 1)) by (apply Z.pow_pos_nonneg; lia).
  assert (H2pp : 2 ^ prec = 2 * 2 ^ (prec - 1)).
  { replace prec with (1 + (prec - 1)) at 1 by lia. rewrite Z.pow_add_r by lia. reflexivity. }
  (* the rounded mantissa is normal and within the bounds *)
  assert (Hm : 2 ^ (prec - 1) <= m_r /\
               A * 2 ^ N <= m_r * 2 ^ (N + E) /\ m_r * 2 ^ (N + E) <= B * 2 ^ N).
  { destruct (Z_le_gt_dec E e) as [HEe|HEe].
    - rewrite (Hshl HEe).
      assert (Hval : Zpos p * 2 ^ (e - E) * 2 ^ (N + E) = Zpos p * 2 ^ (N + e)).
      { rewrite <- Z.mul_assoc, <- Z.pow_add_r by lia. do 2 f_equal. lia. }
      rewrite Hval. split; [|split; assumption].
      replace (prec - 1) with (d - 1 + (e - E)) by (unfold E; lia).
      rewrite Z.pow_add_r by lia.
      apply Z.mul_le_mono_nonneg_r; [apply Z.pow_nonneg; lia|exact Hl].
    - destruct (Hshr ltac:(lia)) as [Hcases Hexact].
      set (k := E - e) in *.
      assert (H2k : 0 < 2 ^ k) by (apply Z.pow_pos_nonneg; lia).
      assert (HmE : 0 < 2 ^ (- E)) by (apply Z.pow_pos_nonneg; lia).
      assert (Hme : 2 ^ (- e) = 2 ^ (- E) * 2 ^ k).
      { rewrite <- Z.pow_add_r by lia. f_equal. unfold k. lia. }
      assert (HNsplit : 2 ^ N = 2 ^ (- e) * 2 ^ (N + e)).
      { rewrite <- Z.pow_add_r by lia. f_equal. lia. }
      assert (HNsplitE : 2 ^ N = 2 ^ (- E) * 2 ^ (N + E)).
      { rewrite <- Z.pow_add_r by lia. f_equal. lia. }
      assert (Hplo : A * 2 ^ (- E) * 2 ^ k <= Zpos p).
      { rewrite <- Z.mul_assoc, <- Hme.
        rewrite HNsplit in Hge.
        apply (Z.mul_le_mono_pos_r _ _ (2 ^ (N + e))); [exact HNe|].
        rewrite <- Z.mul_assoc. exact Hge. }
      assert (Hphi : Zpos p <= B * 2 ^ (- E) * 2 ^ k).
      { rewrite <- Z.mul_assoc, <- Hme.
        rewrite HNsplit in Hle.
        apply (Z.mul_le_mono_pos_r _ _ (2 ^ (N + e))); [exact HNe|].
        rewrite <- (Z.mul_assoc B). exact Hle. }
      assert (Hfl_lo : A * 2 ^ (- E) <= Zpos p / 2 ^ k).
      { apply Z.div_le_lower_bound; lia. }
      assert (Hfl_norm : 2 ^ (prec - 1) <= Zpos p / 2 ^ k).
      { apply Z.div_le_lower_bound; [lia|].
        rewrite Z.mul_comm, <- Z.pow_add_r by lia.
        replace (prec - 1 + k) with (d - 1) by (unfold k, E; lia). exact Hl. }
      assert (Hup : m_r <= B * 2 ^ (- E)).
      { pose proof (Z.div_mod (Zpos p) (2 ^ k) ltac:(lia)) as Hdm.
        pose proof (Z.mod_pos_bound (Zpos p) (2 ^ k) ltac:(lia)) as Hmb.
        destruct (Z.eq_dec (Zpos p mod 2 ^ k) 0) as [Hz|Hnz].
        - rewrite (Hexact Hz). apply Z.div_le_upper_bound; lia.
        - assert (Zpos p / 2 ^ k < B * 2 ^ (- E)); [|lia].
          apply Z.div_lt_upper_bound; [lia|].
          destruct (Z_lt_le_dec (Zpos p) (2 ^ k * (B * 2 ^ (- E)))) as [|Hge']; [assumption|exfalso].
          assert (Heq : Zpos p = 2 ^ k * (B * 2 ^ (- E))) by lia.
          apply Hnz. rewrite Heq, Z.mul_comm. apply Z.mod_mul. lia. }
      split; [lia|]. split.
      + rewrite HNsplitE, Z.mul_assoc.
        apply Z.mul_le_mono_nonneg_r; lia.
      + rewrite HNsplitE, Z.mul_assoc.
        apply Z.mul_le_mono_nonneg_r; lia. }
  destruct Hm as (Hnorm & Hlo & Hhi).
  unfold pack. destruct m_r as [|q|q]; try lia.
  destruct (Z.pos q =? 2 ^ prec) eqn:Hc.
  - apply Z.eqb_eq in Hc.
    assert (HEneg : E < 0).
    { destruct (Z_lt_le_dec E 0) as [|HE0]; [assumption|exfalso].
      assert (2 ^ N <= 2 ^ (N + E)) by (apply Z.pow_le_mono_r; lia).
      assert (2 ^ prec * 2 ^ N <= 2 ^ prec * 2 ^ (N + E))
        by (apply Z.mul_le_mono_nonneg_l; lia).
      assert (B * 2 ^ N < 2 ^ prec * 2 ^ N)
        by (apply Z.mul_lt_mono_pos_r; assumption).
      rewrite Hc in Hhi. lia. }
    rewrite (proj2 (Z.leb_le _ _)) by lia.
    cbn [between]. rewrite Z2Pos.id by lia.
    assert (Hshift : 2 ^ (N + (E + 1)) = 2 * 2 ^ (N + E)).
    { replace (N + (E + 1)) with (1 + (N + E)) by lia. rewrite Z.pow_add_r by lia. reflexivity. }
    split; [lia|]. split.
    + apply (ge_int_offset A _ _ N); [lia|lia|]. rewrite Hshift.
      rewrite Hc, H2pp in Hlo.
      replace (2 ^ (prec - 1) * (2 * 2 ^ (N + E)))
        with (2 * 2 ^ (prec - 1) * 2 ^ (N + E)) by ring. exact Hlo.
    + apply (le_int_offset _ _ B N); [lia|lia|]. rewrite Hshift.
      rewrite Hc, H2pp in Hhi.
      replace (2 ^ (prec - 1) * (2 * 2 ^ (N + E)))
        with (2 * 2 ^ (prec - 1) * 2 ^ (N + E)) by ring. exact Hhi.
  - apply Z.eqb_neq in Hc.
    rewrite (proj2 (Z.leb_le _ _)) by (unfold E; lia).
    cbn [between]. split; [lia|]. split.
    + apply (ge_int_offset A _ _ N); [lia|lia|]. exact Hlo.
    + apply (le_int_offset _ _ B N); [lia|lia|]. exact Hhi.
Qed.


Lemma binary_normalize_between (A B k e : Z) :
  1 <= A -> B < 2 ^ prec -> ge_int A k e -> le_int k e B ->
  between prec A B (binary_normalize prec emax k e false).
Proof.
  intros HA HB Hge Hle.
  assert (Hk : 0 < k).
  { unfold ge_int, scale in Hge.
    assert (0 < 2 ^ Z.max 0 (- e)) by (apply Z.pow_pos_nonneg; lia).
    assert (0 < 2 ^ Z.max 0 e) by (apply Z.pow_pos_nonneg; lia).
    destruct (Z_lt_le_dec 0 k) as [|Hk0]; [assumption|exfalso].
    assert (k * 2 ^ Z.max 0 e <= 0) by (apply Z.mul_nonpos_nonneg; lia).
    assert (1 * 2 ^ Z.max 0 (- e) <= A * 2 ^ Z.max 0 (- e))
      by (apply Z.mul_le_mono_nonneg_r; lia).
    lia. }
  destruct k as [|p|p]; try lia.
  cbn [binary_normalize]. now apply binary_round_between.
Qed.

Lemma round_to_between (p1 A B : Z) (x : spec_float) :
  1 <= A -> B < 2 ^ prec ->
  between p1 A B x -> between prec A B (round_to prec emax x).
Proof.
  intros HA HB Hx. destruct x as [s|s| |s m e]; try contradiction.
  destruct s; [contradiction|]. destruct Hx as (_ & Hge & Hle).
  cbn [round_to]. now apply binary_round_between.
Qed.

End RoundBetween.

Lemma le_int_shl (m e j B : Z) :
  0 <= j -> le_int m e B -> le_int (m * 2 ^ j) (e - j) B.
Proof.
  intros Hj H. set (N := Z.abs e + j + 1).
  apply (le_int_offset _ _ B N); [lia|lia|].
  apply (le_int_offset _ _ B N) in H; [|lia|lia].
  replace (N + e) with (j + (N + (e - j))) in H by lia.
  rewrite Z.pow_add_r in H by lia. lia.
Qed.

Lemma le_int_add (m m' e B B' : Z) :
  le_int m e B -> le_int m' e B' -> le_int (m + m') e (B + B').
Proof. unfold le_int. intros H H'. rewrite !Z.mul_add_distr_r. lia. Qed.

Lemma scale_pos (e : Z) : 0 < scale e.
Proof. unfold scale. apply Z.pow_pos_nonneg; lia. Qed.

Lemma ge_int_weaken (A A' m e : Z) : A' <= A -> ge_int A m e -> ge_int A' m e.
Proof.
  unfold ge_int. intros HA H. pose proof (scale_pos (- e)).
  assert (A' * scale (- e) <= A * scale (- e)) by (apply Z.mul_le_mono_nonneg_r; lia).
  lia.
Qed.

Lemma le_int_weaken (m e B B' : Z) : B <= B' -> le_int m e B -> le_int m e B'.
Proof.
  unfold le_int. intros HB H. pose proof (scale_pos (- e)).
  assert (B * scale (- e) <= B' * scale (- e)) by (apply Z.mul_le_mono_nonneg_r; lia).
  lia.
Qed.

Lemma between_weaken (prec A A' B B' : Z) (x : spec_float) :
  A' <= A -> B <= B' -> between prec A B x -> between prec A' B' x.
Proof.
  intros HA HB. destruct x as [s|s| |s m e]; try contradiction.
  destruct s; [contradiction|]. intros (Hn & Hge & Hle).
  split; [assumption|]. split; [eapply ge_int_weaken|eapply le_int_weaken]; eassumption.
Qed.

(** Adding a number between 0 and [B2] to one between [A] and [B1]. *)
Lemma SFadd_between (prec emax A B1 B2 : Z) (c x : spec_float) :
  0 < prec -> emin prec emax <= 1 - prec -> 1 <= emax - prec ->
  1 <= A -> 0 <= B2 -> B1 + B2 < 2 ^ prec ->
  between prec A B1 c -> upto B2 x ->
  between prec A (B1 + B2) (SFadd prec emax c x).
Proof.
  intros Hp He Hm HA HB2 HB Hc Hx.
  destruct c as [s|s| |s mc ec]; try contradiction.
  destruct s; [contradiction|].
  destruct x as [s|s| |s m e]; try contradiction; destruct s; try contradiction.
  - cbn [SFadd]. eapply between_weaken; [| |exact Hc]; lia.
  - destruct Hc as (_ & Hge & Hle). cbn [upto] in Hx. cbn [SFadd].
    destruct (shl_align_spec mc ec (Z.min ec e)) as [Hs1 Hm1].
    destruct (shl_align_spec m e (Z.min ec e)) as [Hs2 Hm2].
    cbn [cond_Zopp]. cbn [Z.add binary_normalize].
    apply binary_round_between; auto.
    + rewrite Pos2Z.inj_add. apply ge_int_add; [lia|].
      rewrite Hm1, Hs1. replace (Z.min ec (Z.min ec e)) with (Z.min ec e) by lia.
      replace (Z.min ec e) with (ec - (ec - Z.min ec e)) at 2 by lia.
      apply ge_int_shl; [lia|]. exact Hge.
    + rewrite Pos2Z.inj_add. apply le_int_add.
      * rewrite Hm1, Hs1. replace (Z.min ec (Z.min ec e)) with (Z.min ec e) by lia.
        replace (Z.min ec e) with (ec - (ec - Z.min ec e)) at 2 by lia.
        apply le_int_shl; [lia|]. exact Hle.
      * rewrite Hm2, Hs2. replace (Z.min e (Z.min ec e)) with (Z.min ec e) by lia.
        replace (Z.min ec e) with (e - (e - Z.min ec e)) at 2 by lia.
        apply le_int_shl; [lia|]. exact Hx.
Qed.

Lemma ge_int_sub (A B' m m' e : Z) :
  ge_int A m e -> le_int m' e B' -> ge_int (A - B') (m - m') e.
Proof. unfold ge_int, le_int. intros H H'. rewrite !Z.mul_sub_distr_r. lia. Qed.

Lemma le_int_sub (A' B m m' e : Z) :
  le_int m e B -> ge_int A' m' e -> le_int (m - m') e (B - A').
Proof. unfold ge_int, le_int. intros H H'. rewrite !Z.mul_sub_distr_r. lia. Qed.

(** Subtracting a number between [A2] and [B2] from a larger one between
    [A1] and [B1]. *)
Lemma SFsub_between (prec emax A1 B1 A2 B2 : Z) (x y : spec_float) :
  0 < prec -> emin prec emax <= 1 - prec -> 1 <= emax - prec ->
  B2 < A1 -> 0 <= A2 -> B1 < 2 ^ prec ->
  between prec A1 B1 x -> between prec A2 B2 y ->
  between prec (A1 - B2) (B1 - A2) (SFsub prec emax x y).
Proof.
  intros Hp He Hm HA HA2 HB Hx Hy.
  destruct x as [s|s| |s mx ex]; try contradiction.
  destruct s; [contradiction|].
  destruct y as [s|s| |s my ey]; try contradiction.
  destruct s; [contradiction|].
  destruct Hx as (_ & Hgx & Hlx). destruct Hy as (_ & Hgy & Hly).
  cbn [SFsub].
  destruct (shl_align_spec mx ex (Z.min ex ey)) as [Hs1 Hm1].
  destruct (shl_align_spec my ey (Z.min ex ey)) as [Hs2 Hm2].
  cbn [cond_Zopp].
  apply binary_normalize_between; auto; try lia.
  - apply ge_int_sub.
    + rewrite Hm1, Hs1. replace (Z.min ex (Z.min ex ey)) with (Z.min ex ey) by lia.
      replace (Z.min ex ey) with (ex - (ex - Z.min ex ey)) at 2 by lia.
      apply ge_int_shl; [lia|]. exact Hgx.
    + rewrite Hm2, Hs2. replace (Z.min ey (Z.min ex ey)) with (Z.min ex ey) by lia.
      replace (Z.min ex ey) with (ey - (ey - Z.min ex ey)) at 2 by lia.
      apply le_int_shl; [lia|]. exact Hly.
  - apply le_int_sub.
    + rewrite Hm1, Hs1. replace (Z.min ex (Z.min ex ey)) with (Z.min ex ey) by lia.
      replace (Z.min ex ey) with (ex - (ex - Z.min ex ey)) at 2 by lia.
      apply le_int_shl; [lia|]. exact Hlx.
    + rewrite Hm2, Hs2. replace (Z.min ey (Z.min ex ey)) with (Z.min ex ey) by lia.
      replace (Z.min ex ey) with (ey - (ey - Z.min ex ey)) at 2 by lia.
      apply ge_int_shl; [lia|]. exact Hgy.
Qed.

(** ** Comparisons of normal numbers *)

Lemma SFcompare_normal (prec : Z) (m1 m2 : positive) (e1 e2 N : Z) :
  0 < prec ->
  2 ^ (prec - 1) <= Zpos m1 < 2 ^ prec -> 2 ^ (prec - 1) <= Zpos m2 < 2 ^ prec ->
  0 <= N + e1 -> 0 <= N + e2 ->
  SFcompare (S754_finite false m1 e1) (S754_finite false m2 e2)
  = Some (Zpos m1 * 2 ^ (N + e1) ?= Zpos m2 * 2 ^ (N + e2)).
Proof.
  intros Hp H1 H2 HN1 HN2. cbn [SFcompare].
  assert (Hp1 : 0 < 2 ^ (N + e1)) by (apply Z.pow_pos_nonneg; lia).
  assert (Hp2 : 0 < 2 ^ (N + e2)) by (apply Z.pow_pos_nonneg; lia).
  assert (Hpp : 2 ^ prec = 2 ^ (prec - 1) * 2).
  { replace prec with ((prec - 1) + 1) at 1 by lia. now rewrite Z.pow_add_r by lia. }
  assert (Hlt : forall (a b : positive) (ea eb : Z),
             Zpos a < 2 ^ prec -> 2 ^ (prec - 1) <= Zpos b ->
             0 <= N + ea -> ea < eb ->
             Zpos a * 2 ^ (N + ea) < Zpos b * 2 ^ (N + eb)).
  { intros a b ea eb Ha Hb Hea Hab.
    assert (Hq : 0 < 2 ^ (N + ea)) by (apply Z.pow_pos_nonneg; lia).
    assert (Ka : Zpos a * 2 ^ (N + ea) < 2 ^ prec * 2 ^ (N + ea))
      by (apply Z.mul_lt_mono_pos_r; assumption).
    assert (Kb : 2 ^ (prec - 1) * 2 ^ (N + eb) <= Zpos b * 2 ^ (N + eb))
      by (apply Z.mul_le_mono_nonneg_r; [apply Z.pow_nonneg|]; lia).
    assert (Ke : 2 ^ (1 + (N + ea)) <= 2 ^ (N + eb)) by (apply Z.pow_le_mono_r; lia).
    rewrite Z.pow_add_r in Ke by lia. change (2 ^ 1) with 2 in Ke.
    assert (Kp : 0 < 2 ^ (prec - 1)) by (apply Z.pow_pos_nonneg; lia).
    assert (Km : 2 ^ (prec - 1) * (2 * 2 ^ (N + ea)) <= 2 ^ (prec - 1) * 2 ^ (N + eb))
      by (apply Z.mul_le_mono_nonneg_l; lia).
    rewrite Hpp in Ka.
    replace (2 ^ (prec - 1) * 2 * 2 ^ (N + ea))
      with (2 ^ (prec - 1) * (2 * 2 ^ (N + ea))) in Ka by ring.
    lia. }
  destruct (Z.compare_spec e1 e2) as [Heq|Hl|Hg].
  - subst e2. f_equal.
    rewrite <- (Zmult_compare_compat_r (Zpos m1) (Zpos m2) (2 ^ (N + e1))) by lia.
    reflexivity.
  - f_equal. symmetry. apply Z.compare_lt_iff. apply Hlt; lia.
  - f_equal. symmetry. apply Z.compare_gt_iff. apply Hlt; lia.
Qed.

(** The order of two numbers whose integer bounds are ordered. *)
Lemma between_compare (prec A1 B1 A2 B2 : Z) (x y : spec_float) :
  0 < prec -> between prec A1 B1 x -> between prec A2 B2 y ->
  (B1 < A2 -> SFcompare x y = Some Lt) /\
  (B2 < A1 -> SFcompare x y = Some Gt) /\
  (B1 <= A2 -> SFcompare x y = Some Lt \/ SFcompare x y = Some Eq) /\
  (B2 <= A1 -> SFcompare x y = Some Gt \/ SFcompare x y = Some Eq).
Proof.
  intros Hp Hx Hy.
  destruct x as [s|s| |s m1 e1]; try contradiction.
  destruct s; [contradiction|].
  destruct y as [s|s| |s m2 e2]; try contradiction.
  destruct s; [contradiction|].
  destruct Hx as (Hn1 & Hg1 & Hl1). destruct Hy as (Hn2 & Hg2 & Hl2).
  set (N := Z.abs e1 + Z.abs e2).
  rewrite (SFcompare_normal prec m1 m2 e1 e2 N) by (assumption || lia).
  apply (ge_int_offset _ _ _ N) in Hg1, Hg2; try lia.
  apply (le_int_offset _ _ _ N) in Hl1, Hl2; try lia.
  assert (HN : 0 < 2 ^ N) by (apply Z.pow_pos_nonneg; lia).
  clearbody N.
  set (X := Zpos m1 * 2 ^ (N + e1)) in *. set (Y := Zpos m2 * 2 ^ (N + e2)) in *.
  clearbody X Y.
  assert (Hmono : forall a b, a <= b -> a * 2 ^ N <= b * 2 ^ N)
    by (intros; apply Z.mul_le_mono_nonneg_r; lia).
  assert (Hsmono : forall a b, a < b -> a * 2 ^ N < b * 2 ^ N)
    by (intros; apply Z.mul_lt_mono_pos_r; lia).
  repeat split.
  - intros H. apply Hsmono in H. f_equal. apply Z.compare_lt_iff. lia.
  - intros H. apply Hsmono in H. f_equal. apply Z.compare_gt_iff. lia.
  - intros H. apply Hmono in H. destruct (Z.compare_spec X Y); auto; lia.
  - intros H. apply Hmono in H. destruct (Z.compare_spec X Y); auto; lia.
Qed.

(** ** The two formats *)

Lemma emin32_normal : emin prec32 emax32 <= 1 - prec32. Proof. discriminate. Qed.
Lemma emin64_normal : emin prec64 emax64 <= 1 - prec64. Proof. discriminate. Qed.
Lemma emax32_room : 1 <= emax32 - prec32. Proof. discriminate. Qed.
Lemma emax64_room : 1 <= emax64 - prec64. Proof. discriminate. Qed.

Lemma ge_int_refl (k : Z) : ge_int k k 0.
Proof. unfold ge_int. reflexivity. Qed.

Lemma le_int_refl (k : Z) : le_int k 0 k.
Proof. unfold le_int. reflexivity. Qed.

(** An [int] converted to either format. *)
Lemma float_of_int_between (k : Z) :
  1 <= k < 2 ^ 24 -> between prec32 k k (float_of_int k).
Proof.
  intros [Hl Hu]. apply binary_normalize_between;
    auto using prec32_pos, emin32_normal, emax32_room, ge_int_refl, le_int_refl.
Qed.

Lemma double_of_int_between (k : Z) :
  1 <= k < 2 ^ 53 -> between prec64 k k (double_of_int k).
Proof.
  intros [Hl Hu]. apply binary_normalize_between;
    auto using prec64_pos, emin64_normal, emax64_room, ge_int_refl, le_int_refl.
Qed.

Lemma double_of_float_between (A B : Z) (x : float) :
  1 <= A -> B < 2 ^ 53 -> between prec32 A B x -> between prec64 A B (double_of_float x).
Proof.
  intros HA HB. apply round_to_between;
    auto using prec64_pos, emin64_normal, emax64_room.
Qed.

Lemma float_of_double_between (A B : Z) (x : double) :
  1 <= A -> B < 2 ^ 24 -> between prec64 A B x -> between prec32 A B (float_of_double x).
Proof.
  intros HA HB. apply round_to_between;
    auto using prec32_pos, emin32_normal, emax32_room.
Qed.

(** ** Bounds of the readings *)

(** The noise term, promoted to [double], is at most its scale. *)
Lemma noise_upto (r es : Z) :
  0 <= r <= RAND_MAX -> -52 <= es <= -51 ->
  upto (2 ^ (es + 52))
       (double_of_float (random_noise r (S754_finite false 4503599627370496 es))).
Proof.
  intros Hr Hes. destruct (Z.eq_dec r 0) as [->|Hne].
  { assert (Hc : es = -52 \/ es = -51) by lia.
    destruct Hc as [->| ->]; vm_compute; exact I. }
  destruct (random_noise_exact r es ltac:(lia) Hes) as (m & e & _ & Hm & He & Hmax & ->).
  pose proof (Zdigits2_normal32 m Hm) as Hd.
  assert (Hprom : double_of_float (S754_finite false m (e + es + 21))
                  = S754_finite false (m * 536870912) (e + es - 8)).
  { unfold double_of_float. cbn [round_to].
    apply binary_round_exact; try reflexivity.
    - rewrite Hd. unfold fexp, emin, prec64, emax64. lia.
    - left. split; [lia|]. rewrite Pos2Z.inj_mul. f_equal.
      replace (e + es + 21 - (e + es - 8)) with 29 by lia. reflexivity.
    - unfold prec64, emax64. lia. }
  rewrite Hprom. cbn [upto].
  apply (le_int_offset _ _ _ 100); [lia|lia|].
  rewrite Pos2Z.inj_mul. change (Zpos 536870912) with (2 ^ 29).
  rewrite <- Z.mul_assoc, <- !Z.pow_add_r by lia.
  replace (es + 52 + 100) with ((31 - e) + (29 + (100 + (e + es - 8)))) by lia.
  rewrite (Z.pow_add_r 2 (31 - e)) by lia.
  apply Z.mul_le_mono_nonneg_r; [apply Z.pow_nonneg; lia|].
  destruct (Z.eq_dec e 8) as [->|He8].
  - rewrite Hmax by reflexivity. discriminate.
  - assert (2 ^ 24 <= 2 ^ (31 - e)) by (apply Z.pow_le_mono_r; lia). lia.
Qed.

Lemma trend_temperature_between (t : Z) :
  0 <= t <= 1000000 ->
  between prec64 (40 + 3 * t) (40 + 3 * t) (trend (double_of_int 40) (double_of_int 3) t).
Proof.
  intros Ht. rewrite trend_temperature by (unfold INT_MAX; lia).
  apply binary_normalize_between;
    auto using prec64_pos, emin64_normal, emax64_room, ge_int_refl, le_int_refl; try lia.
  change (2 ^ prec64) with 9007199254740992. lia.
Qed.

Lemma trend_vibration_between (t : Z) :
  0 <= t <= 1000000 ->
  between prec64 ((20 + 3 * t) / 2) ((21 + 3 * t) / 2)
          (trend (double_of_int 10) (double_lit 15 10) t).
Proof.
  intros Ht. rewrite trend_vibration by (unfold INT_MAX; lia).
  pose proof (Z.div_mod (20 + 3 * t) 2 ltac:(lia)) as Hdm.
  pose proof (Z.mod_pos_bound (20 + 3 * t) 2 ltac:(lia)) as Hmb.
  pose proof (Z.div_mod (21 + 3 * t) 2 ltac:(lia)) as Hdm'.
  pose proof (Z.mod_pos_bound (21 + 3 * t) 2 ltac:(lia)) as Hmb'.
  apply binary_normalize_between;
    auto using prec64_pos, emin64_normal, emax64_room; try lia.
  - change (2 ^ prec64) with 9007199254740992. lia.
  - unfold ge_int. change (scale (- -1)) with 2. change (scale (-1)) with 1. lia.
  - unfold le_int. change (scale (- -1)) with 2. change (scale (-1)) with 1. lia.
Qed.

(** Every reading lies between its trend and the trend plus the largest
    noise. *)
Lemma sense_between (env : Env) (t : Z) (r : nat) :
  0 <= rand_value env r <= RAND_MAX -> 0 <= rand_value env (S r) <= RAND_MAX ->
  0 <= t <= 1000000 ->
  between prec32 (40 + 3 * t) (42 + 3 * t) (temperature (sense env t r)) /\
  between prec32 ((20 + 3 * t) / 2) ((23 + 3 * t) / 2) (vibration (sense env t r)).
Proof.
  intros Hr1 Hr2 Ht. unfold sense. cbn [temperature vibration].
  pose proof (Z.div_mod (20 + 3 * t) 2 ltac:(lia)) as Hdm.
  pose proof (Z.mod_pos_bound (20 + 3 * t) 2 ltac:(lia)) as Hmb.
  pose proof (Z.div_mod (21 + 3 * t) 2 ltac:(lia)) as Hdm'.
  pose proof (Z.mod_pos_bound (21 + 3 * t) 2 ltac:(lia)) as Hmb'.
  pose proof (Z.div_mod (23 + 3 * t) 2 ltac:(lia)) as Hdm''.
  pose proof (Z.mod_pos_bound (23 + 3 * t) 2 ltac:(lia)) as Hmb''.
  split.
  - apply float_of_double_between; [lia|change (2 ^ 24) with 16777216; lia|].
    replace (42 + 3 * t) with ((40 + 3 * t) + 2) by lia.
    apply SFadd_between;
      auto using prec64_pos, emin64_normal, emax64_room, trend_temperature_between; try lia.
    + change (2 ^ prec64) with 9007199254740992. lia.
    + apply (noise_upto _ (-51)); lia.
  - apply float_of_double_between; [lia|change (2 ^ 24) with 16777216; lia|].
    apply (between_weaken _ ((20 + 3 * t) / 2) _ ((21 + 3 * t) / 2 + 1)); [lia|lia|].
    apply SFadd_between;
      auto using prec64_pos, emin64_normal, emax64_room, trend_vibration_between; try lia.
    + change (2 ^ prec64) with 9007199254740992. lia.
    + apply (noise_upto _ (-52)); lia.
Qed.

(** ** Comparisons with a threshold *)

Lemma gt_between (prec A B C : Z) (x c : spec_float) :
  0 < prec -> between prec A B x -> between prec C C c ->
  (C < A -> gt x c = true) /\ (B <= C -> gt x c = false).
Proof.
  intros Hp Hx Hc.
  destruct (between_compare prec C C A B c x Hp Hc Hx) as (Hlt & _ & _ & Hge).
  unfold gt, SFltb. split; intros H.
  - now rewrite Hlt.
  - destruct (Hge H) as [-> | ->]; reflexivity.
Qed.

Lemma lt_between (prec A B C : Z) (x c : spec_float) :
  0 < prec -> between prec A B x -> between prec C C c ->
  (B < C -> lt x c = true) /\ (C <= A -> lt x c = false).
Proof.
  intros Hp Hx Hc.
  destruct (between_compare prec A B C C x c Hp Hx Hc) as (Hlt & _ & _ & Hge).
  unfold lt, SFltb. split; intros H.
  - now rewrite Hlt.
  - destruct (Hge H) as [-> | ->]; reflexivity.
Qed.

Lemma le_between (prec A1 B1 A2 B2 : Z) (x y : spec_float) :
  0 < prec -> between prec A1 B1 x -> between prec A2 B2 y ->
  B1 <= A2 -> le x y = true.
Proof.
  intros Hp Hx Hy H.
  destruct (between_compare prec A1 B1 A2 B2 x y Hp Hx Hy) as (_ & _ & Hle & _).
  unfold le, SFleb. destruct (Hle H) as [-> | ->]; reflexivity.
Qed.

(** The status of a reading whose two measurements have known bounds. *)
Lemma classify_between (At Bt Av Bv : Z) (t v : float) :
  1 <= At -> Bt < 2 ^ 24 -> 1 <= Av -> Bv < 2 ^ 24 ->
  between prec32 At Bt t -> between prec32 Av Bv v ->
  (100 < At \/ 50 < Av -> classify t v = 2) /\
  (80 < At -> Bt <= 100 -> Bv <= 50 -> classify t v = 1) /\
  (Bt <= 80 -> Bv <= 50 -> classify t v = 0).
Proof.
  intros HAt HBt HAv HBv Ht Hv.
  assert (H53 : 2 ^ 24 < 2 ^ 53) by reflexivity.
  pose proof (double_of_float_between At Bt t HAt ltac:(lia) Ht) as Ht'.
  pose proof (double_of_float_between Av Bv v HAv ltac:(lia) Hv) as Hv'.
  assert (K100 : between prec64 100 100 CRITICAL_TEMP)
    by (apply double_of_int_between; split; [discriminate|reflexivity]).
  assert (K50 : between prec64 50 50 CRITICAL_VIBRATION)
    by (apply double_of_int_between; split; [discriminate|reflexivity]).
  assert (K80 : between prec64 80 80 (dmul CRITICAL_TEMP (double_lit 8 10)))
    by (rewrite warning_threshold; apply double_of_int_between; split; [discriminate|reflexivity]).
  destruct (gt_between _ _ _ _ _ _ prec64_pos Ht' K100) as [Hhot Hcool].
  destruct (gt_between _ _ _ _ _ _ prec64_pos Hv' K50) as [Hshaky Hcalm].
  destruct (gt_between _ _ _ _ _ _ prec64_pos Ht' K80) as [Hwarm Hcold].
  unfold classify. repeat split.
  - intros [H|H].
    + rewrite Hhot by assumption. reflexivity.
    + rewrite Hshaky by assumption. rewrite orb_true_r. reflexivity.
  - intros H1 H2 H3. rewrite Hcool, Hcalm, Hwarm by assumption. reflexivity.
  - intros H1 H2. rewrite Hcool, Hcalm, Hcold by lia. reflexivity.
Qed.

(** ** Readings and statuses by tick *)

Lemma read_sensors_between (env : Env) (t : Z) (w : World) :
  rand_in_range env -> 0 <= t <= 1000000 ->
  let data := fst (read_sensors env t w) in
  between prec32 (40 + 3 * t) (42 + 3 * t) (temperature data) /\
  between prec32 ((20 + 3 * t) / 2) ((23 + 3 * t) / 2) (vibration data).
Proof.
  intros Hrand Ht. rewrite read_sensors_sense. cbn [fst].
  apply sense_between; auto.
Qed.

(** X1. With [rand] in range, for every tick [t] from 0 to 1000000 the
    reading [read_sensors] returns has a temperature between [40 + 3t] and
    [42 + 3t] and a vibration between [10 + 1.5t] rounded down and
    [11 + 1.5t] rounded up: for these ticks, which include every tick a run
    reaches, the roundings of the sums do not take a reading outside the
    integers that enclose its trend and its noise.  The bound on [t] is
    part of the statement, and some bound is needed: a [float] has 24 bits,
    and at tick [INT_MAX] the temperature stored without noise is below
    [40 + 3t]. *)
Theorem readings_within_bounds :
  (forall (env : Env) (t : Z) (w : World),
      rand_in_range env -> 0 <= t <= 1000000 ->
      let data := fst (read_sensors env t w) in
      le (float_of_int (40 + 3 * t)) (temperature data) = true /\
      le (temperature data) (float_of_int (42 + 3 * t)) = true /\
      le (float_of_int ((20 + 3 * t) / 2)) (vibration data) = true /\
      le (vibration data) (float_of_int ((23 + 3 * t) / 2)) = true) /\
  lt (double_of_float (temperature (fst (read_sensors quiet_env INT_MAX empty_world))))
     (double_of_int (40 + 3 * INT_MAX)) = true.
Proof.
  split; [|vm_compute; reflexivity].
  intros env t w Hrand Ht data.
  destruct (read_sensors_between env t w Hrand Ht) as [Htemp Hvib].
  fold data in Htemp, Hvib.
  pose proof (Z.div_mod (20 + 3 * t) 2 ltac:(lia)) as Hdm.
  pose proof (Z.mod_pos_bound (20 + 3 * t) 2 ltac:(lia)) as Hmb.
  pose proof (Z.div_mod (23 + 3 * t) 2 ltac:(lia)) as Hdm'.
  pose proof (Z.mod_pos_bound (23 + 3 * t) 2 ltac:(lia)) as Hmb'.
  assert (H24 : 2 ^ 24 = 16777216) by reflexivity.
  repeat split.
  - eapply (le_between prec32); [apply prec32_pos| |exact Htemp|apply Z.le_refl].
    apply float_of_int_between. lia.
  - eapply (le_between prec32); [apply prec32_pos|exact Htemp| |apply Z.le_refl].
    apply float_of_int_between. lia.
  - eapply (le_between prec32); [apply prec32_pos| |exact Hvib|apply Z.le_refl].
    apply float_of_int_between. lia.
  - eapply (le_between prec32); [apply prec32_pos|exact Hvib| |apply Z.le_refl].
    apply float_of_int_between. lia.
Qed.


(** The status of the reading of tick [t]. *)
Lemma sense_status (env : Env) (t : Z) (r : nat) :
  rand_in_range env -> 1 <= t <= 1000000 ->
  let data := sense env t r in
  (t <= 12 -> status data = 0) /\
  (t = 13 -> status data = 0 \/ status data = 1) /\
  (14 <= t <= 19 -> status data = 1) /\
  (t = 20 -> status data = 1 \/ status data = 2) /\
  (21 <= t -> status data = 2).
Proof.
  intros Hrand Ht data.
  destruct (sense_between env t r (Hrand _) (Hrand _) ltac:(lia)) as [Htemp Hvib].
  fold data in Htemp, Hvib.
  pose proof (Z.div_mod (20 + 3 * t) 2 ltac:(lia)) as Hdm.
  pose proof (Z.mod_pos_bound (20 + 3 * t) 2 ltac:(lia)) as Hmb.
  pose proof (Z.div_mod (23 + 3 * t) 2 ltac:(lia)) as Hdm'.
  pose proof (Z.mod_pos_bound (23 + 3 * t) 2 ltac:(lia)) as Hmb'.
  assert (H24 : 2 ^ 24 = 16777216) by reflexivity.
  destruct (classify_between (40 + 3 * t) (42 + 3 * t)
                             ((20 + 3 * t) / 2) ((23 + 3 * t) / 2) _ _
                             ltac:(lia) ltac:(lia) ltac:(lia) ltac:(lia)
                             Htemp Hvib) as (Hcrit & Hwarn & Hok).
  assert (H53 : 2 ^ 53 = 9007199254740992) by reflexivity.
  pose proof (double_of_float_between (40 + 3 * t) (42 + 3 * t) _
                ltac:(lia) ltac:(lia) Htemp) as Ht'.
  pose proof (double_of_float_between ((20 + 3 * t) / 2) ((23 + 3 * t) / 2) _
                ltac:(lia) ltac:(lia) Hvib) as Hv'.
  assert (K100 : between prec64 100 100 CRITICAL_TEMP)
    by (apply double_of_int_between; split; [discriminate|reflexivity]).
  assert (K50 : between prec64 50 50 CRITICAL_VIBRATION)
    by (apply double_of_int_between; split; [discriminate|reflexivity]).
  assert (K80 : between prec64 80 80 (dmul CRITICAL_TEMP (double_lit 8 10)))
    by (rewrite warning_threshold; apply double_of_int_between;
        split; [discriminate|reflexivity]).
  destruct (gt_between _ _ _ _ _ _ prec64_pos Ht' K100) as [_ Hcool].
  destruct (gt_between _ _ _ _ _ _ prec64_pos Hv' K50) as [_ Hcalm].
  destruct (gt_between _ _ _ _ _ _ prec64_pos Ht' K80) as [Hwarm _].
  change (status data) with (classify (temperature data) (vibration data)).
  repeat split.
  - intros H. apply Hok; lia.
  - intros H. unfold classify. rewrite Hcool, Hcalm by lia. cbn [orb].
    destruct (gt _ (dmul _ _)); [right|left]; reflexivity.
  - intros H. apply Hwarn; lia.
  - intros H. unfold classify. rewrite Hwarm by lia.
    destruct (_ || _); [right|left]; reflexivity.
  - intros H. apply Hcrit. lia.
Qed.

(** A run of the loop under the contract of [rand]: the number of ticks
    and what the invariant of the loop says about them. *)
Lemma run_ticks (env : Env) (w : World) (fuel : nat) (st' : LoopState) (w' : World) :
  rand_in_range env ->
  main_loop env fuel initial_state w = Some (st', w') ->
  exists n : nat,
    (20 <= n <= 21)%nat /\ (n <= fuel)%nat /\
    time_step st' = Z.of_nat n /\
    (forall j, (1 <= j < n)%nat -> status (reading_at env 0 (rand_calls w) j) <> 2) /\
    status (reading_at env 0 (rand_calls w) n) = 2 /\
    log_file w' = (log_file w ++ run_rows env n 0 (rand_calls w) (fopen_calls w))%list /\
    console w' =
      (console w ++ run_console env n 0 (rand_calls w) (fopen_calls w)
                                (prev_data initial_state))%list /\
    rand_calls w' = (rand_calls w + 2 * n)%nat /\
    fopen_calls w' = (fopen_calls w + n)%nat /\
    slept w' = slept w + Z.of_nat n - 1.
Proof.
  intros Hrand Hrun.
  destruct (main_loop_inv env fuel _ _ _ _ Hrun)
    as (n & Hn & Ht & Hbefore & Hat & Hrest).
  cbn [time_step initial_state] in Ht, Hbefore, Hat, Hrest.
  exists n. split; [|split; [lia|split; [lia|split; [assumption|split; assumption]]]].
  assert (Hst : forall j : nat, (1 <= j <= 21)%nat ->
            let data := reading_at env 0 (rand_calls w) j in
            ((j <= 12)%nat -> status data = 0) /\
            (j = 13%nat -> status data = 0 \/ status data = 1) /\
            ((14 <= j <= 19)%nat -> status data = 1) /\
            ((21 <= j)%nat -> status data = 2)).
  { intros j Hj data.
    destruct (sense_status env (0 + Z.of_nat j) (rand_calls w + 2 * (j - 1)) Hrand
                ltac:(lia)) as (H1 & H2 & H3 & _ & H5).
    fold (reading_at env 0 (rand_calls w) j) in H1, H2, H3, H5. fold data in H1, H2, H3, H5.
    repeat split; intros; (apply H1 || apply H2 || apply H3 || apply H5); lia. }
  destruct (Nat.le_gt_cases n 19) as [Hsmall|Hbig].
  - exfalso. destruct (Hst n ltac:(lia)) as (H1 & H2 & H3 & _). cbv zeta in H1, H2, H3.
    destruct (Nat.le_gt_cases n 12); [rewrite H1 in Hat by lia; discriminate|].
    destruct (Nat.eq_dec n 13) as [H13|H13];
      [destruct (H2 H13) as [E|E]; rewrite E in Hat; discriminate|].
    rewrite H3 in Hat by lia. discriminate.
  - split; [lia|].
    destruct (Nat.le_gt_cases n 21) as [|Hlate]; [assumption|exfalso].
    destruct (Hst 21%nat ltac:(lia)) as (_ & _ & _ & H5).
    apply (Hbefore 21%nat); [lia|]. apply H5. lia.
Qed.

(** X3. With [rand] in range, a run of the loop that ends has executed
    20 or 21 ticks and has slept one second after each of them but the
    last.  Without noise it takes 21 ticks, with the largest noise 20. *)
Theorem run_takes_20_or_21_ticks :
  (forall (env : Env) (w : World) (fuel : nat) (st' : LoopState) (w' : World),
      rand_in_range env ->
      main_loop env fuel initial_state w = Some (st', w') ->
      (time_step st' = 20 \/ time_step st' = 21) /\
      slept w' = slept w + time_step st' - 1) /\
  (exists st' w',
      main_loop quiet_env 21 initial_state empty_world = Some (st', w') /\
      time_step st' = 21) /\
  (exists st' w',
      main_loop noisy_env 21 initial_state empty_world = Some (st', w') /\
      time_step st' = 20).
Proof.
  split; [|split].
  - intros env w fuel st' w' Hrand Hrun.
    destruct (run_ticks env w fuel st' w' Hrand Hrun)
      as (n & Hn & _ & Ht & _ & _ & _ & _ & _ & _ & Hs).
    split; lia.
  - eexists _, _. split; [vm_compute; reflexivity|reflexivity].
  - eexists _, _. split; [vm_compute; reflexivity|reflexivity].
Qed.

(** X4. With [rand] in range the loop is stopped by the temperature:
    the temperature of the last tick is above [CRITICAL_TEMP], that of no
    earlier tick is, and in no tick of the run is the vibration above
    [CRITICAL_VIBRATION]. *)
Theorem halt_is_caused_by_temperature :
  forall (env : Env) (w : World) (fuel : nat) (st' : LoopState) (w' : World),
    rand_in_range env ->
    main_loop env fuel initial_state w = Some (st', w') ->
    exists n : nat,
      time_step st' = Z.of_nat n /\
      gt (double_of_float (temperature (reading_at env 0 (rand_calls w) n)))
         CRITICAL_TEMP = true /\
      (forall j, (1 <= j < n)%nat ->
         gt (double_of_float (temperature (reading_at env 0 (rand_calls w) j)))
            CRITICAL_TEMP = false) /\
      (forall j, (1 <= j <= n)%nat ->
         gt (double_of_float (vibration (reading_at env 0 (rand_calls w) j)))
            CRITICAL_VIBRATION = false).
Proof.
  intros env w fuel st' w' Hrand Hrun.
  destruct (run_ticks env w fuel st' w' Hrand Hrun)
    as (n & Hn & _ & Ht & Hbefore & Hat & _).
  exists n. split; [assumption|].
  assert (Hcalm : forall j, (1 <= j <= n)%nat ->
            gt (double_of_float (vibration (reading_at env 0 (rand_calls w) j)))
               CRITICAL_VIBRATION = false).
  { intros j Hj. unfold reading_at.
    destruct (sense_between env (0 + Z.of_nat j) (rand_calls w + 2 * (j - 1))
                (Hrand _) (Hrand _) ltac:(lia)) as [_ Hvib].
    set (t := 0 + Z.of_nat j) in *.
    pose proof (Z.div_mod (20 + 3 * t) 2 ltac:(lia)) as Hdm.
    pose proof (Z.mod_pos_bound (20 + 3 * t) 2 ltac:(lia)) as Hmb.
    pose proof (Z.div_mod (23 + 3 * t) 2 ltac:(lia)) as Hdm'.
    pose proof (Z.mod_pos_bound (23 + 3 * t) 2 ltac:(lia)) as Hmb'.
    assert (H53 : 2 ^ 53 = 9007199254740992) by reflexivity.
    pose proof (double_of_float_between ((20 + 3 * t) / 2) ((23 + 3 * t) / 2) _
                  ltac:(lia) ltac:(lia) Hvib) as Hv'.
    assert (K50 : between prec64 50 50 CRITICAL_VIBRATION)
      by (apply double_of_int_between; split; [discriminate|reflexivity]).
    destruct (gt_between _ _ _ _ _ _ prec64_pos Hv' K50) as [_ Hc].
    apply Hc. lia. }
  split; [|split; [|assumption]].
  - change (status (reading_at env 0 (rand_calls w) n))
      with (classify (temperature (reading_at env 0 (rand_calls w) n))
                     (vibration (reading_at env 0 (rand_calls w) n))) in Hat.
    unfold classify in Hat. rewrite (Hcalm n) in Hat by lia.
    rewrite orb_false_r in Hat.
    destruct (gt (double_of_float (temperature _)) CRITICAL_TEMP); [reflexivity|].
    destruct (gt _ (dmul _ _)); discriminate.
  - intros j Hj. specialize (Hbefore j Hj).
    change (status (reading_at env 0 (rand_calls w) j))
      with (classify (temperature (reading_at env 0 (rand_calls w) j))
                     (vibration (reading_at env 0 (rand_calls w) j))) in Hbefore.
    unfold classify in Hbefore.
    destruct (gt (double_of_float (temperature _)) CRITICAL_TEMP); [|reflexivity].
    now cbn [orb] in Hbefore.
Qed.

(** The temperature rises by 1 to 5 degrees from one tick to the next. *)
Lemma rate_between (env : Env) (t : Z) (r r' : nat) :
  rand_in_range env -> 0 <= t < 1000000 ->
  between prec32 1 5
    (fsub (temperature (sense env (t + 1) r')) (temperature (sense env t r))).
Proof.
  intros Hrand Ht.
  destruct (sense_between env t r (Hrand _) (Hrand _) ltac:(lia)) as [Hprev _].
  destruct (sense_between env (t + 1) r' (Hrand _) (Hrand _) ltac:(lia)) as [Hcur _].
  replace 1 with ((40 + 3 * (t + 1)) - (42 + 3 * t)) at 1 by lia.
  replace 5 with ((42 + 3 * (t + 1)) - (40 + 3 * t)) by lia.
  apply SFsub_between; auto using prec32_pos, emin32_normal, emax32_room; try lia.
  change (2 ^ prec32) with 16777216. lia.
Qed.

Lemma positive_not_le_zero (prec A B : Z) (x : spec_float) :
  between prec A B x -> le x (float_of_int 0) = false.
Proof.
  destruct x as [s|s| |s m e]; try contradiction.
  destruct s; [contradiction|]. reflexivity.
Qed.

(** X5. From one tick to the next the temperature rises by at least 1
    and at most 5 degrees whatever the noise.  Given two consecutive
    readings the predictor therefore never reports a stable machine: it
    prints the trend line, followed by the alert or by the safe-operation
    message. *)
Theorem predictor_sees_rising_temperature :
  forall (env : Env) (t : Z) (r r' : nat),
    rand_in_range env -> 0 <= t < 1000000 ->
    let prev := sense env t r in
    let cur := sense env (t + 1) r' in
    let rate := fsub (temperature cur) (temperature prev) in
    le (float_of_int 1) rate = true /\
    le rate (float_of_int 5) = true /\
    predictor_verdict cur prev <> Stable /\
    forall w, exists steps,
      predict_failure cur prev w
      = add_console (verdict_output (Urgent rate steps)) w \/
      predict_failure cur prev w
      = add_console (verdict_output (SafeFor rate steps)) w.
Proof.
  intros env t r r' Hrand Ht prev cur rate.
  pose proof (rate_between env t r r' Hrand Ht) as Hrate. fold prev cur rate in Hrate.
  assert (Hnot : le rate (float_of_int 0) = false)
    by (eapply positive_not_le_zero; exact Hrate).
  split; [|split; [|split]].
  - eapply (le_between prec32); [apply prec32_pos| |exact Hrate|apply Z.le_refl].
    apply float_of_int_between. split; [discriminate|reflexivity].
  - eapply (le_between prec32); [apply prec32_pos|exact Hrate| |apply Z.le_refl].
    apply float_of_int_between. split; [discriminate|reflexivity].
  - unfold predictor_verdict. fold rate. rewrite Hnot.
    destruct (lt _ _); discriminate.
  - intros w. rewrite predict_failure_as_verdict.
    unfold predictor_verdict. fold rate. rewrite Hnot.
    exists (projected_steps cur rate). destruct (lt _ _); auto.
Qed.

(** ** The dashboard *)

(** Everything [print_dashboard] sends to the console, in order. *)
Lemma dashboard_output_eq (data : SensorData) :
  dashboard_output data
  = ([System "clear";
      Printf ("====================================================" ++ NL) [];
      Printf ("  SENTIN-L | INDUSTRIAL MONITORING SYSTEM (IoT)" ++ NL) [];
      Printf ("====================================================" ++ NL) [];
      Printf ("  SENSOR READINGS:" ++ NL) [];
      Printf "  [+] Temperature : %.2f C  " [ADouble (double_of_float (temperature data))];
      (if lt (temperature data) (float_of_int 60) then Printf ("[====      ]" ++ NL) []
       else if lt (temperature data) (float_of_int 90) then Printf ("[========  ]" ++ NL) []
            else Printf ("[==========] !!!" ++ NL) []);
      Printf ("  [+] Vibration   : %.2f Hz " ++ NL) [ADouble (double_of_float (vibration data))];
      Printf ("----------------------------------------------------" ++ NL) [];
      Printf "  SYSTEM STATUS   : " []]
     ++ (if status data =? 0 then [Printf ("NORMAL [ OK ]" ++ NL) []] else [])
     ++ (if status data =? 1 then [Printf ("WARNING [ ! ]" ++ NL) []] else [])
     ++ (if status data =? 2 then [Printf ("CRITICAL [ X ]" ++ NL) []] else [])
     ++ [Printf ("====================================================" ++ NL) []])%list.
Proof.
  unfold dashboard_output, print_dashboard.
  destruct (lt (temperature data) (float_of_int 60));
    [|destruct (lt (temperature data) (float_of_int 90))];
    destruct (status data =? 0); destruct (status data =? 1);
    destruct (status data =? 2); reflexivity.
Qed.

(** ** Events on the console *)

Lemma count_app (p : Output -> bool) (a b : list Output) :
  count p (a ++ b) = (count p a + count p b)%nat.
Proof. unfold count. now rewrite filter_app, length_app. Qed.

Lemma predict_output_verdict (current previous : SensorData) :
  predict_output current previous = verdict_output (predictor_verdict current previous).
Proof.
  unfold predict_output. rewrite predict_failure_as_verdict. reflexivity.
Qed.

Lemma dashboard_counts (data : SensorData) :
  count is_clear (dashboard_output data) = 1%nat /\
  count is_banner (dashboard_output data) = 0%nat /\
  count is_halt (dashboard_output data) = 0%nat /\
  count is_error (dashboard_output data) = 0%nat.
Proof.
  rewrite dashboard_output_eq.
  destruct (lt (temperature data) (float_of_int 60));
    [|destruct (lt (temperature data) (float_of_int 90))];
    destruct (status data =? 0); destruct (status data =? 1);
    destruct (status data =? 2); repeat split; reflexivity.
Qed.

Lemma predict_counts (current previous : SensorData) :
  count is_clear (predict_output current previous) = 0%nat /\
  count is_banner (predict_output current previous) = 1%nat /\
  count is_halt (predict_output current previous) = 0%nat /\
  count is_error (predict_output current previous) = 0%nat.
Proof.
  rewrite predict_output_verdict.
  destruct (predictor_verdict current previous); repeat split; reflexivity.
Qed.

Lemma failed_count_step (env : Env) (f n : nat) :
  failed_count env f (S n)
  = ((if fopen_ok env f then 0 else 1) + failed_count env (S f) n)%nat.
Proof.
  unfold failed_count. cbn [seq filter].
  destruct (fopen_ok env f); reflexivity.
Qed.

Lemma reading_at_shift (env : Env) (t : Z) (r j : nat) :
  (1 <= j)%nat ->
  reading_at env (t + 1) (S (S r)) j = reading_at env t r (S j).
Proof.
  intros Hj. unfold reading_at. f_equal; lia.
Qed.

Lemma reading_at_first (env : Env) (t : Z) (r : nat) :
  reading_at env t r 1 = sense env (t + 1) r.
Proof. unfold reading_at. f_equal; lia. Qed.

Section Counting.

Variable env : Env.
Variable p : Output -> bool.
Variables cd cp ce ch : nat.
Hypothesis Hcd : forall data, count p (dashboard_output data) = cd.
Hypothesis Hcp : forall cur prev, count p (predict_output cur prev) = cp.
Hypothesis Hce : count p error_output = ce.
Hypothesis Hch : count p halt_output = ch.

Lemma count_tick (t : Z) (opened : bool) (cur prev : SensorData) :
  count p (tick_console t opened cur prev)
  = ((if opened then 0 else ce) + cd + (if (1 <? t)%Z then cp else 0)
     + (if (status cur =? 2)%Z then ch else 0))%nat.
Proof.
  unfold tick_console. rewrite !count_app, Hcd.
  destruct opened; destruct (1 <? t); destruct (status cur =? 2);
    rewrite ?Hcp, ?Hce, ?Hch; cbn [count filter List.length]; lia.
Qed.

(** The events of [n] iterations of which the last one, and no other,
    reads a CRITICAL status. *)
Lemma count_run (n : nat) :
  forall (t : Z) (r f : nat) (prev : SensorData),
    0 <= t -> (1 <= n)%nat ->
    (forall j, (1 <= j < n)%nat -> status (reading_at env t r j) <> 2) ->
    status (reading_at env t r n) = 2 ->
    (count p (run_console env n t r f prev) + (if (1 <=? t)%Z then 0 else cp)
     = failed_count env f n * ce + n * cd + n * cp + ch)%nat.
Proof.
  induction n as [|n IH]; intros t r f prev Ht Hn Hbefore Hat; [lia|].
  cbn [run_console]. rewrite count_app, count_tick, failed_count_step.
  replace (1 <? t + 1) with (1 <=? t)
    by (destruct (1 <=? t) eqn:E1; destruct (1 <? t + 1) eqn:E2; lia).
  destruct n as [|n].
  - rewrite reading_at_first in Hat. rewrite Hat.
    cbn [run_console count filter List.length failed_count seq].
    change (2 =? 2) with true. cbv iota.
    destruct (fopen_ok env f); destruct (1 <=? t); lia.
  - assert (Hfirst : status (sense env (t + 1) r) <> 2).
    { rewrite <- reading_at_first. apply Hbefore. lia. }
    apply Z.eqb_neq in Hfirst. rewrite Hfirst.
    specialize (IH (t + 1) (S (S r)) (S f) (sense env (t + 1) r)
                   ltac:(lia) ltac:(lia)).
    assert (H1 : (1 <=? t + 1) = true) by lia. rewrite H1 in IH.
    rewrite Nat.add_0_r in IH. rewrite IH.
    + destruct (fopen_ok env f); destruct (1 <=? t); lia.
    + intros j Hj. rewrite reading_at_shift by lia. apply Hbefore. lia.
    + rewrite reading_at_shift by lia. exact Hat.
Qed.

End Counting.

(** The last thing an iteration with a CRITICAL reading prints. *)
Lemma run_console_ends (env : Env) (n : nat) :
  forall (t : Z) (r f : nat) (prev : SensorData),
    (1 <= n)%nat -> status (reading_at env t r n) = 2 ->
    exists before, run_console env n t r f prev = (before ++ halt_output)%list.
Proof.
  induction n as [|n IH]; intros t r f prev Hn Hat; [lia|].
  cbn [run_console]. destruct n as [|n].
  - rewrite reading_at_first in Hat. unfold tick_console. rewrite Hat.
    cbn [run_console Z.eqb]. rewrite app_nil_r.
    eexists. rewrite !app_assoc. reflexivity.
  - destruct (IH (t + 1) (S (S r)) (S f) (sense env (t + 1) r) ltac:(lia)) as [before Hb].
    { rewrite reading_at_shift by lia. exact Hat. }
    rewrite Hb. eexists. rewrite app_assoc. reflexivity.
Qed.

(** X7. The console of a run of the loop that ends after [n] ticks,
    for any behaviour of [rand] and [fopen]: the screen is cleared [n]
    times, the predictor has printed its banner [n - 1] times, the error
    message of the logger appears once for each [fopen] that failed, and the
    halt message appears once, as the last thing printed. *)
Theorem console_of_a_run :
  forall (env : Env) (w : World) (fuel : nat) (st' : LoopState) (w' : World),
    main_loop env fuel initial_state w = Some (st', w') ->
    exists (out before : list Output) (n : nat),
      console w' = (console w ++ out)%list /\
      time_step st' = Z.of_nat n /\
      out = (before ++ halt_output)%list /\
      count is_clear out = n /\
      S (count is_banner out) = n /\
      count is_halt out = 1%nat /\
      count is_error out = failed_count env (fopen_calls w) n.
Proof.
  intros env w fuel st' w' Hrun.
  destruct (main_loop_inv env fuel _ _ _ _ Hrun)
    as (n & Hn & Ht & Hbefore & Hat & _ & Hcons & _).
  cbn [time_step initial_state] in Ht, Hbefore, Hat, Hcons.
  destruct (run_console_ends env n 0 (rand_calls w) (fopen_calls w)
              (prev_data initial_state) ltac:(lia) Hat) as [before Hends].
  exists (run_console env n 0 (rand_calls w) (fopen_calls w) (prev_data initial_state)),
         before, n.
  split; [assumption|]. split; [lia|]. split; [assumption|].
  pose proof (fun p cd cp ce ch Hcd Hcp Hce Hch =>
                count_run env p cd cp ce ch Hcd Hcp Hce Hch n 0 (rand_calls w)
                          (fopen_calls w) (prev_data initial_state)
                          ltac:(lia) ltac:(lia) Hbefore Hat) as Hcount.
  cbn [Z.leb Z.compare] in Hcount.
  repeat split.
  - specialize (Hcount is_clear 1%nat 0%nat 0%nat 0%nat
                       (fun d => proj1 (dashboard_counts d))
                       (fun c q => proj1 (predict_counts c q)) eq_refl eq_refl).
    lia.
  - specialize (Hcount is_banner 0%nat 1%nat 0%nat 0%nat
                       (fun d => proj1 (proj2 (dashboard_counts d)))
                       (fun c q => proj1 (proj2 (predict_counts c q))) eq_refl eq_refl).
    lia.
  - specialize (Hcount is_halt 0%nat 0%nat 0%nat 1%nat
                       (fun d => proj1 (proj2 (proj2 (dashboard_counts d))))
                       (fun c q => proj1 (proj2 (proj2 (predict_counts c q))))
                       eq_refl eq_refl).
    lia.
  - specialize (Hcount is_error 0%nat 0%nat 1%nat 0%nat
                       (fun d => proj2 (proj2 (proj2 (dashboard_counts d))))
                       (fun c q => proj2 (proj2 (proj2 (predict_counts c q))))
                       eq_refl eq_refl).
    lia.
Qed.

(** ** A finished run of [main] *)

(** X8. A run of [main] that ends after the header has been written
    returns 0.  With [n] the number of ticks, it has called [rand] [2n]
    times and [fopen] [n + 1] times, has slept [n] seconds, and leaves a log
    file of one line more than the number of [fopen]s of the loop that
    succeeded.  Its console shows the two boot messages, the output of the
    ticks, the halt message and the message that names the data file.  With
    [rand] in range [n] is 20 or 21. *)
Theorem finished_run_of_main :
  forall (env : Env) (fuel : nat) (w : World) (out : Outcome),
    main env fuel w = Some out ->
    fopen_ok env (fopen_calls w) = true ->
    exists (w' : World) (n : nat) (ticks : list Output),
      out = Exit 0 w' /\ (1 <= n <= fuel)%nat /\
      rand_calls w' = (rand_calls w + 2 * n)%nat /\
      fopen_calls w' = (fopen_calls w + 1 + n)%nat /\
      slept w' = slept w + Z.of_nat n /\
      List.length (log_file w') = (1 + opened_count env (S (fopen_calls w)) n)%nat /\
      console w'
      = (console w
         ++ [Printf ("Booting Sentin-L System..." ++ NL) [];
             Printf ("Connecting to IoT Sensors..." ++ NL) []]
         ++ ticks ++ halt_output
         ++ [Printf (NL ++ "Session Data saved to '%s'." ++ NL) [AStr DATA_FILE]])%list /\
      (rand_in_range env -> (20 <= n <= 21)%nat).
Proof.
  intros env fuel w out Hmain Hopen.
  rewrite main_startup in Hmain by assumption.
  destruct (main_loop env fuel initial_state (startup_world w)) as [[st' w']|] eqn:Hrun;
    [|discriminate].
  injection Hmain as <-.
  destruct (main_loop_inv env fuel _ _ _ _ Hrun)
    as (n & Hn & Ht & _ & Hat & Hfile & Hcons & Hr & Hf & Hs).
  change (time_step initial_state) with 0 in Ht, Hat, Hfile, Hcons.
  cbn [startup_world log_file console rand_calls fopen_calls slept]
    in Ht, Hat, Hfile, Hcons, Hr, Hf, Hs.
  destruct (run_console_ends env n 0 (rand_calls w) (S (fopen_calls w))
              (prev_data initial_state) ltac:(lia) Hat) as [ticks Hends].
  eexists _, n, ticks. split; [reflexivity|]. split; [assumption|].
  unfold printf. cbn [log_file console rand_calls fopen_calls slept].
  split; [assumption|]. split; [lia|]. split; [lia|]. split; [|split].
  - rewrite Hfile. cbn [app List.length]. now rewrite run_rows_length.
  - rewrite Hcons, Hends, <- !app_assoc. reflexivity.
  - intros Hrand.
    destruct (run_ticks env _ fuel st' w' Hrand Hrun) as (n' & Hn' & _ & Ht' & _).
    lia.
Qed.

(** ** Readings that are not numbers *)

Lemma is_nan_eq (x : spec_float) : is_nan x = true -> x = S754_nan.
Proof. destruct x; try discriminate. reflexivity. Qed.

Lemma fsub_nan (x y : float) :
  is_nan x = true \/ is_nan y = true -> fsub x y = S754_nan.
Proof.
  intros [H|H]; apply is_nan_eq in H; subst.
  - reflexivity.
  - now destruct x.
Qed.

Lemma projected_steps_nan (current : SensorData) :
  projected_steps current S754_nan = S754_nan.
Proof.
  unfold projected_steps.
  destruct (float_of_double (dsub CRITICAL_TEMP (double_of_float (temperature current))));
    reflexivity.
Qed.

(** X9. A temperature that is not a number.  When the temperature of
    either reading given to the predictor is a NaN, every comparison of the
    predictor is false and it prints the safe-operation message, with a NaN
    rate and a NaN number of seconds.  A reading with such a temperature is
    classified OK unless its vibration is critical, and its dashboard shows
    the full bar. *)
Theorem nan_temperature_is_reported_safe :
  forall (current previous : SensorData) (w : World) (d : Output),
    is_nan (temperature current) = true \/ is_nan (temperature previous) = true ->
    predictor_verdict current previous = SafeFor S754_nan S754_nan /\
    predict_failure current previous w
    = add_console
        [banner_output; trend_output S754_nan;
         Printf ("   >> PREDICTION: Safe operation for next %.0f seconds." ++ NL)
                [ADouble S754_nan]] w /\
    (is_nan (temperature current) = true ->
     classify (temperature current) (vibration current)
     = (if gt (double_of_float (vibration current)) CRITICAL_VIBRATION then 2 else 0) /\
     nth 6 (dashboard_output current) d = Printf ("[==========] !!!" ++ NL) []).
Proof.
  intros current previous w d Hnan.
  assert (Hv : predictor_verdict current previous = SafeFor S754_nan S754_nan).
  { unfold predictor_verdict. rewrite (fsub_nan _ _ Hnan), projected_steps_nan.
    reflexivity. }
  split; [exact Hv|]. split.
  - rewrite predict_failure_as_verdict, Hv. reflexivity.
  - intros H. apply is_nan_eq in H. split.
    + unfold classify. rewrite H. cbn [double_of_float round_to].
      change (gt S754_nan CRITICAL_TEMP) with false.
      change (gt S754_nan (dmul CRITICAL_TEMP (double_lit 8 10))) with false.
      cbn [orb]. reflexivity.
    + rewrite dashboard_output_eq. cbn [app nth]. rewrite H. reflexivity.
Qed.

(** ** Bounds of a quotient *)

(** A normal number between 1 and [2^prec]: its exponent and mantissa. *)
Lemma between_normal (prec A B : Z) (m : positive) (e : Z) :
  0 < prec -> 1 <= A -> B < 2 ^ prec ->
  between prec A B (S754_finite false m e) ->
  Zdigits2 (Zpos m) = prec /\ 1 - prec <= e <= 0 /\
  A * 2 ^ (- e) <= Zpos m <= B * 2 ^ (- e).
Proof.
  intros Hp HA HB (Hn & Hg & Hl).
  assert (Hd : Zdigits2 (Zpos m) = prec) by (apply Zdigits2_unique; [exact Hn|lia]).
  pose proof (magnitude_bounds prec Hp A B m e HA HB Hg Hl) as Hmag.
  rewrite Hd in Hmag.
  split; [exact Hd|]. split; [lia|].
  apply (ge_int_offset _ _ _ (- e)) in Hg; [|lia|lia].
  apply (le_int_offset _ _ _ (- e)) in Hl; [|lia|lia].
  replace (- e + e) with 0 in * by lia. rewrite Z.pow_0_r, Z.mul_1_r in *. lia.
Qed.

Lemma pow2_succ (n : Z) : 0 < n -> 2 ^ n = 2 * 2 ^ (n - 1).
Proof.
  intros Hn. replace n with (1 + (n - 1)) at 1 by lia.
  now rewrite Z.pow_add_r by lia.
Qed.

(** The number [pack] builds from a normal, or just overflown, mantissa. *)
Lemma pack_between (prec emax A B m_r E : Z) :
  0 < prec -> E + 1 <= emax - prec -> E <= 0 ->
  2 ^ (prec - 1) <= m_r <= 2 ^ prec ->
  A * 2 ^ (- E) <= m_r <= B * 2 ^ (- E) ->
  between prec A B (pack prec emax false m_r E).
Proof.
  intros Hp Hemax HE Hm Hv.
  assert (H2p : 0 < 2 ^ (prec - 1)) by (apply Z.pow_pos_nonneg; lia).
  pose proof (pow2_succ prec Hp) as Hpp.
  unfold pack. destruct m_r as [|q|q]; try lia.
  destruct (Z.pos q =? 2 ^ prec) eqn:Hc.
  - apply Z.eqb_eq in Hc. rewrite (proj2 (Z.leb_le _ _)) by lia.
    cbn [between]. rewrite Z2Pos.id by lia.
    split; [lia|]. split.
    + apply (ge_int_offset _ _ _ (- E)); [lia|lia|].
      replace (- E + (E + 1)) with 1 by lia. change (2 ^ 1) with 2. lia.
    + apply (le_int_offset _ _ _ (- E)); [lia|lia|].
      replace (- E + (E + 1)) with 1 by lia. change (2 ^ 1) with 2. lia.
  - apply Z.eqb_neq in Hc. rewrite (proj2 (Z.leb_le _ _)) by lia.
    cbn [between]. split; [lia|]. split.
    + apply (ge_int_offset _ _ _ (- E)); [lia|lia|].
      replace (- E + E) with 0 by lia. rewrite Z.pow_0_r. lia.
    + apply (le_int_offset _ _ _ (- E)); [lia|lia|].
      replace (- E + E) with 0 by lia. rewrite Z.pow_0_r. lia.
Qed.

Lemma new_location_exact (n : Z) : new_location n 0 = loc_Exact.
Proof.
  unfold new_location, new_location_even, new_location_odd.
  destruct (Z.even n); reflexivity.
Qed.

(** The quotient of two normal numbers that lie between 1 and [2^prec]:
    every integer [L] with [L * y <= x] is a lower bound of the rounded
    quotient and every integer [U] with [x <= U * y] an upper bound. *)
Lemma SFdiv_between (prec emax A1 B1 A2 B2 L U : Z) (x y : spec_float) :
  0 < prec -> emin prec emax <= 1 - 2 * prec -> 1 <= emax - prec ->
  1 <= A1 -> B1 < 2 ^ prec -> 1 <= A2 -> B2 < 2 ^ prec ->
  0 <= L -> L * B2 <= A1 -> 0 <= U -> B1 <= U * A2 ->
  between prec A1 B1 x -> between prec A2 B2 y ->
  between prec L U (SFdiv prec emax x y).
Proof.
  intros Hp Hemin Hemax HA1 HB1 HA2 HB2 HL HLB HU HUA Hx Hy.
  destruct x as [s|s| |s m1 e1]; try contradiction.
  destruct s; [contradiction|].
  destruct y as [s|s| |s m2 e2]; try contradiction.
  destruct s; [contradiction|].
  pose proof Hx as (Hn1 & _). pose proof Hy as (Hn2 & _).
  destruct (between_normal prec A1 B1 m1 e1 Hp HA1 HB1 Hx) as (Hd1 & He1 & Hv1).
  destruct (between_normal prec A2 B2 m2 e2 Hp HA2 HB2 Hy) as (Hd2 & He2 & Hv2).
  cbn [SFdiv xorb]. unfold SFdiv_core_binary. rewrite Hd1, Hd2.
  replace (Z.min (fexp prec emax (prec + e1 - (prec + e2))) (e1 - e2))
    with (e1 - e2 - prec) by (unfold fexp; lia).
  replace (e1 - e2 - (e1 - e2 - prec)) with prec by lia.
  set (e' := e1 - e2 - prec).
  assert (Hm' : match prec with
                | 0 => Zpos m1
                | Zpos _ => Z.shiftl (Zpos m1) prec
                | Zneg _ => 0
                end = Zpos m1 * 2 ^ prec).
  { destruct prec; try lia. apply Z.shiftl_mul_pow2. lia. }
  rewrite Hm'. clear Hm'.
  pose proof (Z_div_mod (Zpos m1 * 2 ^ prec) (Zpos m2) ltac:(lia)) as Hdm.
  destruct (Z.div_eucl (Zpos m1 * 2 ^ prec) (Zpos m2)) as [q r].
  destruct Hdm as [Heq Hr].
  (* powers of two *)
  set (P := 2 ^ prec) in *.
  assert (HP : 0 < P) by (apply Z.pow_pos_nonneg; lia).
  assert (H2p : 0 < 2 ^ (prec - 1)) by (apply Z.pow_pos_nonneg; lia).
  assert (HPP : P = 2 * 2 ^ (prec - 1)) by (apply pow2_succ; lia).
  set (a := 2 ^ (- e1)) in *. set (b := 2 ^ (- e2)) in *.
  set (c := 2 ^ (- e')).
  assert (Ha : 0 < a) by (apply Z.pow_pos_nonneg; lia).
  assert (Hb : 0 < b) by (apply Z.pow_pos_nonneg; lia).
  assert (Hc : 0 < c) by (apply Z.pow_pos_nonneg; unfold e'; lia).
  assert (Hcb : c * b = P * a).
  { unfold c, b, P, a. rewrite <- !Z.pow_add_r by (unfold e'; lia).
    f_equal. unfold e'. lia. }
  (* the exact quotient lies between L and U *)
  assert (Hup : Zpos m1 * P <= U * c * Zpos m2).
  { apply Z.le_trans with (B1 * a * P).
    - apply Z.mul_le_mono_nonneg_r; lia.
    - apply Z.le_trans with (U * c * (A2 * b)).
      + replace (U * c * (A2 * b)) with (U * A2 * (c * b)) by ring.
        rewrite Hcb. replace (B1 * a * P) with (B1 * (P * a)) by ring.
        apply Z.mul_le_mono_nonneg_r; [|assumption].
        apply Z.mul_nonneg_nonneg; lia.
      + apply Z.mul_le_mono_nonneg_l; [|lia].
        apply Z.mul_nonneg_nonneg; lia. }
  assert (Hlo : L * c * Zpos m2 <= Zpos m1 * P).
  { apply Z.le_trans with (A1 * a * P).
    - apply Z.le_trans with (L * c * (B2 * b)).
      + apply Z.mul_le_mono_nonneg_l; [|lia].
        apply Z.mul_nonneg_nonneg; lia.
      + replace (L * c * (B2 * b)) with (L * B2 * (c * b)) by ring.
        rewrite Hcb. replace (A1 * a * P) with (A1 * (P * a)) by ring.
        apply Z.mul_le_mono_nonneg_r; [|assumption].
        apply Z.mul_nonneg_nonneg; lia.
    - apply Z.mul_le_mono_nonneg_r; lia. }
  assert (Hq0 : 0 <= q).
  { destruct (Z_lt_le_dec q 0) as [Hneg|]; [exfalso|assumption].
    assert (Zpos m2 * q <= Zpos m2 * (-1)) by (apply Z.mul_le_mono_nonneg_l; lia).
    assert (0 < Zpos m1 * P) by (apply Z.mul_pos_pos; lia).
    lia. }
  assert (HqU : q <= U * c).
  { apply (Z.mul_le_mono_pos_r _ _ (Zpos m2)); [lia|].
    rewrite (Z.mul_comm q). lia. }
  assert (HqL : L * c <= q).
  { assert (Hlt : L * c * Zpos m2 < (q + 1) * Zpos m2)
      by (rewrite Z.mul_add_distr_r, (Z.mul_comm q); lia).
    apply Z.mul_lt_mono_pos_r in Hlt; lia. }
  assert (Hexact : q = U * c -> r = 0).
  { intros ->. rewrite (Z.mul_comm (Zpos m2)) in Heq. lia. }
  (* the quotient has prec or prec + 1 digits *)
  assert (Hqlo : 2 ^ (prec - 1) <= q).
  { assert (Hlt : 2 ^ (prec - 1) * Zpos m2 < (q + 1) * Zpos m2).
    { rewrite Z.mul_add_distr_r, (Z.mul_comm q).
      assert (2 ^ (prec - 1) * P <= Zpos m1 * P)
        by (apply Z.mul_le_mono_nonneg_r; lia).
      assert (2 ^ (prec - 1) * Zpos m2 < 2 ^ (prec - 1) * P)
        by (apply Z.mul_lt_mono_pos_l; lia).
      lia. }
    apply Z.mul_lt_mono_pos_r in Hlt; lia. }
  assert (Hqhi : q < 2 * P).
  { apply (Z.mul_lt_mono_pos_r (Zpos m2)); [lia|].
    assert (Zpos m1 * P < P * P) by (apply Z.mul_lt_mono_pos_r; lia).
    assert (P * (2 * 2 ^ (prec - 1)) <= P * (2 * Zpos m2))
      by (apply Z.mul_le_mono_nonneg_l; lia).
    rewrite <- HPP in H0. rewrite (Z.mul_comm q). 
    replace (2 * P * Zpos m2) with (P * (2 * Zpos m2)) by ring. lia. }
  pose proof (Zdigits2_bounds q ltac:(lia)) as [Hdl Hdu].
  set (dq := Zdigits2 q) in *.
  assert (Hdq : prec <= dq <= prec + 1).
  { split.
    - assert (H1 : 2 ^ (prec - 1) < 2 ^ dq) by lia.
      apply pow2_lt_inv in H1; [lia|].
      pose proof (Zdigits2_pos q ltac:(lia)). fold dq in H. lia.
    - assert (H1 : 2 ^ (dq - 1) < 2 ^ (prec + 1)).
      { rewrite (Z.pow_add_r 2 prec 1) by lia. change (2 ^ 1) with 2. fold P. lia. }
      apply pow2_lt_inv in H1; lia. }
  (* rounding *)
  destruct (binary_round_aux_spec prec emax Hp false q e' (new_location (Zpos m2) r) Hq0)
    as (m_r & Hcases & Hex & Hr0 & ->).
  fold dq in Hcases, Hex |- *.
  assert (Hk : Z.max 0 (fexp prec emax (dq + e') - e') = dq - prec)
    by (unfold fexp, e'; lia).
  rewrite Hk in *. set (k := dq - prec) in *.
  assert (H2k : 0 < 2 ^ k) by (apply Z.pow_pos_nonneg; lia).
  set (E := e' + k).
  assert (HE : E <= 0) by (unfold E, e', k; lia).
  assert (Hck : c = 2 ^ (- E) * 2 ^ k).
  { unfold c. rewrite <- Z.pow_add_r by (unfold E, e', k; lia). f_equal. unfold E. lia. }
  assert (HmE : 0 < 2 ^ (- E)) by (apply Z.pow_pos_nonneg; lia).
  assert (Hfl_lo : L * 2 ^ (- E) <= q / 2 ^ k).
  { apply Z.div_le_lower_bound; [lia|].
    rewrite Hck in HqL. replace (2 ^ k * (L * 2 ^ (- E))) with (L * (2 ^ (- E) * 2 ^ k)) by ring.
    exact HqL. }
  assert (Hfl_norm : 2 ^ (prec - 1) <= q / 2 ^ k).
  { apply Z.div_le_lower_bound; [lia|].
    rewrite <- Z.pow_add_r by lia.
    replace (k + (prec - 1)) with (dq - 1) by (unfold k; lia). exact Hdl. }
  assert (Hfl_le : q / 2 ^ k <= m_r) by lia.
  assert (Hup_r : m_r <= U * 2 ^ (- E)).
  { destruct (Z.eq_dec q (U * c)) as [Hqe|Hqne].
    - rewrite (Hexact Hqe), new_location_exact in Hex.
      assert (Hqk : q = U * 2 ^ (- E) * 2 ^ k) by (rewrite Hqe, Hck; ring).
      rewrite Hex; [|reflexivity|rewrite Hqk; apply Z.mod_mul; lia].
      rewrite Hqk, Z.div_mul by lia. lia.
    - assert (q / 2 ^ k < U * 2 ^ (- E)); [|lia].
      apply Z.div_lt_upper_bound; [lia|].
      replace (2 ^ k * (U * 2 ^ (- E))) with (U * (2 ^ (- E) * 2 ^ k)) by ring.
      rewrite <- Hck. lia. }
  apply pack_between; try assumption; lia.
Qed.

(** ** The prediction by tick *)

Lemma emin32_deep : emin prec32 emax32 <= 1 - 2 * prec32. Proof. discriminate. Qed.

(** [CRITICAL_TEMP - temperature] for a temperature below the threshold. *)
Lemma temp_diff_between (A B : Z) (x : float) :
  1 <= A -> B < 100 -> between prec32 A B x ->
  between prec32 (100 - B) (100 - A)
    (float_of_double (dsub CRITICAL_TEMP (double_of_float x))).
Proof.
  intros HA HB Hx.
  assert (H53 : 2 ^ 53 = 9007199254740992) by reflexivity.
  assert (H24 : 2 ^ 24 = 16777216) by reflexivity.
  apply float_of_double_between; [lia|lia|].
  apply (SFsub_between prec64 emax64 100 100 A B);
    [apply prec64_pos|apply emin64_normal|apply emax64_room|lia|lia|reflexivity| |].
  - apply double_of_int_between. split; [discriminate|reflexivity].
  - apply double_of_float_between; [lia|lia|assumption].
Qed.

(** A difference that cannot be positive is +0 or carries the minus sign. *)
Lemma SFsub_nonpos (prec emax A1 B1 A2 B2 : Z) (x y : spec_float) :
  0 < prec -> B1 <= A2 ->
  between prec A1 B1 x -> between prec A2 B2 y ->
  SFsub prec emax x y = S754_zero false \/ sign_class true (SFsub prec emax x y) = true.
Proof.
  intros Hp HBA Hx Hy.
  destruct x as [s|s| |s mx ex]; try contradiction.
  destruct s; [contradiction|].
  destruct y as [s|s| |s my ey]; try contradiction.
  destruct s; [contradiction|].
  destruct Hx as (_ & _ & Hlx). destruct Hy as (_ & Hgy & _).
  cbn [SFsub].
  destruct (shl_align_spec mx ex (Z.min ex ey)) as [Hs1 Hm1].
  destruct (shl_align_spec my ey (Z.min ex ey)) as [Hs2 Hm2].
  cbn [cond_Zopp].
  set (z := Z.min ex ey) in *.
  assert (Hle : Zpos (fst (shl_align mx ex z)) <= Zpos (fst (shl_align my ey z))).
  { assert (H1 : le_int (Zpos (fst (shl_align mx ex z))) z B1).
    { rewrite Hm1, Hs1. replace (Z.min ex z) with z by (unfold z; lia).
      replace z with (ex - (ex - z)) at 2 by lia.
      apply le_int_shl; [unfold z; lia|]. exact Hlx. }
    assert (H2 : ge_int A2 (Zpos (fst (shl_align my ey z))) z).
    { rewrite Hm2, Hs2. replace (Z.min ey z) with z by (unfold z; lia).
      replace z with (ey - (ey - z)) at 2 by lia.
      apply ge_int_shl; [unfold z; lia|]. exact Hgy. }
    unfold le_int in H1. unfold ge_int in H2.
    pose proof (scale_pos z) as Hsz. pose proof (scale_pos (- z)) as Hsz'.
    assert (B1 * scale (- z) <= A2 * scale (- z))
      by (apply Z.mul_le_mono_nonneg_r; lia).
    apply (Z.mul_le_mono_pos_r _ _ (scale z)); [assumption|lia]. }
  destruct (Zpos (fst (shl_align mx ex z)) - Zpos (fst (shl_align my ey z)))
    as [|k|k] eqn:Hk; try lia.
  - left. reflexivity.
  - right. cbn [binary_normalize]. now apply binary_round_sign.
Qed.

(** The steps computed from a difference that is +0 or negative are
    below 10 once they are clamped. *)
Lemma clamped_steps_alert (current : SensorData) (rate : float) (A B : Z) :
  let diff :=
    float_of_double (dsub CRITICAL_TEMP (double_of_float (temperature current))) in
  diff = S754_zero false \/ sign_class true diff = true ->
  between prec32 A B rate ->
  lt (projected_steps current rate) (float_of_int 10) = true.
Proof.
  intros diff Hd Hrate. unfold projected_steps. fold diff.
  destruct rate as [s|s| |s m e]; try contradiction.
  destruct s; [contradiction|].
  assert (Hs : fdiv diff (S754_finite false m e) = S754_zero false \/
               sign_class true (fdiv diff (S754_finite false m e)) = true).
  { destruct Hd as [->|Hd]; [left; reflexivity|right].
    destruct (sign_class_eq _ _ Hd) as [->|[->|(md & ed & ->)]]; try reflexivity.
    unfold fdiv. cbn [SFdiv xorb].
    pose proof (SFdiv_core_binary_nonneg prec32 emax32 md m ed e) as Hq.
    destruct (SFdiv_core_binary prec32 emax32 (Zpos md) ed (Zpos m) e) as [[mz ez] lz].
    cbn [fst] in Hq. apply binary_round_aux_sign; [apply prec32_pos|assumption]. }
  cbv zeta. destruct Hs as [->|Hs]; [reflexivity|].
  destruct (sign_class_eq _ _ Hs) as [->|[->|(ms & es & ->)]]; reflexivity.
Qed.

Lemma positive_not_lt_zero (prec A B : Z) (x : spec_float) :
  between prec A B x -> lt x (float_of_int 0) = false.
Proof.
  destruct x as [s|s| |s m e]; try contradiction.
  destruct s; [contradiction|]. reflexivity.
Qed.

Lemma sense_temperature_between (env : Env) (t : Z) (r : nat) :
  rand_in_range env -> 0 <= t <= 1000000 ->
  between prec32 (40 + 3 * t) (42 + 3 * t) (temperature (sense env t r)).
Proof.
  intros Hrand Ht.
  destruct (sense_between env t r (Hrand _) (Hrand _) Ht) as [H _]. exact H.
Qed.

(** X10. The prediction by tick, whatever the noise: at tick 2 the
    predictor prints the safe-operation message, and from tick 17 to tick 21
    it prints the alert -- at the latest three ticks before the loop stops.
    At tick 16 either message can appear: the alert without noise, the
    safe-operation message when the noise drops from its largest value
    to 0. *)
Theorem prediction_by_tick :
  (forall (env : Env) (t : Z) (r r' : nat),
      rand_in_range env ->
      let prev := sense env t r in
      let cur := sense env (t + 1) r' in
      let rate := fsub (temperature cur) (temperature prev) in
      let steps := projected_steps cur rate in
      (t = 1 -> predictor_verdict cur prev = SafeFor rate steps) /\
      (16 <= t <= 20 -> predictor_verdict cur prev = Urgent rate steps)) /\
  (exists steps,
      predictor_verdict (sense quiet_env 16 2) (sense quiet_env 15 0)
      = Urgent (float_of_int 3) steps) /\
  (exists steps,
      predictor_verdict (sense spike_env 16 2) (sense spike_env 15 0)
      = SafeFor (float_of_int 1) steps).
Proof.
  split; [|split; eexists; vm_compute; reflexivity].
  intros env t r r' Hrand prev cur rate steps.
  assert (K10 : between prec32 10 10 (float_of_int 10))
    by (apply float_of_int_between; split; [discriminate|reflexivity]).
  assert (H24 : 2 ^ 24 = 16777216) by reflexivity.
  assert (Hgen : 0 <= t <= 20 ->
            between prec32 1 5 rate /\
            le rate (float_of_int 0) = false /\
            between prec32 (43 + 3 * t) (45 + 3 * t) (temperature cur)).
  { intros Ht.
    pose proof (rate_between env t r r' Hrand ltac:(lia)) as Hrate.
    fold prev cur rate in Hrate.
    split; [exact Hrate|]. split; [eapply positive_not_le_zero; exact Hrate|].
    pose proof (sense_temperature_between env (t + 1) r' Hrand ltac:(lia)) as Hc.
    fold cur in Hc.
    eapply between_weaken; [| |exact Hc]; lia. }
  split.
  - intros Ht. destruct (Hgen ltac:(lia)) as (Hrate & Hnot & Hcur).
    pose proof (temp_diff_between (43 + 3 * t) (45 + 3 * t) _ ltac:(lia) ltac:(lia) Hcur)
        as Hdiff.
    assert (Hsteps : between prec32 10 54 (fdiv (float_of_double
              (dsub CRITICAL_TEMP (double_of_float (temperature cur)))) rate)).
    { apply (SFdiv_between prec32 emax32 (100 - (45 + 3 * t)) (100 - (43 + 3 * t)) 1 5 10 54);
        [apply prec32_pos|apply emin32_deep|apply emax32_room| | | | | | | | |
         exact Hdiff|exact Hrate]; try (change (2 ^ prec32) with 16777216); lia. }
    unfold predictor_verdict. fold rate. rewrite Hnot.
    fold steps. unfold steps, projected_steps.
    rewrite (positive_not_lt_zero _ _ _ _ Hsteps).
    destruct (lt_between _ _ _ _ _ _ prec32_pos Hsteps K10) as [_ Hfar].
    rewrite Hfar by lia. reflexivity.
  - intros Ht. destruct (Hgen ltac:(lia)) as (Hrate & Hnot & Hcur).
    unfold predictor_verdict. fold rate. rewrite Hnot.
    fold steps.
    destruct (Z_le_gt_dec t 18) as [Hbelow|Habove].
    + unfold steps, projected_steps. pose proof (temp_diff_between (43 + 3 * t) (45 + 3 * t) _ ltac:(lia) ltac:(lia) Hcur)
        as Hdiff.
      assert (Hsteps : between prec32 0 9 (fdiv (float_of_double
                (dsub CRITICAL_TEMP (double_of_float (temperature cur)))) rate)).
      { apply (SFdiv_between prec32 emax32 (100 - (45 + 3 * t)) (100 - (43 + 3 * t)) 1 5 0 9);
          [apply prec32_pos|apply emin32_deep|apply emax32_room| | | | | | | | |
           exact Hdiff|exact Hrate]; try (change (2 ^ prec32) with 16777216); lia. }
      rewrite (positive_not_lt_zero _ _ _ _ Hsteps).
      destruct (lt_between _ _ _ _ _ _ prec32_pos Hsteps K10) as [Hnear _].
      rewrite Hnear by lia. reflexivity.
    + assert (Hdiff : float_of_double (dsub CRITICAL_TEMP (double_of_float (temperature cur)))
                      = S754_zero false \/
                      sign_class true (float_of_double
                        (dsub CRITICAL_TEMP (double_of_float (temperature cur)))) = true).
      { assert (H53 : 2 ^ 53 = 9007199254740992) by reflexivity.
        assert (K100 : between prec64 100 100 CRITICAL_TEMP)
          by (apply double_of_int_between; split; [discriminate|reflexivity]).
        pose proof (double_of_float_between (43 + 3 * t) (45 + 3 * t) _
                      ltac:(lia) ltac:(lia) Hcur) as Hc'.
        destruct (SFsub_nonpos prec64 emax64 100 100 (43 + 3 * t) (45 + 3 * t) _ _
                    prec64_pos ltac:(lia) K100 Hc')
          as [Hz|Hneg].
        - left. unfold dsub. rewrite Hz. reflexivity.
        - right. apply round_to_sign; [apply prec32_pos|exact Hneg]. }
      unfold steps. rewrite (clamped_steps_alert cur rate 1 5 Hdiff Hrate). reflexivity.
Qed.

(** ** Readings of late ticks *)

(** A number that is at least [B] is above every number below [B]. *)
Lemma at_least_compare (prec B C : Z) (x c : spec_float) :
  0 < prec -> at_least prec B x -> between prec C C c -> C < B ->
  SFcompare x c = Some Gt.
Proof.
  intros Hp Hx Hc HCB.
  destruct c as [s|s| |s mc ec]; try contradiction.
  destruct s; [contradiction|]. destruct Hc as (Hn & _ & Hlc).
  destruct x as [s|s| |s m e]; try destruct s; cbn [at_least] in Hx; try contradiction.
  - reflexivity.
  - destruct Hx as [Hm Hge].
    set (N := Z.abs e + Z.abs ec).
    apply (ge_int_offset _ _ _ N) in Hge; [|lia|lia].
    apply (le_int_offset _ _ _ N) in Hlc; [|lia|lia].
    assert (HN : 0 < 2 ^ N) by (apply Z.pow_pos_nonneg; lia).
    assert (Hlt : Zpos mc * 2 ^ (N + ec) < Zpos m * 2 ^ (N + e)).
    { assert (C * 2 ^ N < B * 2 ^ N) by (apply Z.mul_lt_mono_pos_r; assumption). lia. }
    cbn [SFcompare]. f_equal.
    destruct (Z.compare_spec e ec) as [Heq|Hl|Hg]; [| |reflexivity].
    + subst ec.
      change (Pos.compare_cont Eq m mc) with (Zpos m ?= Zpos mc).
      apply Z.compare_gt_iff.
      assert (Hq : 0 < 2 ^ (N + e)) by (apply Z.pow_pos_nonneg; lia).
      apply Z.mul_lt_mono_pos_r in Hlt; assumption.
    + exfalso.
      assert (Hq : 0 < 2 ^ (N + e)) by (apply Z.pow_pos_nonneg; lia).
      assert (K1 : Zpos m * 2 ^ (N + e) < 2 ^ prec * 2 ^ (N + e))
        by (apply Z.mul_lt_mono_pos_r; assumption).
      assert (K2 : 2 ^ (prec - 1) * 2 ^ (N + ec) <= Zpos mc * 2 ^ (N + ec))
        by (apply Z.mul_le_mono_nonneg_r; [apply Z.pow_nonneg|]; lia).
      assert (K3 : 2 ^ (1 + (N + e)) <= 2 ^ (N + ec)) by (apply Z.pow_le_mono_r; lia).
      rewrite Z.pow_add_r in K3 by lia. change (2 ^ 1) with 2 in K3.
      assert (K4 : 0 < 2 ^ (prec - 1)) by (apply Z.pow_pos_nonneg; lia).
      assert (K5 : 2 ^ (prec - 1) * (2 * 2 ^ (N + e)) <= 2 ^ (prec - 1) * 2 ^ (N + ec))
        by (apply Z.mul_le_mono_nonneg_l; lia).
      rewrite (pow2_succ prec Hp) in K1.
      replace (2 * 2 ^ (prec - 1) * 2 ^ (N + e))
        with (2 ^ (prec - 1) * (2 * 2 ^ (N + e))) in K1 by ring.
      lia.
Qed.

(** The temperature of every tick is at least its trend, as long as the
    bound fits a [float]. *)
Lemma sense_temperature_at_least (env : Env) (t : Z) (r : nat) (B : Z) :
  0 <= rand_value env r -> 0 <= t <= INT_MAX ->
  0 < B < 2 ^ 24 -> B <= 40 + 3 * t ->
  at_least prec32 B (temperature (sense env t r)).
Proof.
  intros Hr Ht HB HBt. unfold sense. cbn [temperature]. unfold float_of_double.
  assert (H53 : 2 ^ 24 < 2 ^ 53) by reflexivity.
  apply (round_to_at_least _ _ prec64); [reflexivity|discriminate|exact HB|].
  rewrite trend_temperature by assumption.
  assert (Hk : exists k : positive, 40 + 3 * t = Zpos k).
  { destruct (40 + 3 * t) as [|k|k] eqn:E; try lia. now exists k. }
  destruct Hk as [k Hk]. rewrite Hk.
  assert (Hk53 : Zpos k < 2 ^ 53).
  { rewrite <- Hk. unfold INT_MAX in Ht. change (2 ^ 53) with 9007199254740992. lia. }
  assert (Hat : at_least prec64 B (dyadic (Zpos k) 0)).
  { unfold dyadic. cbn [binary_normalize].
    apply binary_round_at_least; [reflexivity|discriminate| |].
    - change (2 ^ prec64) with (2 ^ 53). lia.
    - unfold ge_int. change (scale (- 0)) with 1. change (scale 0) with 1. lia. }
  destruct (dyadic_normal_form k 0 Hk53 ltac:(lia)) as (q & _ & Hq).
  rewrite Hq in Hat |- *.
  apply SFadd_at_least; [reflexivity|discriminate| |exact Hat|].
  - change (2 ^ prec64) with (2 ^ 53). lia.
  - apply round_to_sign; [reflexivity|].
    change (double_of_int 2) with (S754_finite false 4503599627370496 (-51)).
    now apply random_noise_sign.
Qed.

(** From tick 21 on the status is CRITICAL, from tick 17 on the
    temperature is at least 90. *)
Lemma sense_status_late (env : Env) (t : Z) (r : nat) :
  0 <= rand_value env r -> 21 <= t <= INT_MAX -> status (sense env t r) = 2.
Proof.
  intros Hr Ht.
  pose proof (sense_temperature_at_least env t r 103 Hr ltac:(lia)
                ltac:(split; reflexivity) ltac:(lia)) as Hat.
  assert (Hgt : gt (double_of_float (temperature (sense env t r))) CRITICAL_TEMP = true).
  { apply gt_critical_temp. unfold double_of_float.
    apply (round_to_at_least _ _ prec32); [reflexivity|discriminate|split; reflexivity|].
    exact Hat. }
  change (status (sense env t r))
    with (classify (temperature (sense env t r)) (vibration (sense env t r))).
  unfold classify. rewrite Hgt. reflexivity.
Qed.

Lemma sense_bar_late (env : Env) (t : Z) (r : nat) :
  0 <= rand_value env r -> 17 <= t <= INT_MAX ->
  lt (temperature (sense env t r)) (float_of_int 60) = false /\
  lt (temperature (sense env t r)) (float_of_int 90) = false.
Proof.
  intros Hr Ht.
  pose proof (sense_temperature_at_least env t r 91 Hr ltac:(lia)
                ltac:(split; reflexivity) ltac:(lia)) as Hat.
  assert (K60 : between prec32 60 60 (float_of_int 60))
    by (apply float_of_int_between; split; [discriminate|reflexivity]).
  assert (K90 : between prec32 90 90 (float_of_int 90))
    by (apply float_of_int_between; split; [discriminate|reflexivity]).
  unfold lt, SFltb.
  rewrite (at_least_compare prec32 91 60 _ _ prec32_pos Hat K60 ltac:(lia)).
  rewrite (at_least_compare prec32 91 90 _ _ prec32_pos Hat K90 ltac:(lia)).
  split; reflexivity.
Qed.

(** The status of the reading of any tick an [int] can count. *)
Lemma sense_status_int (env : Env) (t : Z) (r : nat) :
  rand_in_range env -> 1 <= t <= INT_MAX ->
  let data := sense env t r in
  (t <= 12 -> status data = 0) /\
  (t = 13 -> status data = 0 \/ status data = 1) /\
  (14 <= t <= 19 -> status data = 1) /\
  (t = 20 -> status data = 1 \/ status data = 2) /\
  (21 <= t -> status data = 2).
Proof.
  intros Hrand Ht data.
  destruct (Z_le_gt_dec t 20) as [Hsmall|Hlate].
  - destruct (sense_status env t r Hrand ltac:(lia)) as (H1 & H2 & H3 & H4 & H5).
    repeat split; assumption.
  - repeat split; intros H; try lia.
    apply sense_status_late; [apply Hrand|lia].
Qed.

(** The two tests that choose the bar, by tick. *)
Lemma sense_bar (env : Env) (t : Z) (r : nat) :
  rand_in_range env -> 1 <= t <= INT_MAX ->
  let temp := temperature (sense env t r) in
  (t <= 5 -> lt temp (float_of_int 60) = true) /\
  (7 <= t <= 15 -> lt temp (float_of_int 60) = false /\ lt temp (float_of_int 90) = true) /\
  (17 <= t -> lt temp (float_of_int 60) = false /\ lt temp (float_of_int 90) = false).
Proof.
  intros Hrand Ht temp.
  destruct (Z_le_gt_dec t 16) as [Hsmall|Hlate].
  - destruct (sense_between env t r (Hrand _) (Hrand _) ltac:(lia)) as [Htemp _].
    fold temp in Htemp.
    assert (K60 : between prec32 60 60 (float_of_int 60))
      by (apply float_of_int_between; split; [discriminate|reflexivity]).
    assert (K90 : between prec32 90 90 (float_of_int 90))
      by (apply float_of_int_between; split; [discriminate|reflexivity]).
    destruct (lt_between _ _ _ _ _ _ prec32_pos Htemp K60) as [Hlow Hnotlow].
    destruct (lt_between _ _ _ _ _ _ prec32_pos Htemp K90) as [Hmid Hhigh].
    split; [|split].
    + intros H. apply Hlow. lia.
    + intros H. split; [apply Hnotlow|apply Hmid]; lia.
    + intros H. lia.
  - split; [|split]; intros H; try lia.
    apply sense_bar_late; [apply Hrand|lia].
Qed.

(** X2. The status of the reading of tick [t], whatever the noise, for
    every tick from 1 to [INT_MAX], the largest number the [int]
    [time_step] can hold: OK up to tick 12, WARNING from tick 14 to tick 19
    and CRITICAL from tick 21 on.  At tick 13 it is OK or WARNING and at
    tick 20 WARNING or CRITICAL; each of the two happens, the lower one
    without noise and the higher one with the largest noise. *)
Theorem status_by_tick :
  (forall (env : Env) (t : Z) (w : World),
      rand_in_range env -> 1 <= t <= INT_MAX ->
      let data := fst (read_sensors env t w) in
      (t <= 12 -> status data = 0) /\
      (t = 13 -> status data = 0 \/ status data = 1) /\
      (14 <= t <= 19 -> status data = 1) /\
      (t = 20 -> status data = 1 \/ status data = 2) /\
      (21 <= t -> status data = 2)) /\
  status (fst (read_sensors quiet_env 13 empty_world)) = 0 /\
  status (fst (read_sensors noisy_env 13 empty_world)) = 1 /\
  status (fst (read_sensors quiet_env 20 empty_world)) = 1 /\
  status (fst (read_sensors noisy_env 20 empty_world)) = 2.
Proof.
  split.
  - intros env t w Hrand Ht. rewrite read_sensors_sense. cbn [fst].
    now apply sense_status_int.
  - repeat split; vm_compute; reflexivity.
Qed.

(** X6. The dashboard of the reading of tick [t], whatever the noise,
    for every tick from 1 to [INT_MAX], the largest number the [int]
    [time_step] can hold: twelve outputs, the first of which clears the
    screen; the short bar up to tick 5, the middle bar from tick 7 to
    tick 15 and the full bar with the exclamation marks from tick 17 on;
    the text NORMAL up to tick 12, WARNING from tick 14 to tick 19 and
    CRITICAL from tick 21 on. *)
Theorem dashboard_by_tick :
  forall (env : Env) (t : Z) (w : World) (d : Output),
    rand_in_range env -> 1 <= t <= INT_MAX ->
    let data := fst (read_sensors env t w) in
    let out := dashboard_output data in
    List.length out = 12%nat /\
    nth 0 out d = System "clear" /\
    (t <= 5 -> nth 6 out d = Printf ("[====      ]" ++ NL) []) /\
    (7 <= t <= 15 -> nth 6 out d = Printf ("[========  ]" ++ NL) []) /\
    (17 <= t -> nth 6 out d = Printf ("[==========] !!!" ++ NL) []) /\
    (t <= 12 -> nth 10 out d = Printf ("NORMAL [ OK ]" ++ NL) []) /\
    (14 <= t <= 19 -> nth 10 out d = Printf ("WARNING [ ! ]" ++ NL) []) /\
    (21 <= t -> nth 10 out d = Printf ("CRITICAL [ X ]" ++ NL) []).
Proof.
  intros env t w d Hrand Ht data out.
  assert (Hdata : data = sense env t (rand_calls w)).
  { unfold data. rewrite read_sensors_sense. reflexivity. }
  destruct (sense_status_int env t (rand_calls w) Hrand Ht) as (Hok & _ & Hwarn & _ & Hcrit).
  destruct (sense_bar env t (rand_calls w) Hrand Ht) as (Hlow & Hmid & Hhigh).
  cbv zeta in Hok, Hwarn, Hcrit, Hlow, Hmid, Hhigh.
  rewrite <- Hdata in Hok, Hwarn, Hcrit, Hlow, Hmid, Hhigh.
  assert (Hrange : status data = 0 \/ status data = 1 \/ status data = 2).
  { rewrite Hdata. apply classify_range. }
  unfold out. rewrite dashboard_output_eq.
  split; [|split; [reflexivity|]].
  { destruct Hrange as [-> | [-> | ->]]; reflexivity. }
  cbn [app nth].
  split; [|split; [|split; [|split; [|split]]]].
  - intros H. rewrite (Hlow H). reflexivity.
  - intros H. destruct (Hmid H) as [-> ->]. reflexivity.
  - intros H. destruct (Hhigh H) as [-> ->]. reflexivity.
  - intros H. rewrite (Hok H). reflexivity.
  - intros H. rewrite (Hwarn H). reflexivity.
  - intros H. rewrite (Hcrit H). reflexivity.
Qed.

(** ** The loop inside [main] *)

(** The screen is cleared once in every iteration. *)
Lemma clears_of_run (env : Env) (n : nat) (r f : nat) (prev : SensorData) :
  (1 <= n)%nat ->
  (forall j, (1 <= j < n)%nat -> status (reading_at env 0 r j) <> 2) ->
  status (reading_at env 0 r n) = 2 ->
  count is_clear (run_console env n 0 r f prev) = n.
Proof.
  intros Hn Hbefore Hat.
  pose proof (count_run env is_clear 1%nat 0%nat 0%nat 0%nat
                (fun d => proj1 (dashboard_counts d))
                (fun c q => proj1 (predict_counts c q)) eq_refl eq_refl
                n 0 r f prev ltac:(lia) Hn Hbefore Hat) as Hcount.
  cbn [Z.leb Z.compare] in Hcount. lia.
Qed.

(** What the loop has done when it returns to [main]: the number [n] of
    its iterations is the final value of [time_step]; [n - 1] iterations
    went through and the [n]-th one left the loop. *)
Lemma loop_after_startup (env : Env) (fuel : nat) (w : World)
      (st' : LoopState) (w_loop : World) :
  main_loop env fuel initial_state (startup_world w) = Some (st', w_loop) ->
  exists (n : nat) (ticks : list Output),
    (1 <= n <= fuel)%nat /\ time_step st' = Z.of_nat n /\
    (forall j, (1 <= j < n)%nat -> status (reading_at env 0 (rand_calls w) j) <> 2) /\
    status (reading_at env 0 (rand_calls w) n) = 2 /\
    (forall k, (k < n)%nat ->
       exists st wk, iterations env k initial_state (startup_world w) = Some (st, wk)) /\
    iterations env n initial_state (startup_world w) = None /\
    log_file w_loop
    = header_line :: run_rows env n 0 (rand_calls w) (S (fopen_calls w)) /\
    console w_loop
    = (console w
       ++ [Printf ("Booting Sentin-L System..." ++ NL) [];
           Printf ("Connecting to IoT Sensors..." ++ NL) []]
       ++ ticks ++ halt_output)%list /\
    count is_clear (console w_loop) = (count is_clear (console w) + n)%nat /\
    rand_calls w_loop = (rand_calls w + 2 * n)%nat /\
    fopen_calls w_loop = (fopen_calls w + 1 + n)%nat /\
    slept w_loop = slept w + Z.of_nat n.
Proof.
  intros Hrun.
  destruct (main_loop_inv env fuel _ _ _ _ Hrun)
    as (n & Hn & Ht & Hbefore & Hat & Hfile & Hcons & Hr & Hf & Hs).
  change (time_step initial_state) with 0 in Ht, Hbefore, Hat, Hfile, Hcons.
  cbn [startup_world log_file console rand_calls fopen_calls slept]
    in Ht, Hbefore, Hat, Hfile, Hcons, Hr, Hf, Hs.
  destruct (run_console_ends env n 0 (rand_calls w) (S (fopen_calls w))
              (prev_data initial_state) ltac:(lia) Hat) as [ticks Hends].
  exists n, ticks.
  split; [assumption|]. split; [lia|]. split; [assumption|]. split; [assumption|].
  split; [|split].
  - intros k Hk. apply iterations_continue. intros j Hj. apply Hbefore. lia.
  - destruct n as [|n]; [lia|].
    destruct (iterations_continue env (startup_world w) n) as (st & w1 & Hk).
    { intros j Hj. apply Hbefore. lia. }
    now apply (iterations_step env (startup_world w) n st w1 Hk).
  - split; [exact Hfile|]. split; [|split; [|split; [assumption|split; lia]]].
    + rewrite Hcons, Hends, <- !app_assoc. reflexivity.
    + rewrite Hcons, !count_app.
      rewrite (clears_of_run env n _ _ _ ltac:(lia) Hbefore Hat).
      cbn [count filter is_clear List.length]. lia.
Qed.


(** ** Termination *)

(** C10. With the values of [rand] in range the temperature of tick 21
    is above the critical threshold whatever the noise, so the loop stops at
    a CRITICAL reading after at most 21 iterations.  [main], once it has
    written the header, runs this loop and returns 0 only after it: its
    result is the world the loop has left, with the closing message added --
    a world in which [rand] has been called twice and a second has been
    slept for every tick, and whose console ends with the halt message.
    Without noise the loop takes all 21 ticks. *)
Theorem loop_terminates_within_21_ticks :
  forall (env : Env) (w : World) (fuel : nat),
    rand_in_range env -> (21 <= fuel)%nat ->
    (forall r, gt (double_of_float (temperature (sense env 21 r))) CRITICAL_TEMP = true) /\
    (forall r, status (sense env 21 r) = 2) /\
    (exists (st' : LoopState) (w' : World) (n : nat),
        main_loop env fuel initial_state w = Some (st', w') /\
        time_step st' = Z.of_nat n /\ (1 <= n <= 21)%nat /\
        status (reading_at env 0 (rand_calls w) n) = 2 /\
        iterations env n initial_state w = None) /\
    (fopen_ok env (fopen_calls w) = true ->
     exists (st' : LoopState) (w_loop : World) (n : nat) (ticks : list Output),
       main_loop env fuel initial_state (startup_world w) = Some (st', w_loop) /\
       time_step st' = Z.of_nat n /\ (1 <= n <= 21)%nat /\
       status (reading_at env 0 (rand_calls w) n) = 2 /\
       (forall k, (k < n)%nat ->
          exists st wk,
            iterations env k initial_state (startup_world w) = Some (st, wk)) /\
       iterations env n initial_state (startup_world w) = None /\
       main env fuel w
       = Some (Exit 0 (printf (NL ++ "Session Data saved to '%s'." ++ NL)
                              [AStr DATA_FILE] w_loop)) /\
       console w_loop
       = (console w
          ++ [Printf ("Booting Sentin-L System..." ++ NL) [];
              Printf ("Connecting to IoT Sensors..." ++ NL) []]
          ++ ticks ++ halt_output)%list /\
       rand_calls w_loop = (rand_calls w + 2 * n)%nat /\
       fopen_calls w_loop = (fopen_calls w + 1 + n)%nat /\
       slept w_loop = slept w + Z.of_nat n) /\
    (exists st' w',
        main_loop quiet_env fuel initial_state empty_world = Some (st', w') /\
        time_step st' = 21).
Proof.
  intros env w fuel Hrand Hfuel.
  split; [|split; [|split; [|split]]].
  - intros r. apply temperature_critical_at_21. apply Hrand.
  - intros r. apply sense_critical_at_21. apply Hrand.
  - destruct (main_loop_run env w fuel Hrand Hfuel)
      as (st' & w' & n & Hrun & Ht & Hn & Hat & Hbefore & _).
    exists st', w', n. repeat (split; [assumption|]).
    destruct n as [|n]; [lia|].
    destruct (iterations_continue env w n) as (st & w1 & Hk).
    { intros i Hi. apply Hbefore. lia. }
    now apply (iterations_step env w n st w1 Hk).
  - intros Hok.
    destruct (main_loop_run env (startup_world w) fuel Hrand Hfuel)
      as (st' & w_loop & n0 & Hrun & Ht0 & Hn0 & _).
    destruct (loop_after_startup env fuel w st' w_loop Hrun)
      as (n & ticks & Hn & Ht & _ & Hat & Hthrough & Hleft & _ & Hcons & _
          & Hr & Hf & Hs).
    exists st', w_loop, n, ticks.
    split; [assumption|]. split; [assumption|]. split; [lia|].
    split; [assumption|]. split; [assumption|]. split; [assumption|].
    split; [|split; [assumption|split; [assumption|split; assumption]]].
    rewrite main_startup by assumption. now rewrite Hrun.
  - replace fuel with (21 + (fuel - 21))%nat by lia.
    eexists _, _. split.
    + apply main_loop_more_fuel. vm_compute. reflexivity.
    + reflexivity.
Qed.

(** ** Instances of the properties above *)

Lemma noisy_env_in_range : rand_in_range noisy_env.
Proof. intro k. cbn. unfold RAND_MAX. lia. Defined.

Lemma readings_within_bounds_witness :
  rand_in_range noisy_env /\ 0 <= 20 <= 1000000 /\
  le (float_of_int 100) (temperature (fst (read_sensors noisy_env 20 empty_world))) = true /\
  le (temperature (fst (read_sensors noisy_env 20 empty_world))) (float_of_int 102) = true.
Proof.
  split; [exact noisy_env_in_range|]. split; [lia|].
  destruct (proj1 readings_within_bounds noisy_env 20 empty_world
                  noisy_env_in_range ltac:(lia))
    as (H1 & H2 & _).
  split; [exact H1|exact H2].
Defined.

Lemma halt_is_caused_by_temperature_witness :
  rand_in_range noisy_env /\
  exists st' w',
    main_loop noisy_env 21 initial_state empty_world = Some (st', w') /\
    exists n : nat,
      time_step st' = Z.of_nat n /\
      gt (double_of_float (temperature (reading_at noisy_env 0 0 n))) CRITICAL_TEMP = true.
Proof.
  split; [exact noisy_env_in_range|].
  assert (H : main_loop noisy_env 21 initial_state empty_world = noisy_run)
    by (vm_compute; reflexivity).
  unfold noisy_run in H.
  eexists _, _. split; [exact H|].
  destruct (halt_is_caused_by_temperature noisy_env empty_world 21 _ _ noisy_env_in_range H)
    as (n & H1 & H2 & _).
  exists n. split; [exact H1|exact H2].
Defined.

Lemma predictor_sees_rising_temperature_witness :
  rand_in_range quiet_env /\ 0 <= 1 < 1000000 /\
  predictor_verdict (sense quiet_env 2 2) (sense quiet_env 1 0) <> Stable.
Proof.
  split; [exact quiet_env_in_range|]. split; [lia|].
  destruct (predictor_sees_rising_temperature quiet_env 1 0 2 quiet_env_in_range ltac:(lia))
    as (_ & _ & H & _).
  exact H.
Defined.

Lemma finished_run_of_main_witness :
  fopen_ok quiet_env (fopen_calls empty_world) = true /\
  exists (w' : World) (n : nat),
    main quiet_env 21 empty_world = Some (Exit 0 w') /\
    slept w' = Z.of_nat n /\ (1 <= n <= 21)%nat.
Proof.
  split; [reflexivity|].
  assert (H : main quiet_env 21 empty_world = quiet_main) by (vm_compute; reflexivity).
  unfold quiet_main in H.
  destruct (finished_run_of_main quiet_env 21 empty_world _ H eq_refl)
    as (w' & n & ticks & Hout & Hn & _ & _ & Hs & _).
  exists w', n. split; [|split; [exact Hs|exact Hn]].
  rewrite H. f_equal. exact Hout.
Defined.

Lemma console_of_a_run_witness :
  exists st' w',
    main_loop noisy_env 21 initial_state empty_world = Some (st', w') /\
    exists out,
      console w' = out /\ count is_clear out = 20%nat /\ count is_halt out = 1%nat.
Proof.
  assert (H : main_loop noisy_env 21 initial_state empty_world = noisy_run)
    by (vm_compute; reflexivity).
  unfold noisy_run in H.
  eexists _, _. split; [exact H|].
  destruct (console_of_a_run noisy_env empty_world 21 _ _ H)
    as (out & before & n & H1 & H2 & _ & H4 & _ & H6 & _).
  exists out. split; [exact H1|].
  cbn [time_step] in H2.
  assert (Hn : n = 20%nat) by lia.
  rewrite Hn in H4. split; [exact H4|exact H6].
Defined.

Lemma nan_temperature_is_reported_safe_witness :
  (is_nan (temperature nan_reading) = true \/
   is_nan (temperature (reading_with_temperature (float_of_int 70))) = true) /\
  predictor_verdict nan_reading (reading_with_temperature (float_of_int 70))
  = SafeFor S754_nan S754_nan /\
  classify (temperature nan_reading) (vibration nan_reading) = 0.
Proof.
  assert (H : is_nan (temperature nan_reading) = true \/
              is_nan (temperature (reading_with_temperature (float_of_int 70))) = true)
    by (left; reflexivity).
  split; [exact H|].
  destruct (nan_temperature_is_reported_safe
              nan_reading (reading_with_temperature (float_of_int 70))
              empty_world banner_output H) as (H1 & _ & H3).
  split; [exact H1|].
  destruct (H3 eq_refl) as [Hc _]. exact Hc.
Defined.

Lemma dashboard_by_tick_witness :
  rand_in_range quiet_env /\ 1 <= 21 <= INT_MAX /\
  nth 10 (dashboard_output (fst (read_sensors quiet_env 21 empty_world))) banner_output
  = Printf ("CRITICAL [ X ]" ++ NL) [].
Proof.
  split; [exact quiet_env_in_range|]. split; [unfold INT_MAX; lia|].
  destruct (dashboard_by_tick quiet_env 21 empty_world banner_output
                              quiet_env_in_range ltac:(unfold INT_MAX; lia))
    as (_ & _ & _ & _ & _ & _ & _ & H).
  apply H. lia.
Defined.


Lemma loop_terminates_within_21_ticks_witness :
  rand_in_range noisy_env /\ (21 <= 30)%nat /\
  status (sense noisy_env 21 0) = 2 /\
  exists w_loop n,
    main noisy_env 30 empty_world
    = Some (Exit 0 (printf (NL ++ "Session Data saved to '%s'." ++ NL)
                           [AStr DATA_FILE] w_loop)) /\
    rand_calls w_loop = (2 * n)%nat /\ (1 <= n <= 21)%nat.
Proof.
  split; [exact noisy_env_in_range|]. split; [lia|].
  destruct (loop_terminates_within_21_ticks noisy_env empty_world 30
              noisy_env_in_range ltac:(lia))
    as (_ & H2 & _ & H4 & _).
  split; [apply H2|].
  destruct (H4 eq_refl)
    as (st' & w_loop & n & ticks & _ & _ & Hn & _ & _ & _ & Hmain & _ & Hr & _).
  exists w_loop, n. split; [exact Hmain|]. split; [exact Hr|exact Hn].
Defined.
